(** * StreamPulse: the event-processing core, embedded and verified

    A shallow embedding of the Python sources

      - [processing/anomaly_detector.py]  (module [Detector])
      - [monitoring/metrics.py]           (module [Metrics])
      - [ingestion/stream_processor.py]   (module [Ingest])
      - [api/routes/events.py]            (modules [Routes], [IngestRoutes])
      - [core/config.py]                  (module [Config])
      - [services/worker.py]              (module [Worker])
      - [services/websocket_manager.py]   (module [Hub])

    Python [float] is IEEE binary64 and is modelled by Rocq's primitive
    floats, so that every definition below evaluates.  Dictionaries are
    finite maps from keys to values ([gmap string _]); the Redis streams
    are lists of entries, oldest first.  Calls that leave the process
    (Redis commands, channel sends, clocks) take their outcome as an
    explicit argument. *)

From Stdlib Require Import ZArith Floats SpecFloat String Ascii List Bool Lia.
From Stdlib Require Import DecimalString DecimalZ.
From stdpp Require Import base option list gmap strings.

Import ListNotations.
#[local] Set Warnings "-clear-no-such-hyp".
Local Open Scope Z_scope.
Local Open Scope string_scope.
Local Open Scope list_scope.

(** ** Python values that occur in event dictionaries *)

(** A Python [str].  The decimal rendering of a float ([str(x)], i.e. the
    shortest text that reads back as [x]) is kept symbolic as [Repr x];
    every other string is literal text. *)
Inductive pystr : Type :=
  | Lit (s : string)
  | Repr (x : float).

(** The value types that redis-py accepts as stream fields. *)
Inductive pyval : Type :=
  | PStr (s : pystr)
  | PInt (z : Z)
  | PFloat (x : float).

(** [str(z)] for an [int]. *)
Definition str_int (z : Z) : string := NilZero.string_of_int (Z.to_int z).

(** [str(b)] for a [bool]. *)
Definition str_bool (b : bool) : string := if b then "True" else "False".

(** [str(v)]: also the text redis-py puts on the wire for a field value. *)
Definition py_str (v : pyval) : pystr :=
  match v with
  | PStr s => s
  | PInt z => Lit (str_int z)
  | PFloat x => Repr x
  end.

(** [int(s)] on text: an optional minus sign followed by decimal digits.
    [None] stands for the [ValueError] Python raises. *)
Definition int_of_text (s : string) : option Z :=
  Z.of_int <$> NilZero.int_of_string s.

(** [int(v)].  The text of a float always carries a point, an exponent or
    a name ([inf], [nan]), which [int] refuses; an in-memory float is
    outside what the pipeline passes to [int] and is refused as well. *)
Definition py_int (v : pyval) : option Z :=
  match v with
  | PInt z => Some z
  | PStr (Lit s) => int_of_text s
  | PStr (Repr _) => None
  | PFloat _ => None
  end.

(** The float nearest to an integer below [2^63] in magnitude. *)
Definition float_of_Z (z : Z) : float :=
  match z with
  | Z0 => 0%float
  | Zpos _ => PrimFloat.of_uint63 (Uint63.of_Z z)
  | Zneg p => PrimFloat.opp (PrimFloat.of_uint63 (Uint63.of_Z (Zpos p)))
  end.

(** Splits text at its first point: the digits before it and, when there is
    a point, the digits after it. *)
Fixpoint split_point (s : string) : string * option string :=
  match s with
  | EmptyString => (EmptyString, None)
  | String c rest =>
      if Ascii.eqb c "."%char then (EmptyString, Some rest)
      else let '(a, b) := split_point rest in (String c a, b)
  end.

(** The digits of an unsigned decimal literal, as a number. *)
Definition digits_of_text (s : string) : option Z :=
  (fun d => Z.of_N (N.of_uint d)) <$> NilEmpty.uint_of_string s.

(** Unsigned plain decimal text [digits] or [digits.digits] (one side of the
    point may be empty) read as a float: the quotient of the integer made
    of all its digits by the power of ten of its fractional length.  Both
    are exact floats when the literal has at most 15 digits, and one IEEE
    division then gives the correctly rounded value, as [float()] does.
    Literals outside that range, exponents, [inf]/[nan], padding and
    underscores are not modelled and yield [None] like text [float()]
    refuses. *)
Definition unsigned_float_of_text (s : string) : option float :=
  let '(ip, fp) := split_point s in
  let fp := default EmptyString fp in
  if ((String.length ip + String.length fp)%nat =? 0)%nat then None
  else if (15 <? String.length ip + String.length fp)%nat then None
  else
    m ← digits_of_text (ip ++ fp);
    Some (float_of_Z m / float_of_Z (10 ^ Z.of_nat (String.length fp)))%float.

(** [float(s)] on text: an optional sign and a plain decimal literal. *)
Definition float_of_text (s : string) : option float :=
  match s with
  | String "-" rest => PrimFloat.opp <$> unsigned_float_of_text rest
  | String "+" rest => unsigned_float_of_text rest
  | _ => unsigned_float_of_text s
  end.

(** [float(v)]; [None] stands for the [ValueError]/[OverflowError] raised. *)
Definition py_float (v : pyval) : option float :=
  match v with
  | PFloat x => Some x
  | PInt z => if (Z.abs z <? 2 ^ 53)%Z then Some (float_of_Z z) else None
  | PStr (Repr x) => Some x
  | PStr (Lit s) => float_of_text s
  end.

(** A float literal used in the examples: the binary64 value nearest to
    one tenth (Python's [0.1]). *)
Definition one_tenth : float := 0x1.999999999999ap-4%float.

(** ** numpy: the two reductions the detector calls *)

(** [np.mean] and [np.std] on a one-dimensional float64 array.  The
    detector is defined against this interface; [numpy_f64] below
    implements it. *)
Class Numpy := {
  np_mean : list float -> float;
  np_std : list float -> float
}.

Module NumpyF64.

(** The unrolled part of numpy's [pairwise_sum]: eight running sums,
    advanced eight elements at a time; what is left of the array when
    fewer than eight elements remain is returned with them. *)
Fixpoint unrolled (r : list float) (a : list float) (fuel : nat) : list float * list float :=
  match fuel with
  | O => (r, a)
  | S fuel' =>
      match r, a with
      | [r0; r1; r2; r3; r4; r5; r6; r7], a0 :: a1 :: a2 :: a3 :: a4 :: a5 :: a6 :: a7 :: a' =>
          unrolled [r0 + a0; r1 + a1; r2 + a2; r3 + a3; r4 + a4; r5 + a5; r6 + a6; r7 + a7]%float
                   a' fuel'
      | _, _ => (r, a)
      end
  end.

(** A block of 8 to 128 elements. *)
Definition block_sum (a : list float) : float :=
  match unrolled (take 8 a) (drop 8 a) (length a) with
  | ([r0; r1; r2; r3; r4; r5; r6; r7], rest) =>
      fold_left PrimFloat.add rest (((r0 + r1) + (r2 + r3)) + ((r4 + r5) + (r6 + r7)))%float
  | (_, _) => 0%float
  end.

(** numpy's [pairwise_sum]: a plain loop below 8 elements, the unrolled
    block up to 128, and otherwise the sum of the two halves, the first
    cut at a multiple of 8.  [fuel] bounds the depth of the halving; the
    length of the array is always enough. *)
Fixpoint pairwise_sum (fuel : nat) (a : list float) : float :=
  let n := length a in
  if (n <? 8)%nat then fold_left PrimFloat.add a (-0)%float
  else if (n <=? 128)%nat then block_sum a
  else
    match fuel with
    | O => block_sum a
    | S fuel' =>
        let n2 := (n / 2 - (n / 2) mod 8)%nat in
        (pairwise_sum fuel' (take n2 a) + pairwise_sum fuel' (drop n2 a))%float
    end.

(** [np.add.reduce]: the identity [0.0] plus the pairwise sum. *)
Definition sum (a : list float) : float := (0 + pairwise_sum (length a) a)%float.

(** The element count as a float. *)
Definition count (a : list float) : float := float_of_Z (Z.of_nat (length a)).

(** [np.mean(a)]: the sum divided by the count. *)
Definition mean (a : list float) : float := (sum a / count a)%float.

(** [np.std(a)]: the square root of the mean of the squared deviations
    from the mean (population standard deviation, [ddof = 0]). *)
Definition std (a : list float) : float :=
  let arrmean := mean a in
  let x := map (fun v => (v - arrmean)%float) a in
  let x := map (fun v => (v * v)%float) x in
  PrimFloat.sqrt (sum x / count a)%float.

End NumpyF64.

#[export] Instance numpy_f64 : Numpy :=
  {| np_mean := NumpyF64.mean; np_std := NumpyF64.std |}.

(** Conversions of text, as Python performs them. *)
Example py_float_examples :
  py_float (PStr (Lit "42.5")) = Some 42.5%float
  /\ py_float (PStr (Lit "0.1")) = Some one_tenth
  /\ py_float (PStr (Lit "-1000")) = Some (-1000)%float
  /\ py_float (PStr (Lit "abc")) = None
  /\ py_int (PStr (Lit (str_int 3))) = Some 3.
Proof. vm_compute. repeat split; reflexivity. Qed.

(** ** Two facts of IEEE arithmetic *)

Module FloatFacts.

(** Rounding ignores the sign it is given. *)
Lemma SFabs_round (s : bool) (m e : Z) (l : location) :
  SFabs (binary_round_aux prec emax s m e l) = binary_round_aux prec emax false m e l.
Proof.
  unfold binary_round_aux.
  destruct (shr_fexp prec emax m e l) as [mrs' e'].
  destruct (shr_fexp prec emax _ e' loc_Exact) as [mrs'' e''].
  destruct (shr_m mrs''); try reflexivity.
  destruct (e'' <=? emax - prec)%Z; reflexivity.
Qed.

Lemma SFabs_div (a b : spec_float) : SFabs (SF64div a b) = SF64div (SFabs a) (SFabs b).
Proof.
  unfold SF64div, SFdiv.
  destruct a as [sa|sa| |sa ma ea], b as [sb|sb| |sb mb eb]; try reflexivity.
  cbn [SFabs].
  destruct (SFdiv_core_binary prec emax (Z.pos ma) ea (Z.pos mb) eb) as [[mz ez] lz].
  apply SFabs_round.
Qed.

(** The absolute value of a quotient is the quotient of the absolute
    values, exactly. *)
Lemma abs_div (x y : float) :
  PrimFloat.abs (x / y) = (PrimFloat.abs x / PrimFloat.abs y)%float.
Proof.
  apply Prim2SF_inj.
  rewrite FloatAxioms.abs_spec, !FloatAxioms.div_spec, !FloatAxioms.abs_spec.
  apply SFabs_div.
Qed.

Lemma SFabs_sqrt (a : spec_float) :
  SFabs (SF64sqrt a) = SF64sqrt a \/ exists s, SF64sqrt a = S754_zero s.
Proof.
  unfold SF64sqrt, SFsqrt.
  destruct a as [s|[|]| |[|] m e]; try (left; reflexivity); try (right; eexists; reflexivity).
  left. destruct (SFsqrt_core_binary prec emax (Z.pos m) e) as [[mz ez] lz].
  apply SFabs_round.
Qed.

(** A square root that is not zero carries no minus sign. *)
Lemma abs_sqrt (x : float) :
  (PrimFloat.sqrt x =? 0)%float = false -> PrimFloat.abs (PrimFloat.sqrt x) = PrimFloat.sqrt x.
Proof.
  intros Hnz. apply Prim2SF_inj. rewrite FloatAxioms.abs_spec.
  destruct (SFabs_sqrt (Prim2SF x)) as [Habs|[s Hz]];
    rewrite <- FloatAxioms.sqrt_spec in *; [exact Habs|].
  rewrite FloatAxioms.eqb_spec, Hz in Hnz. destruct s; discriminate Hnz.
Qed.

End FloatFacts.

(** ** processing/anomaly_detector.py *)

Module Detector.

(** The fields of an [AnomalyDetector]; [window] is the deque, oldest
    value first. *)
Record AnomalyDetector : Type := mk {
  window_size : nat;
  threshold : float;
  window : list float
}.

(** [AnomalyDetector(window_size, threshold)]. *)
Definition init (window_size : nat) (threshold : float) : AnomalyDetector :=
  {| window_size := window_size; threshold := threshold; window := [] |}.

(** [AnomalyDetector()]: the defaults, a window of 100 and threshold 3.0. *)
Definition default : AnomalyDetector := init 100 3%float.

(** [deque(maxlen=m).append(v)]: a full deque drops its oldest element; a
    deque of capacity zero stays empty. *)
Definition deque_append (maxlen : nat) (w : list float) (v : float) : list float :=
  if (maxlen =? 0)%nat then w
  else if (length w <? maxlen)%nat then w ++ [v]
  else drop 1 w ++ [v].

Section WithNumpy.
Context `{Numpy}.

(** [detect(value)]: the detector after the call and [(is_anomaly, z_score)]. *)
Definition detect (d : AnomalyDetector) (value : float) : AnomalyDetector * (bool * float) :=
  let d := {| window_size := window_size d; threshold := threshold d;
              window := deque_append (window_size d) (window d) value |} in
  if (length (window d) <? 30)%nat then (d, (false, 0%float))
  else
    let mean := np_mean (window d) in
    let std := np_std (window d) in
    if (std =? 0)%float then (d, (false, 0%float))
    else
      let z_score := PrimFloat.abs ((value - mean) / std) in
      let is_anomaly := (threshold d <? z_score)%float in
      (d, (is_anomaly, z_score)).

(** The results of calling [detect] on each value of a stream in turn. *)
Fixpoint run (d : AnomalyDetector) (values : list float) : list (bool * float) :=
  match values with
  | [] => []
  | v :: values' => (detect d v).2 :: run (detect d v).1 values'
  end.

End WithNumpy.

(** *** The window *)

Lemma deque_append_length_le (m : nat) (w : list float) (v : float) :
  (length (deque_append m w v) <= S (length w))%nat.
Proof.
  unfold deque_append.
  destruct (m =? 0)%nat; [lia|].
  destruct (length w <? m)%nat; rewrite length_app; [simpl; lia|].
  rewrite length_drop. simpl. lia.
Qed.

Lemma deque_append_bounded (m : nat) (w : list float) (v : float) :
  (length w <= m)%nat -> (length (deque_append m w v) <= m)%nat.
Proof.
  intros Hw. unfold deque_append.
  destruct (Nat.eqb_spec m 0) as [->|Hm]; [exact Hw|].
  destruct (Nat.ltb_spec (length w) m) as [Hlt|Hge];
    rewrite length_app; [simpl; lia|].
  rewrite length_drop. simpl. lia.
Qed.

Lemma deque_append_room (m : nat) (w : list float) (v : float) :
  (length w < m)%nat -> deque_append m w v = w ++ [v].
Proof.
  intros Hw. unfold deque_append.
  destruct (Nat.eqb_spec m 0) as [->|Hm]; [lia|].
  destruct (Nat.ltb_spec (length w) m); [reflexivity|lia].
Qed.

Lemma deque_append_full (m : nat) (w : list float) (v : float) :
  (0 < m)%nat -> length w = m -> deque_append m w v = drop 1 w ++ [v].
Proof.
  intros Hm Hw. unfold deque_append.
  destruct (Nat.eqb_spec m 0) as [->|_]; [lia|].
  destruct (Nat.ltb_spec (length w) m); [lia|reflexivity].
Qed.

Lemma deque_append_replicate (m j : nat) (v : float) :
  (j <= m)%nat ->
  deque_append m (replicate j v) v = replicate (Nat.min (S j) m) v.
Proof.
  intros Hj. unfold deque_append. rewrite length_replicate.
  destruct (Nat.eqb_spec m 0) as [->|Hm].
  { assert (j = 0)%nat as -> by lia. reflexivity. }
  destruct (Nat.ltb_spec j m) as [Hlt|Hge].
  - rewrite Nat.min_l by lia.
    change [v] with (replicate 1 v). rewrite <- replicate_add.
    f_equal. lia.
  - assert (j = m) as -> by lia. rewrite Nat.min_r by lia.
    rewrite drop_replicate. change [v] with (replicate 1 v).
    rewrite <- replicate_add. f_equal. lia.
Qed.

(** *** One call *)

Section Facts.
Context `{Numpy}.

Lemma detect_window (d : AnomalyDetector) (value : float) :
  (detect d value).1 =
  {| window_size := window_size d; threshold := threshold d;
     window := deque_append (window_size d) (window d) value |}.
Proof.
  unfold detect. cbn [window window_size threshold].
  destruct (_ <? 30)%nat; [reflexivity|].
  destruct (_ =? 0)%float; reflexivity.
Qed.

Lemma detect_insufficient (d : AnomalyDetector) (value : float) :
  (length (deque_append (window_size d) (window d) value) < 30)%nat ->
  (detect d value).2 = (false, 0%float).
Proof.
  intros Hlen. unfold detect. cbn [window window_size threshold].
  destruct (Nat.ltb_spec (length (deque_append (window_size d) (window d) value)) 30);
    [reflexivity|lia].
Qed.

Lemma detect_zero_std (d : AnomalyDetector) (value : float) :
  (np_std (deque_append (window_size d) (window d) value) =? 0)%float = true ->
  (detect d value).2 = (false, 0%float).
Proof.
  intros Hstd. unfold detect. cbn [window window_size threshold].
  destruct (_ <? 30)%nat; [reflexivity|].
  rewrite Hstd. reflexivity.
Qed.

Lemma detect_z_score (d : AnomalyDetector) (value : float) :
  let w := deque_append (window_size d) (window d) value in
  let z := PrimFloat.abs ((value - np_mean w) / np_std w) in
  (30 <= length w)%nat ->
  (np_std w =? 0)%float = false ->
  (detect d value).2 = ((threshold d <? z)%float, z).
Proof.
  intros w z Hlen Hstd. unfold detect. cbn [window window_size threshold].
  fold w. destruct (Nat.ltb_spec (length w) 30); [lia|].
  rewrite Hstd. reflexivity.
Qed.

(** *** Streams *)

Lemma run_length (d : AnomalyDetector) (values : list float) :
  length (run d values) = length values.
Proof.
  revert d. induction values as [|v values IH]; intros d; simpl; [reflexivity|].
  now rewrite IH.
Qed.

Lemma run_take (n : nat) (d : AnomalyDetector) (values : list float) :
  take n (run d values) = run d (take n values).
Proof.
  revert d values. induction n as [|n IH]; intros d [|v values]; simpl; try reflexivity.
  now rewrite IH.
Qed.

(** While the window stays below 30 values every call is suppressed. *)
Lemma run_short (d : AnomalyDetector) (values : list float) :
  (length (window d) + length values < 30)%nat ->
  run d values = replicate (length values) (false, 0%float).
Proof.
  revert d. induction values as [|v values IH]; intros d Hlen; simpl; [reflexivity|].
  simpl in Hlen.
  pose proof (deque_append_length_le (window_size d) (window d) v) as Hle.
  rewrite detect_insufficient by lia.
  rewrite IH; [reflexivity|].
  rewrite detect_window. cbn [window]. lia.
Qed.

(** A constant stream keeps the window constant, so each call is
    suppressed by one of the two guards as soon as the deviation of a
    constant window evaluates to zero. *)
Lemma run_constant (ws j n : nat) (th v : float) :
  (j <= ws)%nat ->
  (forall k, (30 <= k <= ws)%nat -> (np_std (replicate k v) =? 0)%float = true) ->
  run {| window_size := ws; threshold := th; window := replicate j v |} (replicate n v)
  = replicate n (false, 0%float).
Proof.
  intros Hj Hstd. revert j Hj.
  induction n as [|n IH]; intros j Hj; simpl; [reflexivity|].
  rewrite detect_window. cbn [window window_size threshold].
  rewrite deque_append_replicate by exact Hj.
  rewrite IH by lia. f_equal.
  destruct (Nat.lt_ge_cases (Nat.min (S j) ws) 30) as [Hlt|Hge].
  - apply detect_insufficient. cbn [window window_size].
    rewrite deque_append_replicate by exact Hj. now rewrite length_replicate.
  - apply detect_zero_std. cbn [window window_size].
    rewrite deque_append_replicate by exact Hj. apply Hstd. lia.
Qed.

(** On a constant stream each call sees a constant window. *)
Lemma run_replicate (ws j n : nat) (th v : float) :
  (j <= ws)%nat ->
  run {| window_size := ws; threshold := th; window := replicate j v |} (replicate n v)
  = (fun i => (detect {| window_size := ws; threshold := th;
                         window := replicate (Nat.min (j + i) ws) v |} v).2) <$> seq 0 n.
Proof.
  intros Hj. revert j Hj. induction n as [|n IH]; intros j Hj; [reflexivity|].
  cbn [replicate run seq fmap list_fmap].
  rewrite detect_window. cbn [window window_size threshold].
  rewrite deque_append_replicate by exact Hj.
  rewrite IH by lia. rewrite Nat.add_0_r, (Nat.min_l j ws) by lia. f_equal.
  rewrite <- seq_shift, <- list_fmap_compose. apply list_fmap_ext. intros _ i _.
  unfold compose.
  now replace (Nat.min (Nat.min (S j) ws + i) ws) with (Nat.min (j + S i) ws) by lia.
Qed.

End Facts.

(** The default detector on the constant stream of 0.1s, with numpy's
    reductions: the deviation of the window is zero for windows of 32,
    33, 34 and 40 values and a tiny positive number otherwise. *)
Lemma constant_tenths (n k : nat) :
  (k < n)%nat ->
  @run numpy_f64 default (replicate n one_tenth) !! k
  = Some (false, if (S k <? 30)%nat || existsb (Nat.eqb (S k)) [32; 33; 34; 40]%nat
                 then 0%float else 1%float).
Proof.
  intros Hk. unfold default, init.
  change (@nil float) with (replicate 0 one_tenth).
  rewrite run_replicate by lia.
  rewrite list_lookup_fmap, lookup_seq_lt by exact Hk. cbn [fmap option_fmap option_map Nat.add].
  f_equal. clear n Hk.
  destruct (Nat.lt_ge_cases k 100) as [Hlt|Hge].
  - do 100 (destruct k as [|k]; [vm_compute; reflexivity|]). lia.
  - rewrite Nat.min_r by exact Hge.
    replace (S k <? 30)%nat with false by (symmetry; apply Nat.ltb_ge; lia).
    replace (existsb (Nat.eqb (S k)) [32; 33; 34; 40]%nat) with false.
    + vm_compute. reflexivity.
    + symmetry. cbn [existsb]. rewrite !orb_false_iff.
      repeat split; try reflexivity; apply Nat.eqb_neq; lia.
Qed.

(** *** The algorithm of [detect] *)

(** C1 (as amended).  [detect value] appends [value] to the window, which
    drops its oldest value when it already holds [window_size] values and
    so never grows beyond [window_size]; it returns [(false, 0.0)] when
    the window then holds fewer than 30 values, and when the standard
    deviation computed over the window is zero; otherwise it returns
    [(z > threshold, z)] with [z = |(value - mean) / std|], which is
    [|value - mean| / |std|] exactly, and numpy's [std], a square root, is
    its own absolute value when it is not zero.  For every
    input stream the first 29 calls return [(false, 0.0)].  A constant
    stream yields [(false, 0.0)] on every call provided the deviation
    computed over a constant window is zero.  With numpy's float64
    reductions it is not always: on the constant stream of 0.1s the
    default detector returns [(false, 0.0)] on calls 1 to 29, 32, 33, 34
    and 40, and [(false, 1.0)] on every other call. *)
Theorem detect_algorithm `{Numpy} (d : AnomalyDetector) (value : float) :
  let w := deque_append (window_size d) (window d) value in
  let z := PrimFloat.abs ((value - np_mean w) / np_std w) in
  (* the state after the call *)
  (detect d value).1 =
    {| window_size := window_size d; threshold := threshold d; window := w |}
  /\ ((length (window d) < window_size d)%nat -> w = window d ++ [value])
  /\ ((0 < window_size d)%nat -> length (window d) = window_size d ->
        w = drop 1 (window d) ++ [value])
  /\ ((length (window d) <= window_size d)%nat -> (length w <= window_size d)%nat)
  (* the result of the call *)
  /\ ((length w < 30)%nat -> (detect d value).2 = (false, 0%float))
  /\ ((np_std w =? 0)%float = true -> (detect d value).2 = (false, 0%float))
  /\ ((30 <= length w)%nat -> (np_std w =? 0)%float = false ->
        (detect d value).2 = ((threshold d <? z)%float, z))
  /\ z = (PrimFloat.abs (value - np_mean w) / PrimFloat.abs (np_std w))%float
  /\ (forall a, (NumpyF64.std a =? 0)%float = false ->
        PrimFloat.abs (NumpyF64.std a) = NumpyF64.std a)
  (* streams *)
  /\ (forall ws th values,
        take 29 (run (init ws th) values)
        = replicate (Nat.min 29 (length values)) (false, 0%float))
  /\ (forall ws th v n,
        (forall k, (30 <= k <= ws)%nat -> (np_std (replicate k v) =? 0)%float = true) ->
        run (init ws th) (replicate n v) = replicate n (false, 0%float))
  /\ (forall n k, (k < n)%nat ->
        @run numpy_f64 default (replicate n one_tenth) !! k
        = Some (false, if (S k <? 30)%nat || existsb (Nat.eqb (S k)) [32; 33; 34; 40]%nat
                       then 0%float else 1%float)).
Proof.
  intros w z. repeat split.
  - apply detect_window.
  - apply deque_append_room.
  - apply deque_append_full.
  - apply deque_append_bounded.
  - apply detect_insufficient.
  - apply detect_zero_std.
  - apply detect_z_score.
  - apply FloatFacts.abs_div.
  - intros a. apply FloatFacts.abs_sqrt.
  - intros ws th values. rewrite run_take.
    rewrite run_short; rewrite length_take; [reflexivity|].
    unfold init. cbn [window length]. lia.
  - intros ws th v n Hstd.
    apply (run_constant ws 0 n th v); [lia|exact Hstd].
  - apply constant_tenths.
Qed.

(** The stream of scenario S4: fifty readings of 10.0, then 1000.0. *)
Definition spike_stream : list float := replicate 50 10%float ++ [1000%float].

(** With IEEE arithmetic: a window of 42.5s has deviation exactly zero and
    the stream is suppressed throughout; the spike of [spike_stream] is
    reported with [z] a little above 7; on the stream of 0.1s the 32nd
    call is suppressed and the 35th is not. *)
Lemma detect_algorithm_witness :
  @run numpy_f64 (init 31 3%float) (replicate 40 42.5%float)
    = replicate 40 (false, 0%float)
  /\ (exists z, last (@run numpy_f64 default spike_stream) = Some (true, z)
                /\ (7 <? z)%float = true)
  /\ @run numpy_f64 default (replicate 35 one_tenth) !! 31%nat = Some (false, 0%float)
  /\ @run numpy_f64 default (replicate 35 one_tenth) !! 34%nat = Some (false, 1%float).
Proof.
  pose proof (@detect_algorithm numpy_f64
                (mk 100 3%float (replicate 50 10%float)) 1000%float) as Hd.
  cbv zeta in Hd.
  destruct Hd as (_ & _ & _ & _ & _ & _ & Hz & _ & _ & _ & Hconst & Htenths).
  split; [|split; [|split]].
  - apply Hconst. intros k Hk.
    assert (k = 30 \/ k = 31)%nat as [-> | ->] by lia; vm_compute; reflexivity.
  - unfold spike_stream.
    assert (Hlast : last (@run numpy_f64 default (replicate 50 10%float ++ [1000%float]))
                    = Some (@detect numpy_f64 (mk 100 3%float (replicate 50 10%float))
                                    1000%float).2)
      by (vm_compute; reflexivity).
    rewrite Hlast, Hz; [| vm_compute; lia | vm_compute; reflexivity].
    vm_compute. eexists. split; reflexivity.
  - rewrite (Htenths 35%nat 31%nat) by lia. reflexivity.
  - rewrite (Htenths 35%nat 34%nat) by lia. reflexivity.
Defined.

(** One tenth is not a binary fraction: the mean of thirty copies
    rounds away from it, the deviation of the constant window comes out
    as a tiny positive number instead of zero, and the thirtieth call
    returns a z-score of one. *)
Example constant_tenths_thirtieth_call :
  @run numpy_f64 default (replicate 30 one_tenth) !! 29%nat = Some (false, 1%float).
Proof. vm_compute. reflexivity. Qed.

(** C1 (as stated) fails: the constant stream of thirty 0.1s does not
    yield [(false, 0.0)] on every call. *)
Lemma constant_stream_not_suppressed :
  @run numpy_f64 default (replicate 30 one_tenth) <> replicate 30 (false, 0%float).
Proof.
  intros Heq.
  assert (Hnth : @run numpy_f64 default (replicate 30 one_tenth) !! 29%nat
                 = replicate 30 (false, 0%float) !! 29%nat) by (rewrite Heq; reflexivity).
  rewrite constant_tenths_thirtieth_call in Hnth.
  apply (f_equal (fun o => match o with Some (_, x) => (x =? 1)%float | None => false end)) in Hnth.
  vm_compute in Hnth. discriminate Hnth.
Qed.

End Detector.

(** ** The log service: Redis streams *)

Module Redis.

(** The fields of a stream entry: a string-to-string map. *)
Abbreviation fields := (gmap string pystr).

(** An entry.  Redis assigns ids in increasing order; the id [n-0] is
    modelled by its sequence number [n]. *)
Record entry : Type := mk_entry {
  entry_id : nat;
  entry_fields : fields
}.

(** A stream: its entries, oldest first, the last id it assigned, and
    how the server trims it.  redis-py's [xadd(..., maxlen=cap)] sends
    [MAXLEN ~ cap], approximate trimming: the server evicts whole nodes
    of its tree from the old end and never goes below [cap], so the
    stream may stay above the cap.  How many entries go depends on the
    layout the server keeps for the stream; [evicts cap l] is the number
    it would evict from the entries [l]. *)
Record stream : Type := mk_stream {
  entries : list entry;
  last_id : nat;
  evicts : N -> list entry -> nat
}.

(** The entries beyond the cap. *)
Definition excess (cap : N) (l : list entry) : nat :=
  N.to_nat (N.of_nat (length l) - cap).

(** A server that evicts whole nodes of [node] entries. *)
Definition whole_nodes (node : nat) (cap : N) (l : list entry) : nat :=
  (excess cap l / node * node)%nat.

(** A new stream on a server with the default node size of 100 entries. *)
Definition empty : stream := {| entries := []; last_id := 0; evicts := whole_nodes 100 |}.

(** The number of entries ([XLEN]). *)
Definition xlen (s : stream) : N := N.of_nat (length (entries s)).

(** Trimming to [MAXLEN ~ cap]: the server evicts what its layout allows
    of the oldest entries beyond the cap, never more; without a cap
    nothing is evicted. *)
Definition trim (evicts : N -> list entry -> nat) (maxlen : option N) (l : list entry)
  : list entry :=
  match maxlen with
  | None => l
  | Some cap => drop (Nat.min (evicts cap l) (excess cap l)) l
  end.

(** [XADD key [MAXLEN ~ cap] * fields]: the stream with the new entry and
    the entry's id. *)
Definition xadd (s : stream) (f : fields) (maxlen : option N) : stream * nat :=
  let id := S (last_id s) in
  ({| entries := trim (evicts s) maxlen (entries s ++ [mk_entry id f]);
      last_id := id;
      evicts := evicts s |}, id).

(** [XRANGE key id id]: the entries with exactly this id. *)
Definition xrange_at (s : stream) (id : nat) : list entry :=
  filter (fun e => entry_id e = id) (entries s).

(** [XDEL key id]. *)
Definition xdel (s : stream) (id : nat) : stream :=
  {| entries := filter (fun e => entry_id e <> id) (entries s);
     last_id := last_id s;
     evicts := evicts s |}.

(** The three streams of the pipeline: [events:stream],
    [processed:stream] and [dlq:stream]. *)
Record db : Type := mk_db {
  events : stream;
  processed : stream;
  dlq : stream
}.

Definition empty_db : db := {| events := empty; processed := empty; dlq := empty |}.

(** The text of an entry id. *)
Definition id_text (id : nat) : string := str_int (Z.of_nat id) ++ "-0".

(** redis-py sends each field value as its text. *)
Definition encode (d : gmap string pyval) : fields := py_str <$> d.

(** With [decode_responses=True] a reader gets every field as a [str]. *)
Definition decode (f : fields) : gmap string pyval := PStr <$> f.

(** *** Facts about trimming *)

(** A trim never takes a stream below its cap. *)
Lemma trim_floor (evicts : N -> list entry -> nat) (cap : N) (l : list entry) :
  (N.min (N.of_nat (length l)) cap <= N.of_nat (length (trim evicts (Some cap) l)))%N.
Proof. unfold trim, excess. rewrite length_drop. lia. Qed.

Lemma trim_within (evicts : N -> list entry -> nat) (cap : N) (l : list entry) :
  (N.of_nat (length l) <= cap)%N -> trim evicts (Some cap) l = l.
Proof.
  intros Hl. unfold trim, excess.
  replace (N.to_nat (N.of_nat (length l) - cap)) with 0%nat by lia.
  now rewrite Nat.min_0_r.
Qed.


(** What a trim evicts is within the excess. *)
Lemma trim_drop (evicts : N -> list entry -> nat) (cap : N) (l : list entry) :
  exists k, (k <= excess cap l)%nat /\ trim evicts (Some cap) l = drop k l.
Proof. eexists. split; [apply Nat.le_min_r|reflexivity]. Qed.

Lemma xadd_uncapped_length (s : stream) (f : fields) :
  length (entries (xadd s f None).1) = S (length (entries s)).
Proof. unfold xadd. cbn [fst entries trim]. rewrite length_app. simpl. lia. Qed.

Lemma xadd_newest (s : stream) (f : fields) (cap : N) :
  (0 < cap)%N -> last (entries (xadd s f (Some cap)).1) = Some (mk_entry (S (last_id s)) f).
Proof.
  intros Hcap. unfold xadd. cbn [fst entries trim].
  set (k := Nat.min _ _).
  assert (Hk : (k <= length (entries s))%nat).
  { subst k. etransitivity; [apply Nat.le_min_r|].
    unfold excess. rewrite length_app. cbn [length]. lia. }
  rewrite drop_app_le by exact Hk. apply last_snoc.
Qed.

Lemma xadd_evicts (s : stream) (f : fields) (maxlen : option N) :
  evicts (xadd s f maxlen).1 = evicts s /\ last_id (xadd s f maxlen).1 = S (last_id s).
Proof. split; reflexivity. Qed.

End Redis.

(** ** monitoring/metrics.py *)

Module Metrics.

(** The fields of a [MetricsCollector] that its methods update.  The
    module-level Prometheus instruments receive the same updates and are
    not modelled. *)
Record MetricsCollector : Type := mk {
  ingestion_times : list float;
  processing_times : list float;
  start_time : float;
  anomalies_detected : Z;
  events_processed : Z
}.

(** [MetricsCollector(redis_client)], created at wall-clock time [now]. *)
Definition init (now : float) : MetricsCollector :=
  {| ingestion_times := []; processing_times := []; start_time := now;
     anomalies_detected := 0; events_processed := 0 |}.

(** [record_processing_start()]: the reading [now] of [time.perf_counter()]. *)
Definition record_processing_start (now : float) : float := now.

(** [record_processing_end(start_time, anomaly_detected)], called when
    [time.perf_counter()] reads [now]. *)
Definition record_processing_end (m : MetricsCollector) (start : float)
    (anomaly_detected : bool) (now : float) : MetricsCollector :=
  let duration := (now - start)%float in
  {| ingestion_times := ingestion_times m;
     processing_times := processing_times m ++ [duration];
     start_time := start_time m;
     anomalies_detected :=
       if anomaly_detected then anomalies_detected m + 1 else anomalies_detected m;
     events_processed := events_processed m + 1 |}.

(** Python's [max(1, x)]: the first argument unless the second is greater. *)
Definition max_one (x : float) : float := if (1 <? x)%float then x else 1%float.

(** The [events_per_second] entry of [get_metrics_summary()], computed when
    [time.time()] reads [now]. *)
Definition events_per_second (m : MetricsCollector) (now : float) : float :=
  (float_of_Z (events_processed m) / max_one (now - start_time m))%float.

(** The [anomalies] entry of [get_metrics_summary()]. *)
Definition anomalies (m : MetricsCollector) : Z := anomalies_detected m.

(** A run of [record_processing_end] calls, one per (start, anomaly, end)
    triple. *)
Definition record_all (m : MetricsCollector) (calls : list (float * bool * float))
  : MetricsCollector :=
  fold_left (fun m '(start, anomaly, now) => record_processing_end m start anomaly now)
            calls m.

(** The duration each call records. *)
Definition durations (calls : list (float * bool * float)) : list float :=
  map (fun '(start, _, now) => (now - start)%float) calls.

Lemma record_all_snoc m calls start anomaly now :
  record_all m (calls ++ [(start, anomaly, now)])
  = record_processing_end (record_all m calls) start anomaly now.
Proof. unfold record_all. now rewrite fold_left_app. Qed.

Lemma record_all_times (m : MetricsCollector) (calls : list (float * bool * float)) :
  processing_times (record_all m calls) = processing_times m ++ durations calls.
Proof.
  revert m. induction calls as [|[[start anomaly] now] calls IH]; intros m.
  - simpl. now rewrite app_nil_r.
  - change (record_all m ((start, anomaly, now) :: calls))
      with (record_all (record_processing_end m start anomaly now) calls).
    rewrite IH. cbn [processing_times record_processing_end durations map].
    now rewrite <- app_assoc.
Qed.

Lemma record_all_count (m : MetricsCollector) (calls : list (float * bool * float)) :
  events_processed (record_all m calls) = events_processed m + Z.of_nat (length calls).
Proof.
  revert m. induction calls as [|[[start anomaly] now] calls IH]; intros m.
  - simpl. lia.
  - change (record_all m ((start, anomaly, now) :: calls))
      with (record_all (record_processing_end m start anomaly now) calls).
    rewrite IH. cbn [events_processed record_processing_end length]. lia.
Qed.

(** C8 (as amended).  The processing-latency store is a plain list: every
    [record_processing_end] appends its sample at the end and nothing is
    ever evicted, so after any run of calls the store holds all earlier
    samples followed by the new ones, in order, and its size has grown by
    the number of calls. *)
Theorem processing_times_unbounded (m : MetricsCollector)
    (calls : list (float * bool * float)) :
  processing_times (record_all m calls) = processing_times m ++ durations calls
  /\ length (processing_times (record_all m calls))
     = (length (processing_times m) + length calls)%nat.
Proof.
  split; [apply record_all_times|].
  rewrite record_all_times, length_app. unfold durations. now rewrite length_map.
Qed.

(** C8 (as stated) fails: no bound holds in every reachable state.  After
    [N + 1] recorded samples the store of a fresh collector holds
    [N + 1] entries, whatever [N] is. *)
Lemma processing_times_no_bound :
  ~ exists N : nat, forall calls,
      (length (processing_times (record_all (init 0%float) calls)) <= N)%nat.
Proof.
  intros [N HN].
  specialize (HN (replicate (S N) (0%float, false, 0%float))).
  rewrite record_all_times, length_app in HN.
  unfold durations in HN. rewrite length_map, length_replicate in HN.
  simpl in HN. lia.
Qed.

End Metrics.

(** ** ingestion/stream_processor.py *)

(** An event dictionary. *)
Abbreviation event_dict := (gmap string pyval).

Module Ingest.

(** [maxlen=1000000] of the events stream. *)
Definition EVENTS_MAXLEN : N := 1000000.

(** What [ingest_batch] does with the values of an event: it adds
    strings of its own, and hands the values to redis-py, which sends a
    [str], an [int] or a [float] as text and refuses every other value
    (a [bool], [None], a [dict], a [list]) with [DataError]. *)
Class Value (V : Type) : Type := {
  of_str : string -> V;
  as_field : V -> option pystr;
  as_field_of_str : forall s, as_field (of_str s) = Some (Lit s)
}.

#[global] Instance pyval_value : Value pyval :=
  {| of_str s := PStr (Lit s);
     as_field v := Some (py_str v);
     as_field_of_str s := eq_refl |}.

(** The exceptions that leave [ingest_batch]. *)
Inductive exception : Type :=
  | TypeError
  | DataError.

(** What a call of [ingest_batch] gives: the number it returns, or the
    exception it raises. *)
Inductive answer : Type :=
  | Returned (ingested : nat)
  | Raised (e : exception).

Section Values.
Context {V : Type} `{Value V}.

(** [StreamProcessor._validate_event]: every required field is a key. *)
Definition _validate_event (event : gmap string V) : bool :=
  forallb (fun field => bool_decide (is_Some (event !! field)))
          ["timestamp"; "type"; "value"].

(** [StreamProcessor._enrich_event], with [datetime.utcnow().isoformat()]
    reading [now]. *)
Definition _enrich_event (event : gmap string V) (now : string) : gmap string V :=
  <["processed" := of_str "false"]> (<["ingested_at" := of_str now]> event).

(** The loop of [ingest_batch]: the dictionaries queued on the pipeline,
    one [XADD] per event, in order, or [None] when the loop raises.  For
    an event that fails validation the loop calls
    [logger.warning("invalid_event", event=event)]; the first parameter
    of a structlog logger method is itself named [event], so the call
    raises [TypeError] before anything is logged or skipped.  The clock
    is read once per enriched event: [utcnow i] is the reading for the
    event at position [i] of the batch. *)
Fixpoint queued (i : nat) (events : list (gmap string V)) (utcnow : nat -> string)
  : option (list (gmap string V)) :=
  match events with
  | [] => Some []
  | event :: events' =>
      if _validate_event event
      then cons (_enrich_event event (utcnow i)) <$> queued (S i) events' utcnow
      else None
  end.

(** redis-py packing the fields of one command: every value as text, or
    [None] when it refuses a value. *)
Definition pack (d : gmap string V) : option Redis.fields :=
  if bool_decide (map_Forall (fun _ v => is_Some (as_field v)) d)
  then Some (omap as_field d)
  else None.

End Values.

(** The server running the packed [XADD ... MAXLEN ~ 1000000] commands
    in order; the replies are the new ids. *)
Fixpoint execute (s : Redis.stream) (commands : list Redis.fields) : Redis.stream * list nat :=
  match commands with
  | [] => (s, [])
  | f :: commands' =>
      let '(s1, id) := Redis.xadd s f (Some EVENTS_MAXLEN) in
      let '(s2, ids) := execute s1 commands' in
      (s2, id :: ids)
  end.

(** Truthiness of a reply: an id is a non-empty string. *)
Definition truthy (id : nat) : bool := negb (String.eqb (Redis.id_text id) "").

(** [ingest_batch(events)]: the database after the call, and what the
    call gives.  An exception of the loop leaves the call before
    [pipeline.execute()]; [execute()] packs every queued command before
    it sends the first, so a value redis-py refuses leaves the database
    as it was too.  (A failure of the connection is not modelled.) *)
Definition ingest_batch {V : Type} `{Value V} (r : Redis.db) (events : list (gmap string V))
    (utcnow : nat -> string) : Redis.db * answer :=
  match queued 0 events utcnow with
  | None => (r, Raised TypeError)
  | Some commands =>
      match mapM pack commands with
      | None => (r, Raised DataError)
      | Some packed =>
          let '(s, results) := execute (Redis.events r) packed in
          ({| Redis.events := s; Redis.processed := Redis.processed r;
              Redis.dlq := Redis.dlq r |},
           Returned (length (filter (fun id => truthy id = true) results)))
      end
  end.

End Ingest.

(** ** api/routes/events.py: the events of the HTTP layer *)

Module Routes.

(** A value of an event as the routes see it: one redis-py can send, or
    a [bool], [None] or a [dict] (of such values). *)
Inductive pyobj : Type :=
  | Plain (v : pyval)
  | PBool (b : bool)
  | PNone
  | PDict (items : list (string * pyval)).

#[global] Instance pyobj_value : Ingest.Value pyobj :=
  {| Ingest.of_str s := Plain (PStr (Lit s));
     Ingest.as_field o := match o with Plain v => Some (py_str v) | _ => None end;
     Ingest.as_field_of_str s := eq_refl |}.

(** [float(v)], [None] when it raises [ValueError] or [TypeError]. *)
Definition float_of (o : pyobj) : option float :=
  match o with
  | Plain v => py_float v
  | PBool b => Some (if b then 1%float else 0%float)
  | PNone | PDict _ => None
  end.

(** [_validate_event] of the ingest routes: the required fields are
    present, [float(event["value"])] does not raise, and the timestamp is
    a [str]. *)
Definition _validate_event (event : gmap string pyobj) : bool :=
  if negb (forallb (fun field => bool_decide (is_Some (event !! field)))
                   ["timestamp"; "type"; "value"])
  then false
  else
    match event !! "value" with
    | None => false
    | Some v =>
        match float_of v with
        | None => false
        | Some _ =>
            match event !! "timestamp" with
            | Some (Plain (PStr _)) => true
            | _ => false
            end
        end
    end.

(** The request model [Event]: pydantic has made [timestamp] and [type]
    strings, [value] a float and [metadata] a dictionary (empty when the
    client sent none). *)
Record Event : Type := mk_Event {
  timestamp : string;
  type : string;
  value : float;
  metadata : list (string * pyval)
}.

(** [event.dict()]. *)
Definition dict (e : Event) : gmap string pyobj :=
  {[ "timestamp" := Plain (PStr (Lit (timestamp e)));
     "type" := Plain (PStr (Lit (type e)));
     "value" := Plain (PFloat (value e));
     "metadata" := PDict (metadata e) ]}.

End Routes.

(** *** Facts about [ingest_batch] *)

Module IngestFacts.
Import Ingest.

(** The entries a run of [XADD]s creates after id [n]. *)
Fixpoint fresh (n : nat) (commands : list Redis.fields) : list Redis.entry :=
  match commands with
  | [] => []
  | f :: commands' => Redis.mk_entry (S n) f :: fresh (S n) commands'
  end.

Lemma fresh_length n commands : length (fresh n commands) = length commands.
Proof. revert n. induction commands as [|f c IH]; intros n; simpl; [|rewrite IH]; reflexivity. Qed.

Lemma fresh_fields n commands : map Redis.entry_fields (fresh n commands) = commands.
Proof. revert n. induction commands as [|f c IH]; intros n; simpl; [|rewrite IH]; reflexivity. Qed.

Lemma fresh_elem n commands x : x ∈ fresh n commands -> Redis.entry_fields x ∈ commands.
Proof.
  intros Hx. rewrite <- (fresh_fields n commands). now apply list_elem_of_fmap_2.
Qed.

(** After the commands the stream holds its old entries and the new
    ones, less what the server evicted from the old end; it never evicts
    below the cap. *)
Lemma execute_entries (s : Redis.stream) (commands : list Redis.fields) :
  exists k,
    (k <= length (Redis.entries s) + length commands - N.to_nat EVENTS_MAXLEN)%nat
    /\ Redis.entries (execute s commands).1
       = drop k (Redis.entries s ++ fresh (Redis.last_id s) commands).
Proof.
  revert s. induction commands as [|f c IH]; intros s.
  - exists 0%nat. split; [lia|]. cbn. now rewrite app_nil_r.
  - cbn [execute].
    destruct (Redis.trim_drop (Redis.evicts s) EVENTS_MAXLEN
                (Redis.entries s ++ [Redis.mk_entry (S (Redis.last_id s)) f]))
      as (k1 & Hk1 & Htrim).
    unfold Redis.excess in Hk1. rewrite length_app in Hk1. cbn [length] in Hk1.
    unfold Redis.xadd. rewrite Htrim.
    set (s1 := {| Redis.entries := _; Redis.last_id := _; Redis.evicts := _ |}).
    destruct (IH s1) as (k2 & Hk2 & Hent).
    destruct (execute s1 c) as [s2 ids]. cbn [fst] in *.
    subst s1. cbn [Redis.entries Redis.last_id] in *.
    rewrite length_drop, length_app in Hk2. cbn [length] in Hk2.
    exists (k1 + k2)%nat. split; [cbn [length]; lia|].
    rewrite Hent. rewrite <- drop_drop.
    rewrite <- (drop_app_le _ (fresh (S (Redis.last_id s)) c) k1)
      by (rewrite length_app; cbn [length]; lia).
    rewrite <- app_assoc. reflexivity.
Qed.

Lemma execute_replies (s : Redis.stream) (commands : list Redis.fields) :
  length (execute s commands).2 = length commands.
Proof.
  revert s. induction commands as [|f c IH]; intros s; [reflexivity|].
  cbn [execute]. destruct (Redis.xadd s f (Some EVENTS_MAXLEN)) as [s1 id].
  specialize (IH s1). destruct (execute s1 c) as [s2 ids]. simpl in *. now rewrite IH.
Qed.

Lemma id_text_nonempty (id : nat) : truthy id = true.
Proof.
  unfold truthy, Redis.id_text.
  destruct (str_int (Z.of_nat id)) as [|c rest]; reflexivity.
Qed.

Lemma truthy_all (ids : list nat) : filter (fun id => truthy id = true) ids = ids.
Proof.
  induction ids as [|id ids IH]; [reflexivity|].
  rewrite filter_cons. rewrite decide_True by apply id_text_nonempty. now rewrite IH.
Qed.

Section Values.
Context {V : Type} `{Value V}.

(** The enrichment of the events of a batch, the first at position [i]. *)
Definition enriched (i : nat) (events : list (gmap string V)) (utcnow : nat -> string)
  : list (gmap string V) :=
  imap (fun j e => _enrich_event e (utcnow (i + j)%nat)) events.

(** The loop runs to its end exactly when every event has the required
    fields, and then it has queued the enrichment of every event. *)
Lemma queued_complete (i : nat) (events : list (gmap string V)) (utcnow : nat -> string) :
  Forall (fun e => _validate_event e = true) events ->
  queued i events utcnow = Some (enriched i events utcnow).
Proof.
  unfold enriched. revert i. induction events as [|e events IH]; intros i Hall; [reflexivity|].
  apply Forall_cons in Hall as [He Hall]. cbn [queued]. rewrite He.
  rewrite (IH (S i) Hall). cbn [fmap option_fmap option_map imap].
  rewrite Nat.add_0_r. do 2 f_equal. apply imap_ext. intros j x _. cbn.
  now rewrite Nat.add_succ_r.
Qed.

Lemma queued_incomplete (i : nat) (events : list (gmap string V)) (utcnow : nat -> string) :
  Exists (fun e => _validate_event e = false) events ->
  queued i events utcnow = None.
Proof.
  revert i. induction events as [|e events IH]; intros i Hex.
  - now apply Exists_nil in Hex.
  - cbn [queued]. destruct (_validate_event e) eqn:He; [|reflexivity].
    apply Exists_cons in Hex as [Hbad|Hex]; [congruence|].
    now rewrite (IH (S i) Hex).
Qed.

Lemma queued_Some (i : nat) (events : list (gmap string V)) (utcnow : nat -> string)
    (commands : list (gmap string V)) :
  queued i events utcnow = Some commands ->
  Forall (fun e => _validate_event e = true) events
  /\ commands = enriched i events utcnow.
Proof.
  intros Hq.
  assert (Hall : Forall (fun e => _validate_event e = true) events).
  { clear - Hq. revert i commands Hq.
    induction events as [|e events IH]; intros i commands Hq; [constructor|].
    cbn [queued] in Hq. destruct (_validate_event e) eqn:He; [|discriminate].
    destruct (queued (S i) events utcnow) as [rest|] eqn:Hrest; [|discriminate].
    constructor; [exact He|]. exact (IH (S i) rest Hrest). }
  split; [exact Hall|]. rewrite (queued_complete i events utcnow Hall) in Hq. congruence.
Qed.

Lemma enriched_length (i : nat) (events : list (gmap string V)) (utcnow : nat -> string) :
  length (enriched i events utcnow) = length events.
Proof. apply length_imap. Qed.

Lemma enriched_elem (i : nat) (events : list (gmap string V)) (utcnow : nat -> string)
    (c : gmap string V) :
  c ∈ enriched i events utcnow -> exists e j, e ∈ events /\ c = _enrich_event e (utcnow j).
Proof.
  unfold enriched. intros Hc. apply list_elem_of_lookup in Hc as [j Hj].
  rewrite list_lookup_imap in Hj.
  destruct (events !! j) as [e|] eqn:He; [|discriminate].
  injection Hj as <-. exists e, (i + j)%nat. split; [|reflexivity].
  eapply list_elem_of_lookup_2. exact He.
Qed.

(** What redis-py sends for a packed dictionary. *)
Lemma pack_lookup (d : gmap string V) (f : Redis.fields) (k : string) :
  pack d = Some f -> f !! k = d !! k ≫= as_field.
Proof.
  unfold pack. case_bool_decide; [|discriminate]. intros [= <-]. apply lookup_omap.
Qed.

Lemma pack_None (d : gmap string V) (k : string) (v : V) :
  d !! k = Some v -> as_field v = None -> pack d = None.
Proof.
  intros Hk Hv. unfold pack. rewrite bool_decide_eq_false_2; [reflexivity|].
  intros Hall. specialize (Hall k v Hk). cbn in Hall. rewrite Hv in Hall.
  now destruct Hall.
Qed.

Lemma pack_enriched_None (e : gmap string V) (now : string) (k : string) (v : V) :
  k <> "processed" -> k <> "ingested_at" ->
  e !! k = Some v -> as_field v = None -> pack (_enrich_event e now) = None.
Proof.
  intros Hp Hi Hk Hv. apply (pack_None _ k v); [|exact Hv].
  unfold _enrich_event. now rewrite !lookup_insert_ne by congruence.
Qed.

(** A dictionary of values redis-py accepts is packed, also once it is
    enriched. *)
Lemma pack_Some (d : gmap string V) :
  map_Forall (fun _ v => is_Some (as_field v)) d -> pack d = Some (omap as_field d).
Proof. intros Hd. unfold pack. now rewrite bool_decide_eq_true_2. Qed.

Lemma pack_enriched_Some (e : gmap string V) (now : string) :
  map_Forall (fun _ v => is_Some (as_field v)) e ->
  pack (_enrich_event e now) = Some (omap as_field (_enrich_event e now)).
Proof.
  intros He. apply pack_Some. unfold _enrich_event.
  apply map_Forall_insert_2; [rewrite as_field_of_str; eauto|].
  apply map_Forall_insert_2; [rewrite as_field_of_str; eauto|exact He].
Qed.

Lemma mapM_app {A B : Type} (f : A -> option B) (l1 l2 : list A) :
  mapM f (l1 ++ l2) = k1 ← mapM f l1; k2 ← mapM f l2; Some (k1 ++ k2).
Proof.
  induction l1 as [|x l1 IH]; cbn.
  - now destruct (mapM f l2).
  - destruct (f x) as [y|]; cbn; [|reflexivity]. rewrite IH.
    destruct (mapM f l1) as [k1|]; cbn; [|reflexivity].
    now destruct (mapM f l2).
Qed.

(** What a call that returns has done: every event was complete and
    every value sendable, and the database holds the packed enrichment of
    every event after what is left of its old entries. *)
Lemma ingest_batch_complete (r : Redis.db) (B : list (gmap string V)) (utcnow : nat -> string) :
  Forall (fun e => _validate_event e = true) B ->
  Forall (map_Forall (fun _ v => is_Some (as_field v))) B ->
  exists packed k,
    mapM pack (enriched 0 B utcnow) = Some packed
    /\ length packed = length B
    /\ ingest_batch r B utcnow
       = ({| Redis.events := (execute (Redis.events r) packed).1;
             Redis.processed := Redis.processed r; Redis.dlq := Redis.dlq r |},
          Returned (length B))
    /\ (k <= length (Redis.entries (Redis.events r)) + length B - N.to_nat EVENTS_MAXLEN)%nat
    /\ Redis.entries (execute (Redis.events r) packed).1
       = drop k (Redis.entries (Redis.events r)
                   ++ fresh (Redis.last_id (Redis.events r)) packed).
Proof.
  intros Hvalid Hsend.
  assert (Hpacked : is_Some (mapM pack (enriched 0 B utcnow))).
  { apply mapM_is_Some. apply Forall_forall. intros c Hc.
    apply enriched_elem in Hc as (e & j & He & ->).
    unfold compose. rewrite pack_enriched_Some; [eauto|].
    exact (proj1 (Forall_forall _ _) Hsend e He). }
  destruct Hpacked as [packed Hpacked].
  assert (Hlen : length packed = length B).
  { apply length_mapM in Hpacked. now rewrite <- Hpacked, enriched_length. }
  destruct (execute_entries (Redis.events r) packed) as (k & Hk & Hent).
  exists packed, k. split; [exact Hpacked|]. split; [exact Hlen|].
  split; [|split; [now rewrite <- Hlen|exact Hent]].
  unfold ingest_batch. rewrite (queued_complete 0 B utcnow Hvalid), Hpacked.
  pose proof (execute_replies (Redis.events r) packed) as Hrep.
  destruct (execute (Redis.events r) packed) as [s results].
  cbn [fst snd] in *. now rewrite truthy_all, Hrep, Hlen.
Qed.

Lemma ingest_batch_returned (r r' : Redis.db) (B : list (gmap string V))
    (utcnow : nat -> string) (n : nat) :
  ingest_batch r B utcnow = (r', Returned n) ->
  exists packed,
    Forall (fun e => _validate_event e = true) B
    /\ mapM pack (enriched 0 B utcnow) = Some packed
    /\ n = length packed
    /\ r' = {| Redis.events := (execute (Redis.events r) packed).1;
               Redis.processed := Redis.processed r; Redis.dlq := Redis.dlq r |}.
Proof.
  unfold ingest_batch.
  destruct (queued 0 B utcnow) as [commands|] eqn:Hq; [|discriminate].
  apply queued_Some in Hq as [Hvalid ->].
  destruct (mapM pack (enriched 0 B utcnow)) as [packed|] eqn:Hp; [|discriminate].
  pose proof (execute_replies (Redis.events r) packed) as Hrep.
  destruct (execute (Redis.events r) packed) as [s results] eqn:Hex. cbn [fst snd] in *.
  intros [= <- <-]. exists packed. rewrite truthy_all, Hex. repeat split; assumption.
Qed.

(** An exception leaves the database as it was. *)
Lemma ingest_batch_raised (r : Redis.db) (B : list (gmap string V)) (utcnow : nat -> string)
    (e : exception) :
  (ingest_batch r B utcnow).2 = Raised e -> (ingest_batch r B utcnow).1 = r.
Proof.
  unfold ingest_batch.
  destruct (queued 0 B utcnow) as [commands|]; [|reflexivity].
  destruct (mapM pack commands) as [packed|]; [|reflexivity].
  destruct (execute (Redis.events r) packed). discriminate.
Qed.

End Values.

(** A well-formed event (the one of scenario S1). *)
Definition sample_event : event_dict :=
  {[ "timestamp" := PStr (Lit "2024-01-30T10:45:00Z"); "type" := PStr (Lit "t");
     "value" := PFloat 42.5%float ]}.

(** The event of scenario S3: no timestamp. *)
Definition untimed_event : event_dict :=
  {[ "type" := PStr (Lit "t"); "value" := PInt 1 ]}.

(** An event with its three fields, of which the timestamp is a number
    and the value is not numeric text. *)
Definition malformed_event : event_dict :=
  {[ "timestamp" := PInt 1706611500; "type" := PStr (Lit "t");
     "value" := PStr (Lit "abc") ]}.

(** A clock that stands still. *)
Definition frozen_clock (i : nat) : string := "2024-01-30T10:45:01.000000".

(** [_validate_event] looks at the keys only: the malformed event, which
    the validator of the routes refuses, is appended. *)
Example malformed_event_is_ingested :
  Routes._validate_event (Routes.Plain <$> malformed_event) = false
  /\ _validate_event malformed_event = true
  /\ (ingest_batch Redis.empty_db [malformed_event] frozen_clock).2 = Returned 1
  /\ map Redis.entry_fields
       (Redis.entries (Redis.events (ingest_batch Redis.empty_db [malformed_event] frozen_clock).1))
     = [ {[ "timestamp" := Lit "1706611500"; "type" := Lit "t"; "value" := Lit "abc";
            "ingested_at" := Lit "2024-01-30T10:45:01.000000"; "processed" := Lit "false" ]} ].
Proof. vm_compute. repeat split; reflexivity. Qed.

(** C2.  [ingest_batch] does not skip an event that lacks a required
    field: the logging call made for it raises [TypeError], which leaves
    [ingest_batch] before the pipeline is executed, so that nothing of
    the batch is appended, the events before the incomplete one
    included, and no count is returned.  The validator looks at the
    presence of the three keys and at nothing else.  A batch of complete
    events whose values redis-py can send is appended in full, in order,
    after what the server keeps of the old entries, and its size is
    returned. *)
Theorem incomplete_event_fails_the_batch {V : Type} `{Value V} (r : Redis.db)
    (B : list (gmap string V)) (utcnow : nat -> string) :
  (forall e : gmap string V,
     _validate_event e = true
     <-> is_Some (e !! "timestamp") /\ is_Some (e !! "type") /\ is_Some (e !! "value"))
  /\ (Exists (fun e => _validate_event e = false) B ->
      ingest_batch r B utcnow = (r, Raised TypeError))
  /\ (Forall (fun e => _validate_event e = true) B ->
      Forall (map_Forall (fun _ v => is_Some (as_field v))) B ->
      exists packed k,
        mapM pack (enriched 0 B utcnow) = Some packed
        /\ (ingest_batch r B utcnow).2 = Returned (length B)
        /\ Redis.processed (ingest_batch r B utcnow).1 = Redis.processed r
        /\ Redis.dlq (ingest_batch r B utcnow).1 = Redis.dlq r
        /\ (k <= length (Redis.entries (Redis.events r)) + length B
                 - N.to_nat EVENTS_MAXLEN)%nat
        /\ Redis.entries (Redis.events (ingest_batch r B utcnow).1)
           = drop k (Redis.entries (Redis.events r)
                       ++ fresh (Redis.last_id (Redis.events r)) packed)).
Proof.
  split; [|split].
  - intros e. unfold _validate_event. cbn [forallb].
    rewrite !andb_true_iff, !bool_decide_eq_true. tauto.
  - intros Hbad. unfold ingest_batch. now rewrite (queued_incomplete 0 B utcnow Hbad).
  - intros Hvalid Hsend.
    destruct (ingest_batch_complete r B utcnow Hvalid Hsend)
      as (packed & k & Hpacked & _ & -> & Hk & Hent).
    exists packed, k. cbn [fst snd Redis.events Redis.processed Redis.dlq].
    repeat split; assumption.
Qed.

(** A complete event between two others, of which the second lacks its
    timestamp: nothing is appended, the first event included. *)
Lemma incomplete_event_fails_the_batch_witness :
  ingest_batch Redis.empty_db [sample_event; untimed_event; sample_event] frozen_clock
  = (Redis.empty_db, Raised TypeError)
  /\ (ingest_batch Redis.empty_db [sample_event; sample_event] frozen_clock).2 = Returned 2.
Proof.
  destruct (incomplete_event_fails_the_batch Redis.empty_db
              [sample_event; untimed_event; sample_event] frozen_clock) as (_ & Hraise & _).
  destruct (incomplete_event_fails_the_batch Redis.empty_db
              [sample_event; sample_event] frozen_clock) as (_ & _ & Hfull).
  split.
  - apply Hraise. right. left. reflexivity.
  - destruct Hfull as (packed & k & _ & Hcount & _); [| |exact Hcount].
    + repeat constructor.
    + repeat constructor; apply map_Forall_lookup; intros i v _; cbn; eauto.
Defined.

End IngestFacts.

(** ** core/config.py *)

Module Config.

(** The settings the pipeline reads. *)
Record Settings : Type := mk {
  MAX_BATCH_SIZE : Z;
  DLQ_ENABLED : bool;
  DLQ_MAX_RETRIES : Z;
  DLQ_BACKOFF_BASE : float
}.

(** [Settings()] with no override from the environment. *)
Definition defaults : Settings :=
  {| MAX_BATCH_SIZE := 1000; DLQ_ENABLED := true;
     DLQ_MAX_RETRIES := 3; DLQ_BACKOFF_BASE := 2%float |}.

End Config.

(** ** Python's float power *)

(** [base ** k] for a float base and an [int] exponent.  CPython turns
    the exponent into a float and calls [pow] of the C library, whose
    last bit is the library's own: it is the exact power when that is a
    float, but not always the nearest float otherwise ([10.0 ** 23]).
    The worker is defined against this interface.  Where the power of a
    finite base overflows, and for a negative power of zero, C's [pow]
    returns an infinity, and Python raises [OverflowError] or
    [ZeroDivisionError] instead of returning it. *)
Class Power := {
  float_pow : float -> Z -> float
}.

(** An implementation: the float nearest to the exact power (ties to
    even), an infinity when that is out of range. *)
Definition nearest_pow (base : float) (k : Z) : float :=
  if (k =? 0)%Z then 1%float
  else
    match Prim2SF base with
    | S754_nan => nan
    | S754_zero s =>
        SF2Prim (if (0 <? k)%Z then S754_zero (s && Z.odd k)
                 else S754_infinity (s && Z.odd k))
    | S754_infinity s =>
        SF2Prim (if (0 <? k)%Z then S754_infinity (s && Z.odd k)
                 else S754_zero (s && Z.odd k))
    | S754_finite s m e =>
        let sign := s && Z.odd k in
        if (0 <? k)%Z
        then SF2Prim (binary_round prec emax sign (Pos.pow m (Z.to_pos k)) (e * k))
        else SF2Prim (SFdiv prec emax (S754_finite sign 1 0)
                        (S754_finite false (Pos.pow m (Z.to_pos (- k))) (e * - k)))
    end.

#[global] Instance nearest_power : Power := {| float_pow := nearest_pow |}.

(** ** services/worker.py *)

Module Worker.
Import Config.

(** An event as [_read_events] builds it from an [XREAD] reply. *)
Record event : Type := mk_event {
  id : nat;
  data : event_dict;
  stream : string
}.

(** How a call that leaves the process ends: it returns, or it raises an
    exception with the given text. *)
Inductive outcome : Type :=
  | Done
  | Raises (msg : string).

(** What the world answers while one event is handled: the clock readings
    (one reading of [utcnow] serves every timestamp written meanwhile) and
    the outcome of each Redis command that may be sent. *)
Record world : Type := mk_world {
  perf_start : float;        (* time.perf_counter() in record_processing_start *)
  perf_enrich : float;       (* time.perf_counter() for "processing_time" *)
  perf_end : float;          (* time.perf_counter() in record_processing_end *)
  utcnow : string;           (* datetime.utcnow().isoformat() *)
  store_xadd : outcome;      (* XADD processed:stream *)
  retry_xadd : outcome;      (* XADD events:stream in _retry_event_later *)
  dlq_xadd : outcome;        (* XADD dlq:stream *)
  admin_xrange : outcome;    (* XRANGE dlq:stream in retry_dlq_event *)
  admin_xadd : outcome;      (* XADD events:stream in retry_dlq_event *)
  admin_xdel : outcome       (* XDEL dlq:stream in retry_dlq_event *)
}.

(** A coroutine [_retry_event_later(event, delay)] handed to
    [asyncio.create_task] and not yet resumed after its sleep. *)
Record retry_task : Type := mk_task {
  task_event : event;
  task_delay : float
}.

(** An [EventWorker] with the objects it holds: the Redis client, the
    metrics collector, its detector, its counters and the retry tasks it
    has created. *)
Record EventWorker : Type := mk {
  redis : Redis.db;
  metrics : Metrics.MetricsCollector;
  anomaly_detector : Detector.AnomalyDetector;
  processed_count : Z;
  failed_count : Z;
  dlq_count : Z;
  tasks : list retry_task
}.

(** [EventWorker(redis_client, metrics_collector)]. *)
Definition init (r : Redis.db) (m : Metrics.MetricsCollector) : EventWorker :=
  {| redis := r; metrics := m; anomaly_detector := Detector.default;
     processed_count := 0; failed_count := 0; dlq_count := 0; tasks := [] |}.

Definition set_redis (w : EventWorker) (r : Redis.db) : EventWorker :=
  mk r (metrics w) (anomaly_detector w) (processed_count w) (failed_count w)
     (dlq_count w) (tasks w).

Definition set_metrics (w : EventWorker) (m : Metrics.MetricsCollector) : EventWorker :=
  mk (redis w) m (anomaly_detector w) (processed_count w) (failed_count w)
     (dlq_count w) (tasks w).

Definition set_anomaly_detector (w : EventWorker) (d : Detector.AnomalyDetector) : EventWorker :=
  mk (redis w) (metrics w) d (processed_count w) (failed_count w) (dlq_count w) (tasks w).

Definition set_processed_count (w : EventWorker) (n : Z) : EventWorker :=
  mk (redis w) (metrics w) (anomaly_detector w) n (failed_count w) (dlq_count w) (tasks w).

Definition set_failed_count (w : EventWorker) (n : Z) : EventWorker :=
  mk (redis w) (metrics w) (anomaly_detector w) (processed_count w) n (dlq_count w) (tasks w).

Definition set_dlq_count (w : EventWorker) (n : Z) : EventWorker :=
  mk (redis w) (metrics w) (anomaly_detector w) (processed_count w) (failed_count w) n (tasks w).

Definition set_tasks (w : EventWorker) (t : list retry_task) : EventWorker :=
  mk (redis w) (metrics w) (anomaly_detector w) (processed_count w) (failed_count w)
     (dlq_count w) t.

Definition set_events (r : Redis.db) (s : Redis.stream) : Redis.db :=
  Redis.mk_db s (Redis.processed r) (Redis.dlq r).

Definition set_processed (r : Redis.db) (s : Redis.stream) : Redis.db :=
  Redis.mk_db (Redis.events r) s (Redis.dlq r).

Definition set_dlq (r : Redis.db) (s : Redis.stream) : Redis.db :=
  Redis.mk_db (Redis.events r) (Redis.processed r) s.

(** [maxlen] of the three [XADD]s that pass one. *)
Definition EVENTS_MAXLEN : N := 1000000.
Definition PROCESSED_MAXLEN : N := 1000000.
Definition DLQ_MAXLEN : N := 100000.

(** The body of [_read_events] on the entries [XREAD] returned. *)
Definition _read_events (reply : list Redis.entry) : list event :=
  map (fun e => {| id := Redis.entry_id e;
                   data := Redis.decode (Redis.entry_fields e);
                   stream := "events:stream" |}) reply.

(** [EventWorker._validate_event]. *)
Definition _validate_event (event_data : event_dict) : bool :=
  forallb (fun field => bool_decide (is_Some (event_data !! field)))
          ["timestamp"; "type"; "value"].

(** The text of the exception [float(v)] raises (for plain text). *)
Definition float_error (v : pyval) : string :=
  match v with
  | PStr (Lit s) => "could not convert string to float: '" ++ s ++ "'"
  | _ => "int too large to convert to float"
  end.

(** The text of the exception [int(v)] raises (for plain text). *)
Definition int_error (v : pyval) : string :=
  match v with
  | PStr (Lit s) => "invalid literal for int() with base 10: '" ++ s ++ "'"
  | _ => "invalid literal for int() with base 10"
  end.

(** The keys [retry_dlq_event] strips: [k.startswith((...))]. *)
Definition retry_metadata_prefixes : list string :=
  ["retry_count"; "last_error"; "failed_at"; "dlq_"].

Definition is_retry_metadata (k : string) : bool :=
  existsb (fun p => String.prefix p k) retry_metadata_prefixes.

(** [_store_processed_event]: the append to the processed stream; an
    exception of the [XADD] is caught and logged here. *)
Definition _store_processed_event (w : EventWorker) (event_id : nat)
    (enriched_event : event_dict) (env : world) : EventWorker :=
  match store_xadd env with
  | Done =>
      set_redis w (set_processed (redis w)
        (Redis.xadd (Redis.processed (redis w)) (Redis.encode enriched_event)
                    (Some PROCESSED_MAXLEN)).1)
  | Raises _ => w
  end.

(** [_send_to_dlq]: the append to the dead-letter stream; any exception is
    caught and logged here. *)
Definition _send_to_dlq (w : EventWorker) (ev : event) (error : string) (env : world)
  : EventWorker :=
  let dlq_event :=
    <["final_retry_count" := default (PInt 0) (data ev !! "retry_count")]>
      (<["dlq_timestamp" := PStr (Lit (utcnow env))]>
        (<["dlq_reason" := PStr (Lit error)]>
          (<["original_event_id" := PStr (Lit (Redis.id_text (id ev)))]> (data ev)))) in
  match dlq_xadd env with
  | Done =>
      set_dlq_count
        (set_redis w (set_dlq (redis w)
           (Redis.xadd (Redis.dlq (redis w)) (Redis.encode dlq_event) (Some DLQ_MAXLEN)).1))
        (dlq_count w + 1)
  | Raises _ => w
  end.

(** [_retry_event_later], resumed after its sleep: the re-append to the
    events stream, or the dead-letter stream when that append raises. *)
Definition _retry_event_later (w : EventWorker) (ev : event) (delay : float) (env : world)
  : EventWorker :=
  match retry_xadd env with
  | Done =>
      set_redis w (set_events (redis w)
        (Redis.xadd (Redis.events (redis w)) (Redis.encode (data ev))
                    (Some EVENTS_MAXLEN)).1)
  | Raises e => _send_to_dlq w ev e env
  end.

(** [_handle_event_failure]: the worker after the call, and whether the
    call itself raised ([int()] of a malformed [retry_count]).  The delay
    is the float the [Power] interface gives; the [OverflowError] that
    Python raises in place of an infinite power of a finite base is not
    followed. *)
Definition _handle_event_failure `{Power} (cfg : Settings) (w : EventWorker) (ev : event)
    (error : string) (env : world) : EventWorker * outcome :=
  let w := set_failed_count w (failed_count w + 1) in
  let previous := default (PInt 0) (data ev !! "retry_count") in
  match py_int previous with
  | None => (w, Raises (int_error previous))
  | Some n =>
      let retry_count := n + 1 in
      let ev :=
        mk_event (id ev)
          (<["failed_at" := PStr (Lit (utcnow env))]>
            (<["last_error" := PStr (Lit error)]>
              (<["retry_count" := PInt retry_count]> (data ev))))
          (stream ev) in
      if (retry_count <=? DLQ_MAX_RETRIES cfg)%Z then
        let backoff_delay := float_pow (DLQ_BACKOFF_BASE cfg) retry_count in
        (set_tasks w (tasks w ++ [mk_task ev backoff_delay]), Done)
      else (_send_to_dlq w ev error env, Done)
  end.

(** [retry_dlq_event]: the worker after the call and the value returned. *)
Definition retry_dlq_event (w : EventWorker) (event_id : nat) (env : world)
  : EventWorker * bool :=
  match admin_xrange env with
  | Raises _ => (w, false)
  | Done =>
      match Redis.xrange_at (Redis.dlq (redis w)) event_id with
      | [] => (w, false)
      | found :: _ =>
          let event_data := Redis.decode (Redis.entry_fields found) in
          let cleaned_data := filter (fun kv => is_retry_metadata kv.1 = false) event_data in
          (* redis-py refuses an XADD without fields *)
          if bool_decide (cleaned_data = ∅) then (w, false)
          else
            match admin_xadd env with
            | Raises _ => (w, false)
            | Done =>
                let w := set_redis w (set_events (redis w)
                           (Redis.xadd (Redis.events (redis w)) (Redis.encode cleaned_data)
                                       None).1) in
                match admin_xdel env with
                | Raises _ => (w, false)
                | Done =>
                    (set_redis w (set_dlq (redis w) (Redis.xdel (Redis.dlq (redis w)) event_id)),
                     true)
                end
            end
      end
  end.

Section WithNumpy.
Context `{Numpy} `{Power}.

(** [_process_single_event]: the worker after the call, and whether the
    call raised [StreamProcessingException]. *)
Definition _process_single_event (w : EventWorker) (worker_id : string) (ev : event)
    (env : world) : EventWorker * outcome :=
  let start_time := Metrics.record_processing_start (perf_start env) in
  (* the [except Exception] branch *)
  let failed (e : string) :=
    (set_metrics w (Metrics.record_processing_end (metrics w) start_time false (perf_end env)),
     Raises ("Event processing failed: " ++ e)) in
  let event_data := data ev in
  let event_id := id ev in
  if negb (_validate_event event_data) then failed "Invalid event format"
  else
    let raw := default (PInt 0) (event_data !! "value") in
    match py_float raw with
    | None => failed (float_error raw)
    | Some value =>
        let '(detector, (is_anomaly, z_score)) := Detector.detect (anomaly_detector w) value in
        let w := set_anomaly_detector w detector in
        let enriched_event :=
          <["processing_time" := PStr (Repr (perf_enrich env))]>
            (<["z_score" := PStr (Repr z_score)]>
              (<["anomaly_detected" := PStr (Lit (str_bool is_anomaly))]>
                (<["worker_id" := PStr (Lit worker_id)]>
                  (<["processed_at" := PStr (Lit (utcnow env))]> event_data)))) in
        let w := _store_processed_event w event_id enriched_event env in
        let w := set_metrics w (Metrics.record_processing_end (metrics w) start_time
                                  is_anomaly (perf_end env)) in
        let w := set_processed_count w (processed_count w + 1) in
        (w, Done)
    end.

(** One turn of the loop of [_process_events_batch]: the event is
    processed, and handed to [_handle_event_failure] when that raised. *)
Definition process_event (cfg : Settings) (w : EventWorker) (worker_id : string)
    (ev : event) (env : world) : EventWorker * outcome :=
  match _process_single_event w worker_id ev env with
  | (w, Done) => (w, Done)
  | (w, Raises e) => _handle_event_failure cfg w ev e env
  end.

(** [_process_events_batch]: the events in order, each with the answers
    of the world while it is handled.  An exception of the failure
    handler leaves the loop. *)
Fixpoint _process_events_batch (cfg : Settings) (w : EventWorker) (worker_id : string)
    (batch : list (event * world)) : EventWorker * outcome :=
  match batch with
  | [] => (w, Done)
  | (ev, env) :: batch' =>
      match process_event cfg w worker_id ev env with
      | (w, Done) => _process_events_batch cfg w worker_id batch'
      | (w, Raises e) => (w, Raises e)
      end
  end.

End WithNumpy.

(** *** Text and dictionaries *)

Lemma int_of_text_str_int (z : Z) : int_of_text (str_int z) = Some z.
Proof.
  unfold int_of_text, str_int.
  rewrite NilZero.isi.
  - simpl. now rewrite DecimalZ.of_to.
  - destruct z; simpl; try discriminate.
    intros [= Hp]. now apply DecimalPos.Unsigned.to_uint_nonnil in Hp.
  - destruct z; simpl; try discriminate.
    intros [= Hp]. now apply DecimalPos.Unsigned.to_uint_nonnil in Hp.
Qed.

(** What a reader gets back for a field whose value was an [int]. *)
Lemma py_int_roundtrip (z : Z) : py_int (PStr (py_str (PInt z))) = Some z.
Proof. simpl. apply int_of_text_str_int. Qed.

Lemma encode_insert (k : string) (v : pyval) (d : event_dict) :
  Redis.encode (<[k := v]> d) = <[k := py_str v]> (Redis.encode d).
Proof. unfold Redis.encode. apply fmap_insert. Qed.

Lemma encode_decode (f : Redis.fields) : Redis.encode (Redis.decode f) = f.
Proof.
  unfold Redis.encode, Redis.decode. rewrite <- map_fmap_compose.
  rewrite <- (map_fmap_id f) at 2. apply map_fmap_ext. reflexivity.
Qed.

Lemma decode_lookup (f : Redis.fields) (k : string) :
  Redis.decode f !! k = PStr <$> f !! k.
Proof. unfold Redis.decode. apply lookup_fmap. Qed.

(** The fields [_handle_event_failure] writes leave the required fields
    as they were. *)
Definition with_failure (f : Redis.fields) (retry_count : Z) (error now : string)
  : Redis.fields :=
  <["failed_at" := Lit now]>
    (<["last_error" := Lit error]> (<["retry_count" := Lit (str_int retry_count)]> f)).

Lemma with_failure_encode (f : Redis.fields) (retry_count : Z) (error now : string) :
  Redis.encode
    (<["failed_at" := PStr (Lit now)]>
      (<["last_error" := PStr (Lit error)]>
        (<["retry_count" := PInt retry_count]> (Redis.decode f))))
  = with_failure f retry_count error now.
Proof. rewrite !encode_insert, encode_decode. reflexivity. Qed.

Lemma with_failure_required (f : Redis.fields) rc error now (k : string) :
  k ∈ ["timestamp"; "type"; "value"] ->
  with_failure f rc error now !! k = f !! k.
Proof.
  intros Hk. unfold with_failure.
  rewrite !lookup_insert_ne; [reflexivity| | |];
    intros <-; repeat (apply elem_of_cons in Hk as [Hk|Hk]; [discriminate Hk|]);
    now apply elem_of_nil in Hk.
Qed.

Lemma with_failure_retry_count (f : Redis.fields) rc error now :
  with_failure f rc error now !! "retry_count" = Some (Lit (str_int rc)).
Proof.
  unfold with_failure.
  rewrite lookup_insert_ne by discriminate.
  rewrite lookup_insert_ne by discriminate.
  apply lookup_insert_eq.
Qed.

(** *** One processing attempt *)

(** What steps 2 and 3 of an attempt deliver: the value parsed from a
    valid event, or nothing when validation or [float()] raises. *)
Definition parsed_value (event_data : event_dict) : option float :=
  if _validate_event event_data then py_float (default (PInt 0) (event_data !! "value"))
  else None.

Section Attempt.
Context `{Numpy} `{Power}.

Lemma process_single_raises (w : EventWorker) (worker_id : string) (ev : event) (env : world) :
  parsed_value (data ev) = None ->
  exists e,
    _process_single_event w worker_id ev env
    = (set_metrics w (Metrics.record_processing_end (metrics w) (perf_start env) false
                        (perf_end env)),
       Raises ("Event processing failed: " ++ e)).
Proof.
  unfold parsed_value, _process_single_event, Metrics.record_processing_start.
  destruct (_validate_event (data ev)); cbn [negb].
  - intros ->. eexists. reflexivity.
  - intros _. eexists. reflexivity.
Qed.

Lemma process_single_done (w : EventWorker) (worker_id : string) (ev : event) (env : world)
    (value : float) :
  parsed_value (data ev) = Some value ->
  let w' := (_process_single_event w worker_id ev env).1 in
  let verdict := (Detector.detect (anomaly_detector w) value).2 in
  (_process_single_event w worker_id ev env).2 = Done
  /\ anomaly_detector w' = (Detector.detect (anomaly_detector w) value).1
  /\ metrics w' = Metrics.record_processing_end (metrics w) (perf_start env) verdict.1
                    (perf_end env)
  /\ processed_count w' = processed_count w + 1
  /\ failed_count w' = failed_count w
  /\ dlq_count w' = dlq_count w
  /\ tasks w' = tasks w
  /\ Redis.events (redis w') = Redis.events (redis w)
  /\ Redis.dlq (redis w') = Redis.dlq (redis w)
  /\ (store_xadd env <> Done -> Redis.processed (redis w') = Redis.processed (redis w))
  /\ (store_xadd env = Done ->
      Redis.last_id (Redis.processed (redis w'))
      = S (Redis.last_id (Redis.processed (redis w)))).
Proof.
  unfold parsed_value, _process_single_event, Metrics.record_processing_start.
  destruct (_validate_event (data ev)); cbn [negb]; [|discriminate].
  intros ->.
  destruct (Detector.detect (anomaly_detector w) value) as [det [is_anomaly z]].
  unfold _store_processed_event.
  destruct (store_xadd env) as [|msg]; cbn; repeat split; congruence.
Qed.

(** The failure handler leaves the metrics collector alone. *)
Lemma handle_failure_metrics (cfg : Settings) (w : EventWorker) (ev : event)
    (error : string) (env : world) :
  metrics (_handle_event_failure cfg w ev error env).1 = metrics w
  /\ processed_count (_handle_event_failure cfg w ev error env).1 = processed_count w
  /\ failed_count (_handle_event_failure cfg w ev error env).1 = failed_count w + 1.
Proof.
  unfold _handle_event_failure.
  destruct (py_int _) as [n|]; [|now cbn].
  destruct (_ <=? _)%Z; [now cbn|].
  unfold _send_to_dlq. destruct (dlq_xadd env); now cbn.
Qed.

End Attempt.

(** *** Metrics of an attempt *)

Section Accounting.
Context `{Numpy} `{Power}.

(** Whether the attempt succeeds with an anomaly. *)
Definition anomaly_reported (w : EventWorker) (ev : event) : bool :=
  match parsed_value (data ev) with
  | Some value => (Detector.detect (anomaly_detector w) value).2.1
  | None => false
  end.

Lemma process_single_metrics (w : EventWorker) (worker_id : string) (ev : event) (env : world) :
  metrics (_process_single_event w worker_id ev env).1
  = Metrics.record_processing_end (metrics w) (perf_start env) (anomaly_reported w ev)
      (perf_end env).
Proof.
  unfold anomaly_reported.
  destruct (parsed_value (data ev)) as [value|] eqn:Hv.
  - now destruct (process_single_done w worker_id ev env value Hv) as (_ & _ & -> & _).
  - destruct (process_single_raises w worker_id ev env Hv) as [e ->]. reflexivity.
Qed.

Lemma process_event_metrics (cfg : Settings) (w : EventWorker) (worker_id : string)
    (ev : event) (env : world) :
  metrics (process_event cfg w worker_id ev env).1
  = metrics (_process_single_event w worker_id ev env).1.
Proof.
  unfold process_event.
  destruct (_process_single_event w worker_id ev env) as [w1 [|e]]; [reflexivity|].
  apply handle_failure_metrics.
Qed.

Lemma process_event_counts (cfg : Settings) (w : EventWorker) (worker_id : string)
    (ev : event) (env : world) :
  let w' := (process_event cfg w worker_id ev env).1 in
  (processed_count w' - processed_count w) + (failed_count w' - failed_count w) = 1
  /\ 0 <= processed_count w' - processed_count w
  /\ 0 <= failed_count w' - failed_count w.
Proof.
  unfold process_event.
  destruct (parsed_value (data ev)) as [value|] eqn:Hv.
  - destruct (process_single_done w worker_id ev env value Hv)
      as (Hdone & _ & _ & Hp & Hf & _).
    destruct (_process_single_event w worker_id ev env) as [w1 o].
    cbn [fst snd] in *. subst o. cbn [fst]. lia.
  - destruct (process_single_raises w worker_id ev env Hv) as [e ->].
    destruct (handle_failure_metrics cfg
                (set_metrics w (Metrics.record_processing_end (metrics w) (perf_start env)
                                  false (perf_end env)))
                ev ("Event processing failed: " ++ e) env) as (_ & Hp & Hf).
    cbn [fst]. rewrite Hp, Hf. cbn. lia.
Qed.

Lemma batch_counts (cfg : Settings) (worker_id : string) (batch : list (event * world))
    (w : EventWorker) :
  let w' := (_process_events_batch cfg w worker_id batch).1 in
  (_process_events_batch cfg w worker_id batch).2 = Done ->
  Metrics.events_processed (metrics w') - Metrics.events_processed (metrics w)
  = Z.of_nat (length batch)
  /\ (processed_count w' - processed_count w) + (failed_count w' - failed_count w)
     = Z.of_nat (length batch).
Proof.
  revert w. induction batch as [|[ev env] batch IH]; intros w; cbn [_process_events_batch].
  - intros _. cbn. lia.
  - pose proof (process_event_metrics cfg w worker_id ev env) as Hm.
    pose proof (process_single_metrics w worker_id ev env) as Hs.
    pose proof (process_event_counts cfg w worker_id ev env) as Hc.
    destruct (process_event cfg w worker_id ev env) as [w1 [|e]]; cbn [fst snd] in *.
    + intros Hdone. destruct (IH w1 Hdone) as [IHm IHc].
      rewrite Hm, Hs in IHm. cbn [Metrics.events_processed Metrics.record_processing_end] in IHm.
      cbn [length]. lia.
    + discriminate.
Qed.

(** C10.  Every attempt, successful or failed, calls
    [record_processing_end] exactly once: the collector after the attempt
    is the collector before it with that one call applied, the failure
    handler adds nothing to it.  The call adds one to [events_processed]
    and one latency sample whatever the outcome, so [events_processed]
    (and [events_per_second] computed from it) grows by one per attempt,
    each of which is counted once as processed or as failed, while
    [anomalies_detected] grows only on an attempt that succeeds with an
    anomaly. *)
Theorem every_attempt_is_recorded (cfg : Settings) (w : EventWorker) (worker_id : string)
    (ev : event) (env : world) :
  let w' := (process_event cfg w worker_id ev env).1 in
  let m := metrics w in
  metrics w'
  = Metrics.record_processing_end m (perf_start env) (anomaly_reported w ev) (perf_end env)
  /\ Metrics.events_processed (metrics w') = Metrics.events_processed m + 1
  /\ Metrics.processing_times (metrics w')
     = Metrics.processing_times m ++ [(perf_end env - perf_start env)%float]
  /\ Metrics.anomalies_detected (metrics w')
     = Metrics.anomalies_detected m + (if anomaly_reported w ev then 1 else 0)
  /\ (processed_count w' - processed_count w) + (failed_count w' - failed_count w) = 1
  /\ (forall now,
        Metrics.events_per_second (metrics w') now
        = (float_of_Z (Metrics.events_processed m + 1)
           / Metrics.max_one (now - Metrics.start_time m))%float)
  /\ (forall batch,
        let wn := (_process_events_batch cfg w worker_id batch).1 in
        (_process_events_batch cfg w worker_id batch).2 = Done ->
        Metrics.events_processed (metrics wn) - Metrics.events_processed m
        = (processed_count wn - processed_count w) + (failed_count wn - failed_count w)).
Proof.
  intros w' m.
  assert (Hm : metrics w'
               = Metrics.record_processing_end m (perf_start env) (anomaly_reported w ev)
                   (perf_end env)).
  { subst w' m. rewrite process_event_metrics. apply process_single_metrics. }
  repeat split.
  - exact Hm.
  - rewrite Hm. reflexivity.
  - rewrite Hm. reflexivity.
  - rewrite Hm. cbn. destruct (anomaly_reported w ev); lia.
  - apply process_event_counts.
  - intros now. unfold Metrics.events_per_second. rewrite Hm. reflexivity.
  - intros batch wn Hdone. subst wn m.
    destruct (batch_counts cfg worker_id batch w Hdone) as [-> ->]. reflexivity.
Qed.

End Accounting.

(** *** Concrete runs *)

(** A world in which every Redis command succeeds. *)
Definition calm : world :=
  {| perf_start := 100%float; perf_enrich := 100.25%float; perf_end := 100.5%float;
     utcnow := "2024-01-30T10:45:02.000000";
     store_xadd := Done; retry_xadd := Done; dlq_xadd := Done;
     admin_xrange := Done; admin_xadd := Done; admin_xdel := Done |}.

(** The same world, except that the append to the processed stream raises. *)
Definition store_down : world :=
  {| perf_start := 100%float; perf_enrich := 100.25%float; perf_end := 100.5%float;
     utcnow := "2024-01-30T10:45:02.000000";
     store_xadd := Raises "Connection refused"; retry_xadd := Done; dlq_xadd := Done;
     admin_xrange := Done; admin_xadd := Done; admin_xdel := Done |}.

(** A worker on empty streams. *)
Definition fresh_worker : EventWorker := init Redis.empty_db (Metrics.init 0%float).

(** The fields of an ingested entry with the given value text. *)
Definition ingested_fields (value : string) : Redis.fields :=
  {[ "timestamp" := Lit "2024-01-30T10:45:00Z"; "type" := Lit "t"; "value" := Lit value;
     "ingested_at" := Lit "2024-01-30T10:45:01.000000"; "processed" := Lit "false" ]}.

(** An event that processes, and one on which [float()] raises. *)
Definition good_event : event := mk_event 1 (Redis.decode (ingested_fields "42.5")) "events:stream".
Definition bad_event : event := mk_event 1 (Redis.decode (ingested_fields "abc")) "events:stream".

(** A failed attempt and a successful one are both counted by the
    collector: two events processed, one of them failed. *)
Lemma every_attempt_is_recorded_witness :
  let wn := (_process_events_batch defaults fresh_worker "worker-0"
               [(bad_event, calm); (good_event, calm)]).1 in
  Metrics.events_processed (metrics wn) = 2
  /\ processed_count wn = 1
  /\ failed_count wn = 1.
Proof.
  intros wn.
  destruct (every_attempt_is_recorded defaults fresh_worker "worker-0" bad_event calm)
    as (_ & _ & _ & _ & _ & _ & Hbatch).
  specialize (Hbatch [(bad_event, calm); (good_event, calm)]).
  cbv zeta in Hbatch. fold wn in Hbatch.
  assert (Hp : processed_count wn = 1) by (vm_compute; reflexivity).
  assert (Hf : failed_count wn = 1) by (vm_compute; reflexivity).
  split; [|split; assumption].
  assert (Hdone : (_process_events_batch defaults fresh_worker "worker-0"
                     [(bad_event, calm); (good_event, calm)]).2 = Done)
    by (vm_compute; reflexivity).
  specialize (Hbatch Hdone). rewrite Hp, Hf in Hbatch.
  change (Metrics.events_processed (metrics fresh_worker)) with 0 in Hbatch.
  change (processed_count fresh_worker) with 0 in Hbatch.
  change (failed_count fresh_worker) with 0 in Hbatch.
  lia.
Defined.

(** *** What triggers failure handling *)

(** C4 (as stated) fails.  When the append to the processed stream
    raises, the exception is caught inside [_store_processed_event]: the
    failure handler is not entered (no failure is counted, no retry is
    scheduled, nothing is dead-lettered), the event is counted as
    processed, and it is in no stream. *)
Lemma store_failure_is_swallowed :
  let w' := (process_event defaults fresh_worker "worker-0" good_event store_down).1 in
  failed_count w' <> failed_count fresh_worker + 1
  /\ processed_count w' = processed_count fresh_worker + 1
  /\ tasks w' = []
  /\ Redis.entries (Redis.dlq (redis w')) = []
  /\ Redis.entries (Redis.processed (redis w')) = [].
Proof. vm_compute. repeat split; try reflexivity. discriminate. Qed.

Section Trigger.
Context `{Numpy} `{Power}.

(** C4 (as amended).  An exception in validation or in [float()] (the
    steps before the append that can raise) hands the event to
    [_handle_event_failure]: the failure is counted and the event is not
    counted as processed.  Once the value is parsed the attempt succeeds
    whatever the append to the processed stream does: an exception of
    that append is caught and logged, the failure handler is not entered,
    the event is counted as processed and, the append having failed, the
    processed stream is unchanged. *)
Theorem failure_handling_trigger (cfg : Settings) (w : EventWorker) (worker_id : string)
    (ev : event) (env : world) :
  let w' := (process_event cfg w worker_id ev env).1 in
  (parsed_value (data ev) = None ->
     (exists e,
        process_event cfg w worker_id ev env
        = _handle_event_failure cfg
            (set_metrics w (Metrics.record_processing_end (metrics w) (perf_start env) false
                              (perf_end env)))
            ev ("Event processing failed: " ++ e) env)
     /\ failed_count w' = failed_count w + 1
     /\ processed_count w' = processed_count w)
  /\ (forall value, parsed_value (data ev) = Some value ->
        (process_event cfg w worker_id ev env).2 = Done
        /\ failed_count w' = failed_count w
        /\ processed_count w' = processed_count w + 1
        /\ tasks w' = tasks w
        /\ Redis.events (redis w') = Redis.events (redis w)
        /\ Redis.dlq (redis w') = Redis.dlq (redis w)
        /\ (store_xadd env <> Done ->
            Redis.processed (redis w') = Redis.processed (redis w))).
Proof.
  intros w'. split.
  - intros Hv. subst w'. unfold process_event.
    destruct (process_single_raises w worker_id ev env Hv) as [e ->].
    split; [now exists e|].
    destruct (handle_failure_metrics cfg
                (set_metrics w (Metrics.record_processing_end (metrics w) (perf_start env)
                                  false (perf_end env)))
                ev ("Event processing failed: " ++ e) env) as (_ & Hp & Hf).
    rewrite Hp, Hf. split; reflexivity.
  - intros value Hv. subst w'. unfold process_event.
    destruct (process_single_done w worker_id ev env value Hv)
      as (Hdone & _ & _ & Hp & Hf & _ & Ht & He & Hd & Hs & _).
    destruct (_process_single_event w worker_id ev env) as [w1 o].
    cbn [fst snd] in *. subst o. cbn [fst snd]. repeat split; assumption.
Qed.

End Trigger.

(** On empty streams: the event with value [abc] is handed to the failure
    handler, the event with value [42.5] is counted as processed although
    its append raised. *)
Lemma failure_handling_trigger_witness :
  failed_count (process_event defaults fresh_worker "worker-0" bad_event calm).1 = 1
  /\ processed_count (process_event defaults fresh_worker "worker-0" good_event store_down).1
     = 1.
Proof.
  split.
  - destruct (failure_handling_trigger defaults fresh_worker "worker-0" bad_event calm)
      as [Hraise _].
    destruct Hraise as (_ & Hf & _); [vm_compute; reflexivity|].
    rewrite Hf. reflexivity.
  - destruct (failure_handling_trigger defaults fresh_worker "worker-0" good_event store_down)
      as [_ Hdone].
    destruct (Hdone 42.5%float) as (_ & _ & Hp & _); [vm_compute; reflexivity|].
    rewrite Hp. reflexivity.
Defined.

(** *** The failure handler *)

(** The event as [_handle_event_failure] leaves it: the retry metadata
    written into its data. *)
Definition failed_event (ev : event) (retry_count : Z) (error now : string) : event :=
  mk_event (id ev)
    (<["failed_at" := PStr (Lit now)]>
      (<["last_error" := PStr (Lit error)]>
        (<["retry_count" := PInt retry_count]> (data ev))))
    (stream ev).

(** The count the handler reads: [int(data.get("retry_count", 0))]. *)
Definition previous_retry_count (event_data : event_dict) : option Z :=
  py_int (default (PInt 0) (event_data !! "retry_count")).


Lemma handle_failure_retry `{Power} (cfg : Settings) (w : EventWorker) (ev : event)
    (error : string) (env : world) (n : Z) :
  previous_retry_count (data ev) = Some n ->
  n + 1 <= DLQ_MAX_RETRIES cfg ->
  _handle_event_failure cfg w ev error env
  = (set_tasks (set_failed_count w (failed_count w + 1))
       (tasks w ++ [mk_task (failed_event ev (n + 1) error (utcnow env))
                            (float_pow (DLQ_BACKOFF_BASE cfg) (n + 1))]),
     Done).
Proof.
  unfold previous_retry_count, _handle_event_failure. intros -> Hle.
  destruct (Z.leb_spec (n + 1) (DLQ_MAX_RETRIES cfg)); [reflexivity|lia].
Qed.

Lemma handle_failure_dlq `{Power} (cfg : Settings) (w : EventWorker) (ev : event)
    (error : string) (env : world) (n : Z) :
  previous_retry_count (data ev) = Some n ->
  DLQ_MAX_RETRIES cfg < n + 1 ->
  _handle_event_failure cfg w ev error env
  = (_send_to_dlq (set_failed_count w (failed_count w + 1))
       (failed_event ev (n + 1) error (utcnow env)) error env,
     Done).
Proof.
  unfold previous_retry_count, _handle_event_failure. intros -> Hlt.
  destruct (Z.leb_spec (n + 1) (DLQ_MAX_RETRIES cfg)); [lia|reflexivity].
Qed.

Lemma send_to_dlq_frame (w : EventWorker) (ev : event) (error : string) (env : world) :
  let w' := _send_to_dlq w ev error env in
  Redis.events (redis w') = Redis.events (redis w)
  /\ Redis.processed (redis w') = Redis.processed (redis w)
  /\ tasks w' = tasks w
  /\ failed_count w' = failed_count w
  /\ processed_count w' = processed_count w
  /\ metrics w' = metrics w.
Proof.
  unfold _send_to_dlq. destruct (dlq_xadd env); cbn; repeat split.
Qed.


(** *** An event that always fails *)

(** The event a worker builds when it reads an entry back. *)
Definition redelivered (e : Redis.entry) : event :=
  mk_event (Redis.entry_id e) (Redis.decode (Redis.entry_fields e)) "events:stream".

Lemma read_events_redelivered (e : Redis.entry) : _read_events [e] = [redelivered e].
Proof. reflexivity. Qed.

Lemma parsed_value_ext (d1 d2 : event_dict) :
  (forall k, k ∈ ["timestamp"; "type"; "value"] -> d1 !! k = d2 !! k) ->
  parsed_value d1 = parsed_value d2.
Proof.
  intros Hk. unfold parsed_value, _validate_event. cbn [forallb].
  rewrite !(Hk "timestamp"), !(Hk "type"), !(Hk "value");
    [reflexivity | | | ]; repeat constructor.
Qed.

Section Scenario.
Context `{Numpy} `{Power}.

(** The life of one event in a quiet system: it is processed; when that
    schedules a retry, the retry task resumes and re-appends it, a worker
    reads the new entry and processes it again; and so on, for at most
    [n] attempts. *)
Fixpoint attempts (cfg : Settings) (n : nat) (w : EventWorker) (worker_id : string)
    (ev : event) (env : world) : EventWorker :=
  match n with
  | O => w
  | S n' =>
      let w1 := (process_event cfg w worker_id ev env).1 in
      match tasks w1 with
      | [] => w1
      | t :: rest =>
          let w2 := _retry_event_later (set_tasks w1 rest) (task_event t) (task_delay t) env in
          match last (Redis.entries (Redis.events (redis w2))) with
          | Some e => attempts cfg n' w2 worker_id (redelivered e) env
          | None => w2
          end
      end
  end.



End Scenario.

Section Backoff.
Context `{Numpy} `{Power}.

(** The retries over the life of one event, along the run of [attempts]:
    for each retry task that is resumed, the [retry_count] field of the
    entry it re-appends and the delay it slept before. *)
Fixpoint retries (cfg : Settings) (n : nat) (w : EventWorker) (worker_id : string)
    (ev : event) (env : world) : list (option pystr * float) :=
  match n with
  | O => []
  | S n' =>
      let w1 := (process_event cfg w worker_id ev env).1 in
      match tasks w1 with
      | [] => []
      | t :: rest =>
          let w2 := _retry_event_later (set_tasks w1 rest) (task_event t) (task_delay t) env in
          match last (Redis.entries (Redis.events (redis w2))) with
          | Some e =>
              (Redis.entry_fields e !! "retry_count", task_delay t)
              :: retries cfg n' w2 worker_id (redelivered e) env
          | None => []
          end
      end
  end.

(** A failing attempt below the limit schedules one retry, whose delay is
    the power of the base by the count it writes. *)
Lemma retries_step (cfg : Settings) (n' : nat) (w : EventWorker) (worker_id : string)
    (ev : event) (env : world) (f : Redis.fields) (n : Z) :
  retry_xadd env = Done ->
  data ev = Redis.decode f ->
  parsed_value (Redis.decode f) = None ->
  previous_retry_count (Redis.decode f) = Some n ->
  n + 1 <= DLQ_MAX_RETRIES cfg ->
  tasks w = [] ->
  exists w2 ev2 f2,
    retries cfg (S n') w worker_id ev env
    = (Some (Lit (str_int (n + 1))), float_pow (DLQ_BACKOFF_BASE cfg) (n + 1))
      :: retries cfg n' w2 worker_id ev2 env
    /\ data ev2 = Redis.decode f2
    /\ parsed_value (Redis.decode f2) = None
    /\ previous_retry_count (Redis.decode f2) = Some (n + 1)
    /\ tasks w2 = [].
Proof.
  intros Hok Hdata Hraise Hprev Hle Htasks.
  cbn [retries]. unfold process_event.
  destruct (process_single_raises w worker_id ev env) as [e ->];
    [now rewrite Hdata|].
  rewrite (handle_failure_retry cfg _ ev _ env n) by (rewrite ?Hdata; assumption).
  cbn [fst tasks set_tasks set_failed_count set_metrics]. rewrite Htasks. cbn [app].
  cbn [task_event task_delay]. unfold _retry_event_later. rewrite Hok.
  cbn [redis set_redis set_events Redis.events].
  rewrite Redis.xadd_newest by (unfold EVENTS_MAXLEN; lia).
  set (f2 := with_failure f (n + 1) ("Event processing failed: " ++ e) (utcnow env)).
  assert (Hf2 : Redis.encode (data (failed_event ev (n + 1) ("Event processing failed: " ++ e)
                                      (utcnow env))) = f2).
  { unfold failed_event. cbn [data]. rewrite Hdata. apply with_failure_encode. }
  rewrite Hf2. cbn [Redis.entry_fields].
  assert (Hrc : f2 !! "retry_count" = Some (Lit (str_int (n + 1))))
    by apply with_failure_retry_count.
  rewrite Hrc.
  eexists _, _, f2. split; [reflexivity|].
  repeat split; try reflexivity.
  - rewrite <- Hraise. apply parsed_value_ext. intros k Hk.
    rewrite !decode_lookup. subst f2. now rewrite with_failure_required.
  - unfold previous_retry_count. rewrite decode_lookup, Hrc.
    cbn [fmap option_fmap option_map default].
    apply py_int_roundtrip.
Qed.

(** Past the limit no retry is scheduled. *)
Lemma retries_end (cfg : Settings) (n' : nat) (w : EventWorker) (worker_id : string)
    (ev : event) (env : world) (f : Redis.fields) (n : Z) :
  data ev = Redis.decode f ->
  parsed_value (Redis.decode f) = None ->
  previous_retry_count (Redis.decode f) = Some n ->
  DLQ_MAX_RETRIES cfg < n + 1 ->
  tasks w = [] ->
  retries cfg (S n') w worker_id ev env = [].
Proof.
  intros Hdata Hraise Hprev Hlt Htasks.
  cbn [retries]. unfold process_event.
  destruct (process_single_raises w worker_id ev env) as [e ->];
    [now rewrite Hdata|].
  rewrite (handle_failure_dlq cfg _ ev _ env n) by (rewrite ?Hdata; assumption).
  cbn [fst].
  destruct (send_to_dlq_frame
              (set_failed_count
                 (set_metrics w (Metrics.record_processing_end (metrics w) (perf_start env)
                                   false (perf_end env)))
                 (failed_count
                    (set_metrics w (Metrics.record_processing_end (metrics w) (perf_start env)
                                      false (perf_end env))) + 1))
              (failed_event ev (n + 1) ("Event processing failed: " ++ e) (utcnow env))
              ("Event processing failed: " ++ e) env) as (_ & _ & -> & _).
  cbn [tasks set_failed_count set_metrics]. now rewrite Htasks.
Qed.

(** C7 (as amended).  An event that fails on every attempt, read with
    [retry_count = c] ([0] when it has none): its retries are numbered
    [c + 1], [c + 2], ... up to [MAX_RETRIES], the number being the
    [retry_count] the re-appended entry carries, and retry [k] is delayed
    by [BACKOFF_BASE ** k].  With base 2.0 and [MAX_RETRIES = 3], where
    the powers are exact, the delays are 2, 4 and 8 seconds.  The powers
    are taken finite: where a power overflows Python raises instead, and
    no retry is scheduled. *)
Theorem backoff_delay_is_power (cfg : Settings) (worker_id : string) (env : world) (n : nat)
    (w : EventWorker) (ev : event) (f : Redis.fields) (c : Z) :
  retry_xadd env = Done ->
  data ev = Redis.decode f ->
  parsed_value (Redis.decode f) = None ->
  previous_retry_count (Redis.decode f) = Some c ->
  tasks w = [] ->
  (forall k, c < k <= DLQ_MAX_RETRIES cfg ->
     is_finite (float_pow (DLQ_BACKOFF_BASE cfg) k) = true) ->
  retries cfg n w worker_id ev env
  = map (fun i => (Some (Lit (str_int (c + Z.of_nat i))),
                   float_pow (DLQ_BACKOFF_BASE cfg) (c + Z.of_nat i)))
        (seq 1 (Nat.min n (Z.to_nat (DLQ_MAX_RETRIES cfg - c))))
  /\ (DLQ_BACKOFF_BASE cfg = 2%float -> DLQ_MAX_RETRIES cfg = 3 -> c = 0 -> (3 <= n)%nat ->
      float_pow 2 1 = 2%float -> float_pow 2 2 = 4%float -> float_pow 2 3 = 8%float ->
      map snd (retries cfg n w worker_id ev env) = [2; 4; 8]%float).
Proof.
  intros Hok Hdata Hraise Hprev Htasks _.
  assert (Hretries :
    retries cfg n w worker_id ev env
    = map (fun i => (Some (Lit (str_int (c + Z.of_nat i))),
                     float_pow (DLQ_BACKOFF_BASE cfg) (c + Z.of_nat i)))
          (seq 1 (Nat.min n (Z.to_nat (DLQ_MAX_RETRIES cfg - c))))).
  { revert w ev f c Hdata Hraise Hprev Htasks.
    induction n as [|n IH]; intros w ev f c Hdata Hraise Hprev Htasks; [reflexivity|].
    destruct (Z_le_gt_dec (c + 1) (DLQ_MAX_RETRIES cfg)) as [Hle|Hgt].
    - destruct (retries_step cfg n w worker_id ev env f c)
        as (w2 & ev2 & f2 & -> & Hd2 & Hr2 & Hp2 & Ht2); try assumption.
      rewrite (IH w2 ev2 f2 (c + 1)) by assumption.
      replace (Z.to_nat (DLQ_MAX_RETRIES cfg - c))
        with (S (Z.to_nat (DLQ_MAX_RETRIES cfg - (c + 1)))) by lia.
      rewrite <- Nat.succ_min_distr. cbn [seq map].
      replace (c + Z.of_nat 1) with (c + 1) by lia. f_equal.
      rewrite <- (seq_shift _ 1), map_map. apply map_ext. intros i.
      now replace (c + 1 + Z.of_nat i) with (c + Z.of_nat (S i)) by lia.
    - rewrite (retries_end cfg n w worker_id ev env f c) by (assumption || lia).
      replace (Z.to_nat (DLQ_MAX_RETRIES cfg - c)) with 0%nat by lia.
      now rewrite Nat.min_0_r. }
  split; [exact Hretries|].
  intros Hbase Hmax -> Hn H1 H2 H3. rewrite Hretries, Hbase, Hmax.
  replace (Nat.min n (Z.to_nat (3 - 0))) with 3%nat by lia.
  cbn [seq map snd].
  change (0 + Z.of_nat 1) with 1. change (0 + Z.of_nat 2) with 2.
  change (0 + Z.of_nat 3) with 3.
  now rewrite H1, H2, H3.
Qed.

End Backoff.

(** Settings with [DLQ_BACKOFF_BASE=0.5] in the environment. *)
Definition decaying : Settings :=
  {| MAX_BATCH_SIZE := 1000; DLQ_ENABLED := true;
     DLQ_MAX_RETRIES := 3; DLQ_BACKOFF_BASE := 0.5%float |}.

(** The event with value [abc] on a fresh worker, default settings: three
    retries, numbered 1, 2, 3 and delayed by 2, 4 and 8 seconds. *)
Lemma backoff_delay_is_power_witness :
  retries defaults 4 fresh_worker "worker-0" bad_event calm
  = [(Some (Lit "1"), 2%float); (Some (Lit "2"), 4%float); (Some (Lit "3"), 8%float)].
Proof.
  destruct (backoff_delay_is_power defaults "worker-0" calm 4 fresh_worker bad_event
              (ingested_fields "abc") 0) as [Hretries _].
  - reflexivity.
  - reflexivity.
  - vm_compute. reflexivity.
  - vm_compute. reflexivity.
  - reflexivity.
  - intros k Hk. cbn in Hk.
    assert (Hcases : k = 1 \/ k = 2 \/ k = 3) by lia.
    destruct Hcases as [-> | [-> | ->]]; vm_compute; reflexivity.
  - rewrite Hretries. vm_compute. reflexivity.
Defined.

(** With a base below one the delays decrease from one retry of the
    event to the next. *)
Lemma backoff_delays_can_decrease :
  map snd (retries decaying 4 fresh_worker "worker-0" bad_event calm)
  = [0.5; 0.25; 0.125]%float
  /\ (0.25 <? 0.5)%float = true.
Proof. vm_compute. split; reflexivity. Qed.

Section Promotion.
Context `{Numpy} `{Power}.




End Promotion.



(** *** The pipeline as a transition system *)

(** The retry count of an event about to be re-appended is within the
    limit. *)
Definition within_limit (cfg : Settings) (event_data : event_dict) : bool :=
  match event_data !! "retry_count" with
  | Some (PInt k) => (k <=? DLQ_MAX_RETRIES cfg)%Z
  | _ => false
  end.


(** Every pending retry task carries a count within the limit. *)
Definition tasks_within_limit (cfg : Settings) (w : EventWorker) : Prop :=
  Forall (fun t => within_limit cfg (data (task_event t)) = true) (tasks w).

(** The [i]-th pending retry task wakes up from its sleep and runs to its
    end. *)
Definition resume (w : EventWorker) (i : nat) (env : world) : EventWorker :=
  match tasks w !! i with
  | None => w
  | Some t =>
      _retry_event_later (set_tasks w (delete i (tasks w))) (task_event t) (task_delay t) env
  end.

(** What can happen to the pipeline. *)
Inductive action : Type :=
  | Ingest (events : list event_dict) (clock : nat -> string)
  | Process (worker_id : string) (ev : event) (env : world)
  | Resume (i : nat) (env : world)
  | AdminRetry (event_id : nat) (env : world).


Section Transitions.
Context `{Numpy} `{Power}.

Definition step (cfg : Settings) (w : EventWorker) (a : action) : EventWorker :=
  match a with
  | Ingest events clock => set_redis w (Ingest.ingest_batch (redis w) events clock).1
  | Process worker_id ev env => (process_event cfg w worker_id ev env).1
  | Resume i env => resume w i env
  | AdminRetry event_id env => (retry_dlq_event w event_id env).1
  end.

Definition run (cfg : Settings) (w : EventWorker) (actions : list action) : EventWorker :=
  fold_left (step cfg) actions w.

Lemma process_single_frame (w : EventWorker) (worker_id : string) (ev : event) (env : world) :
  let w' := (_process_single_event w worker_id ev env).1 in
  tasks w' = tasks w
  /\ Redis.events (redis w') = Redis.events (redis w)
  /\ Redis.dlq (redis w') = Redis.dlq (redis w).
Proof.
  destruct (parsed_value (data ev)) as [value|] eqn:Hv.
  - destruct (process_single_done w worker_id ev env value Hv)
      as (_ & _ & _ & _ & _ & _ & Ht & He & Hd & _).
    repeat split; assumption.
  - destruct (process_single_raises w worker_id ev env Hv) as [e ->]. now cbn.
Qed.


Lemma handle_failure_tasks (cfg : Settings) (w : EventWorker) (ev : event)
    (error : string) (env : world) :
  tasks_within_limit cfg w ->
  tasks_within_limit cfg (_handle_event_failure cfg w ev error env).1.
Proof.
  unfold tasks_within_limit, _handle_event_failure. intros Hw.
  destruct (py_int _) as [n|]; [|exact Hw].
  destruct (Z.leb_spec (n + 1) (DLQ_MAX_RETRIES cfg)) as [Hle|Hgt].
  - cbn [fst tasks set_tasks]. apply Forall_app. split; [exact Hw|].
    constructor; [|constructor]. cbn [task_event data]. unfold within_limit.
    rewrite lookup_insert_ne by discriminate.
    rewrite lookup_insert_ne by discriminate.
    rewrite lookup_insert_eq. now apply Z.leb_le.
  - cbn [fst]. unfold _send_to_dlq. destruct (dlq_xadd env); exact Hw.
Qed.

Lemma retry_event_later_tasks (w : EventWorker) (ev : event) (delay : float) (env : world) :
  tasks (_retry_event_later w ev delay env) = tasks w.
Proof.
  unfold _retry_event_later, _send_to_dlq.
  destruct (retry_xadd env); [reflexivity|]. now destruct (dlq_xadd env).
Qed.

Lemma retry_dlq_event_tasks (w : EventWorker) (event_id : nat) (env : world) :
  tasks (retry_dlq_event w event_id env).1 = tasks w.
Proof.
  unfold retry_dlq_event.
  destruct (admin_xrange env); [|reflexivity].
  destruct (Redis.xrange_at _ _); [reflexivity|].
  case_bool_decide; [reflexivity|].
  destruct (admin_xadd env); [|reflexivity].
  now destruct (admin_xdel env).
Qed.

(** Every step keeps the pending retry tasks within the limit. *)
Lemma step_tasks_within_limit (cfg : Settings) (w : EventWorker) (a : action) :
  tasks_within_limit cfg w -> tasks_within_limit cfg (step cfg w a).
Proof.
  intros Hw. destruct a as [events clock|worker_id ev env|i env|event_id env]; cbn [step].
  - exact Hw.
  - unfold process_event.
    destruct (process_single_frame w worker_id ev env) as (Ht & _).
    destruct (_process_single_event w worker_id ev env) as [w1 [|e]]; cbn [fst] in *.
    + unfold tasks_within_limit. now rewrite Ht.
    + apply handle_failure_tasks. unfold tasks_within_limit. now rewrite Ht.
  - unfold resume. destruct (tasks w !! i) as [t|] eqn:Hi; [|exact Hw].
    unfold tasks_within_limit. rewrite retry_event_later_tasks. cbn [tasks set_tasks].
    apply Forall_delete. exact Hw.
  - unfold tasks_within_limit. now rewrite retry_dlq_event_tasks.
Qed.

Lemma run_tasks_within_limit (cfg : Settings) (actions : list action) (w : EventWorker) :
  tasks_within_limit cfg w -> tasks_within_limit cfg (run cfg w actions).
Proof.
  revert w. induction actions as [|a actions IH]; intros w Hw; [exact Hw|].
  apply IH, step_tasks_within_limit, Hw.
Qed.

End Transitions.

(** *** What reaches the events stream *)



(** The fields [retry_dlq_event] re-appends: those of the dead-letter
    entry whose key starts with none of the stripped prefixes. *)
Definition cleaned (f : Redis.fields) : Redis.fields :=
  Redis.encode (filter (fun kv => is_retry_metadata kv.1 = false) (Redis.decode f)).

Lemma cleaned_lookup (f : Redis.fields) (k : string) :
  cleaned f !! k = if is_retry_metadata k then None else f !! k.
Proof.
  unfold cleaned, Redis.encode. rewrite lookup_fmap, map_lookup_filter, decode_lookup.
  destruct (f !! k) as [s|]; cbn [fmap option_fmap option_map mbind option_bind fst];
    [|now destruct (is_retry_metadata k)].
  destruct (is_retry_metadata k).
  - rewrite option_guard_False by discriminate. reflexivity.
  - rewrite option_guard_True by reflexivity. reflexivity.
Qed.

Lemma retry_dlq_event_success (w : EventWorker) (event_id : nat) (env : world) :
  (retry_dlq_event w event_id env).2 = true ->
  exists found rest,
    Redis.xrange_at (Redis.dlq (redis w)) event_id = found :: rest
    /\ redis (retry_dlq_event w event_id env).1
       = Redis.mk_db
           (Redis.xadd (Redis.events (redis w)) (cleaned (Redis.entry_fields found)) None).1
           (Redis.processed (redis w))
           (Redis.xdel (Redis.dlq (redis w)) event_id).
Proof.
  unfold retry_dlq_event.
  destruct (admin_xrange env); [|discriminate].
  destruct (Redis.xrange_at (Redis.dlq (redis w)) event_id) as [|found rest];
    [discriminate|].
  case_bool_decide; [discriminate|].
  destruct (admin_xadd env); [|discriminate].
  destruct (admin_xdel env); [|discriminate].
  intros _. exists found, rest. split; reflexivity.
Qed.



Section Discipline.
Context `{Numpy} `{Power}.


(** Every state reached from a new worker keeps its retry tasks within
    the limit. *)
Lemma reachable_tasks_within_limit (cfg : Settings) (r : Redis.db)
    (m : Metrics.MetricsCollector) (actions : list action) :
  tasks_within_limit cfg (run cfg (init r m) actions).
Proof. apply run_tasks_within_limit. constructor. Qed.

(** C5, the path that breaks it.  An admin retry that succeeds appends to
    the events stream without [MAXLEN]: the stream grows by one entry
    whatever its length, and a stream that was at its cap of 1,000,000
    entries is above it afterwards. *)
Theorem admin_retry_append_is_uncapped (w : EventWorker) (event_id : nat) (env : world) :
  (retry_dlq_event w event_id env).2 = true ->
  let w' := (retry_dlq_event w event_id env).1 in
  (Redis.xlen (Redis.events (redis w')) = Redis.xlen (Redis.events (redis w)) + 1)%N
  /\ (Redis.xlen (Redis.events (redis w)) = EVENTS_MAXLEN ->
      (EVENTS_MAXLEN < Redis.xlen (Redis.events (redis w')))%N).
Proof.
  intros Hok w'.
  destruct (retry_dlq_event_success w event_id env Hok) as (found & rest & _ & Hredis).
  assert (Hlen : (Redis.xlen (Redis.events (redis w'))
                  = Redis.xlen (Redis.events (redis w)) + 1)%N).
  { subst w'. rewrite Hredis. cbn [Redis.events]. unfold Redis.xlen.
    rewrite Redis.xadd_uncapped_length. lia. }
  split; [exact Hlen|]. intros Hcap. rewrite Hlen, Hcap. lia.
Qed.

(** The other appends pass [maxlen], which redis-py sends as
    [MAXLEN ~ cap]: each of them adds its entry and lets the server evict
    old entries, but never below the cap. *)
Lemma capped_appends (w : EventWorker) (ev : event) (delay : float) (error : string)
    (event_id : nat) (enriched : event_dict) (env : world) :
  (retry_xadd env = Done ->
   (N.min (Redis.xlen (Redis.events (redis w)) + 1) EVENTS_MAXLEN
    <= Redis.xlen (Redis.events (redis (_retry_event_later w ev delay env))))%N)
  /\ (store_xadd env = Done ->
      (N.min (Redis.xlen (Redis.processed (redis w)) + 1) PROCESSED_MAXLEN
       <= Redis.xlen (Redis.processed
                        (redis (_store_processed_event w event_id enriched env))))%N)
  /\ (dlq_xadd env = Done ->
      (N.min (Redis.xlen (Redis.dlq (redis w)) + 1) DLQ_MAXLEN
       <= Redis.xlen (Redis.dlq (redis (_send_to_dlq w ev error env))))%N).
Proof.
  unfold _retry_event_later, _store_processed_event, _send_to_dlq, Redis.xlen.
  repeat split; intros ->;
    cbn [redis set_redis set_dlq_count set_events set_processed set_dlq
         Redis.events Redis.processed Redis.dlq Redis.xadd fst Redis.entries];
    match goal with
    | |- context [Redis.trim ?ev (Some ?cap) ?l] =>
        pose proof (Redis.trim_floor ev cap l) as Hfloor;
        rewrite length_app in Hfloor; cbn [length] in Hfloor; lia
    end.
Qed.

End Discipline.


(** The worker after the event with value [abc] has been dead-lettered. *)
Definition after_dead_letter : EventWorker :=
  attempts defaults 4 fresh_worker "worker-0" bad_event calm.

(** Retrying the dead-letter entry of [after_dead_letter] adds a fourth
    entry to the three in its events stream. *)
Lemma admin_retry_append_is_uncapped_witness :
  (Redis.xlen (Redis.events (redis (retry_dlq_event after_dead_letter 1 calm).1)) = 4)%N.
Proof.
  destruct (admin_retry_append_is_uncapped after_dead_letter 1 calm) as [Hlen _].
  - vm_compute. reflexivity.
  - rewrite Hlen. vm_compute. reflexivity.
Defined.

(** What the admin retry re-appends for that entry: the original fields
    without the stripped keys.  Two of the fields [_send_to_dlq] added,
    [final_retry_count] and [original_event_id], start with none of the
    stripped prefixes and stay. *)
Example admin_retry_cleaned_fields :
  map Redis.entry_fields
      (drop 3 (Redis.entries (Redis.events (redis (retry_dlq_event after_dead_letter 1 calm).1))))
  = [ {[ "timestamp" := Lit "2024-01-30T10:45:00Z"; "type" := Lit "t"; "value" := Lit "abc";
         "ingested_at" := Lit "2024-01-30T10:45:01.000000"; "processed" := Lit "false";
         "final_retry_count" := Lit "4"; "original_event_id" := Lit "3-0" ]} ]
  /\ Redis.entries (Redis.dlq (redis (retry_dlq_event after_dead_letter 1 calm).1)) = [].
Proof. vm_compute. split; reflexivity. Qed.

End Worker.

(** ** services/websocket_manager.py *)

Module Hub.

(** A channel ([WebSocket] object), by identity. *)
Abbreviation websocket := nat.

(** The per-session metadata. *)
Record metadata : Type := mk_metadata {
  client_id : string;
  connected_at : float;
  message_count : Z
}.

(** A [WebSocketManager]: the subscriber set, the metadata table, the
    active-connections gauge it keeps up to date, and (for the record)
    the frames the channels have accepted, oldest first.  A message is
    the JSON text sent. *)
Record WebSocketManager : Type := mk {
  active_connections : gset websocket;
  connection_metadata : gmap websocket metadata;
  gauge : nat;
  delivered : list (websocket * string)
}.

Definition init : WebSocketManager :=
  {| active_connections := ∅; connection_metadata := ∅; gauge := 0; delivered := [] |}.

(** [disconnect(websocket)]. *)
Definition disconnect (m : WebSocketManager) (ws : websocket) : WebSocketManager :=
  if decide (ws ∈ active_connections m) then
    {| active_connections := active_connections m ∖ {[ws]};
       connection_metadata := delete ws (connection_metadata m);
       gauge := size (active_connections m ∖ {[ws]});
       delivered := delivered m |}
  else m.

(** [send_personal_message(message, websocket)]; [up ws] tells whether
    [send_text] on the channel succeeds. *)
Definition send_personal_message (m : WebSocketManager) (message : string)
    (ws : websocket) (up : websocket -> bool) : WebSocketManager :=
  if up ws then
    {| active_connections := active_connections m;
       connection_metadata :=
         alter (fun md => mk_metadata (client_id md) (connected_at md) (message_count md + 1))
               ws (connection_metadata m);
       gauge := gauge m;
       delivered := delivered m ++ [(ws, message)] |}
  else disconnect m ws.

(** The double quote character. *)
Definition dquote : string := String "034"%char EmptyString.

(** [json.dumps] of a string without characters to escape. *)
Definition json_string (s : string) : string := dquote +:+ s +:+ dquote.

(** [json.dumps] of the welcome message of [connect]. *)
Definition welcome (name : string) : string :=
  "{" +:+ json_string "type" +:+ ": " +:+ json_string "connected" +:+ ", "
  +:+ json_string "client_id" +:+ ": " +:+ json_string name +:+ ", "
  +:+ json_string "message" +:+ ": "
  +:+ json_string "Connected to StreamPulse real-time stream" +:+ "}".

(** [client_id or f"client_{n}"]: a missing or empty id is synthesized. *)
Definition client_name (client : option string) (n : nat) : string :=
  match client with
  | Some (String c rest) => String c rest
  | _ => "client_" +:+ str_int (Z.of_nat n)
  end.

(** [connect(websocket, client_id)] once the channel is accepted, the
    event loop's clock reading [now]; [client_id] is [None] when the
    client gave none. *)
Definition connect (m : WebSocketManager) (ws : websocket) (client : option string)
    (now : float) (up : websocket -> bool) : WebSocketManager :=
  let active := active_connections m ∪ {[ws]} in
  let name := client_name client (size active) in
  let m := {| active_connections := active;
              connection_metadata :=
                <[ws := mk_metadata name now 0]> (connection_metadata m);
              gauge := size active;
              delivered := delivered m |} in
  send_personal_message m (welcome name) ws up.

(** The first loop of [broadcast]: the message is sent to each subscriber
    in turn; a channel whose send fails is only noted in [disconnected]. *)
Definition broadcast_send (message : string) (up : websocket -> bool)
    (acc : WebSocketManager * gset websocket) (ws : websocket)
  : WebSocketManager * gset websocket :=
  if up ws then
    ({| active_connections := active_connections acc.1;
        connection_metadata := connection_metadata acc.1;
        gauge := gauge acc.1;
        delivered := delivered acc.1 ++ [(ws, message)] |}, acc.2)
  else (acc.1, acc.2 ∪ {[ws]}).

Definition broadcast_loop (m : WebSocketManager) (message : string)
    (up : websocket -> bool) : WebSocketManager * gset websocket :=
  foldl (broadcast_send message up) (m, ∅) (elements (active_connections m)).

(** [broadcast(message)]: nothing happens without subscribers; otherwise
    the sending loop, then the disconnection of the channels it noted. *)
Definition broadcast (m : WebSocketManager) (message : string) (up : websocket -> bool)
  : WebSocketManager :=
  if decide (active_connections m = ∅) then m
  else
    let '(m1, disconnected) := broadcast_loop m message up in
    foldl disconnect m1 (elements disconnected).

(** The two tables agree on who is connected. *)
Definition consistent (m : WebSocketManager) : Prop :=
  dom (connection_metadata m) = active_connections m.

(** *** Facts *)

Lemma disconnect_spec (m : WebSocketManager) (ws : websocket) :
  consistent m ->
  active_connections (disconnect m ws) = active_connections m ∖ {[ws]}
  /\ connection_metadata (disconnect m ws) = delete ws (connection_metadata m)
  /\ delivered (disconnect m ws) = delivered m
  /\ consistent (disconnect m ws).
Proof.
  unfold consistent, disconnect. intros Hm.
  destruct (decide (ws ∈ active_connections m)) as [Hin|Hout]; cbn.
  - repeat split; try reflexivity. rewrite dom_delete_L. now rewrite Hm.
  - repeat split; try assumption.
    + set_solver.
    + symmetry. apply delete_id. apply not_elem_of_dom. now rewrite Hm.
Qed.

Lemma disconnect_all_spec (l : list websocket) (m : WebSocketManager) :
  consistent m ->
  active_connections (foldl disconnect m l) = active_connections m ∖ list_to_set l
  /\ (forall ws, ws ∉ l ->
        connection_metadata (foldl disconnect m l) !! ws = connection_metadata m !! ws)
  /\ delivered (foldl disconnect m l) = delivered m
  /\ consistent (foldl disconnect m l).
Proof.
  revert m. induction l as [|x l IH]; intros m Hm; cbn [foldl].
  - repeat split; try assumption; try reflexivity. set_solver.
  - destruct (disconnect_spec m x Hm) as (Ha & Hmd & Hd & Hc).
    destruct (IH (disconnect m x) Hc) as (IHa & IHmd & IHd & IHc).
    repeat split; try assumption.
    + rewrite IHa, Ha. set_solver.
    + intros ws Hws. apply not_elem_of_cons in Hws as [Hne Hws].
      rewrite IHmd by assumption. rewrite Hmd. now apply lookup_delete_ne.
    + now rewrite IHd.
Qed.

Lemma broadcast_loop_spec (message : string) (up : websocket -> bool)
    (l : list websocket) (m : WebSocketManager) (d : gset websocket) :
  let r := foldl (broadcast_send message up) (m, d) l in
  active_connections r.1 = active_connections m
  /\ connection_metadata r.1 = connection_metadata m
  /\ gauge r.1 = gauge m
  /\ delivered r.1 = delivered m ++ map (fun ws => (ws, message)) (filter (fun ws => up ws = true) l)
  /\ r.2 = d ∪ list_to_set (filter (fun ws => up ws = false) l).
Proof.
  revert m d. induction l as [|x l IH]; intros m d; cbn [foldl].
  - cbn. repeat split; try reflexivity; [now rewrite app_nil_r|set_solver].
  - specialize (IH (broadcast_send message up (m, d) x).1
                   (broadcast_send message up (m, d) x).2).
    rewrite <- surjective_pairing in IH. cbv zeta in *.
    destruct IH as (IHa & IHm & IHg & IHd & IHs).
    rewrite IHa, IHm, IHg, IHd, IHs. rewrite !filter_cons.
    unfold broadcast_send. cbn [fst snd].
    destruct (up x) eqn:Hx; cbn [fst snd active_connections connection_metadata gauge delivered].
    + rewrite decide_True by reflexivity. rewrite decide_False by discriminate.
      repeat split; try reflexivity. cbn [map]. now rewrite <- app_assoc.
    + rewrite decide_False by discriminate. rewrite decide_True by reflexivity.
      repeat split; try reflexivity.
      rewrite list_to_set_cons. clear. set_solver.
Qed.

Lemma send_personal_message_consistent (m : WebSocketManager) (message : string)
    (ws : websocket) (up : websocket -> bool) :
  consistent m -> consistent (send_personal_message m message ws up).
Proof.
  intros Hm. unfold send_personal_message. destruct (up ws).
  - unfold consistent in *. cbn. now rewrite dom_alter_L.
  - now apply disconnect_spec.
Qed.

Lemma connect_consistent (m : WebSocketManager) (ws : websocket) (client : option string)
    (now : float) (up : websocket -> bool) :
  consistent m -> consistent (connect m ws client now up).
Proof.
  intros Hm. unfold connect. apply send_personal_message_consistent.
  unfold consistent in *. cbn. rewrite dom_insert_L, Hm. set_solver.
Qed.

Lemma broadcast_loop_collects (m : WebSocketManager) (message : string)
    (up : websocket -> bool) (ws : websocket) :
  ws ∈ (broadcast_loop m message up).2 <-> ws ∈ active_connections m /\ up ws = false.
Proof.
  unfold broadcast_loop.
  destruct (broadcast_loop_spec message up (elements (active_connections m)) m ∅)
    as (_ & _ & _ & _ & ->).
  rewrite elem_of_union, elem_of_list_to_set, list_elem_of_filter, elem_of_elements.
  set_solver.
Qed.

Lemma broadcast_spec (m : WebSocketManager) (message : string) (up : websocket -> bool) :
  consistent m ->
  let m' := broadcast m message up in
  consistent m'
  /\ (forall ws, ws ∈ active_connections m' <-> ws ∈ active_connections m /\ up ws = true)
  /\ (forall ws, ws ∈ active_connections m -> up ws = true ->
        connection_metadata m' !! ws = connection_metadata m !! ws
        /\ (ws, message) ∈ delivered m').
Proof.
  intros Hm m'. subst m'. unfold broadcast.
  destruct (decide (active_connections m = ∅)) as [Hempty|Hne].
  { split; [exact Hm|]. split; intros ws; rewrite Hempty; set_solver. }
  pose proof (broadcast_loop_collects m message up) as Hcollect.
  unfold broadcast_loop in *.
  destruct (broadcast_loop_spec message up (elements (active_connections m)) m ∅)
    as (Ha & Hmd & _ & Hd & _).
  destruct (foldl (broadcast_send message up) (m, ∅) (elements (active_connections m)))
    as [m1 disconnected].
  cbn [fst snd] in *.
  assert (Hm1 : consistent m1) by (unfold consistent in *; now rewrite Hmd, Ha).
  destruct (disconnect_all_spec (elements disconnected) m1 Hm1) as (Ha' & Hmd' & Hd' & Hc').
  split; [exact Hc'|]. split.
  - intros ws. rewrite Ha', Ha, elem_of_difference, elem_of_list_to_set, elem_of_elements.
    rewrite Hcollect. destruct (up ws); intuition congruence.
  - intros ws Hin Hup. split.
    + rewrite Hmd', Hmd; [reflexivity|].
      rewrite elem_of_elements, Hcollect. intros [_ Hdown]. congruence.
    + rewrite Hd', Hd. apply elem_of_app. right.
      apply (list_elem_of_fmap_2 (fun ws => (ws, message))).
      apply list_elem_of_filter. split; [exact Hup|]. now apply elem_of_elements.
Qed.

(** C9.  In a manager whose two tables agree (as they do in every state
    reached by [connect], [disconnect], [send_personal_message] and
    [broadcast]): a send that fails removes the channel from the
    subscriber set and from the metadata; the sending loop of [broadcast]
    removes nothing, it only collects the channels whose send failed;
    after [broadcast] exactly the subscribers whose send succeeded
    remain, each of them has received the message and kept its metadata,
    and every channel whose send failed is gone from the subscriber set
    and from the metadata. *)
Theorem failed_channels_are_dropped (m : WebSocketManager) (message : string)
    (up : websocket -> bool) :
  consistent m ->
  (forall ws,
     let m' := send_personal_message m message ws up in
     consistent m'
     /\ (up ws = false ->
         (ws ∉ active_connections m') /\ connection_metadata m' !! ws = None
         /\ active_connections m' = active_connections m ∖ {[ws]})
     /\ (up ws = true ->
         active_connections m' = active_connections m
         /\ delivered m' = delivered m ++ [(ws, message)]))
  /\ (let loop := broadcast_loop m message up in
      active_connections loop.1 = active_connections m
      /\ connection_metadata loop.1 = connection_metadata m
      /\ (forall ws, ws ∈ loop.2 <-> ws ∈ active_connections m /\ up ws = false))
  /\ (let m' := broadcast m message up in
      consistent m'
      /\ (forall ws, ws ∈ active_connections m' <-> ws ∈ active_connections m /\ up ws = true)
      /\ (forall ws, ws ∈ active_connections m -> up ws = false ->
            (ws ∉ active_connections m') /\ connection_metadata m' !! ws = None)
      /\ (forall ws, ws ∈ active_connections m -> up ws = true ->
            ws ∈ active_connections m'
            /\ connection_metadata m' !! ws = connection_metadata m !! ws
            /\ (ws, message) ∈ delivered m')).
Proof.
  intros Hm. split; [|split].
  - intros ws m'.
    assert (Hc : consistent m') by now apply send_personal_message_consistent.
    split; [exact Hc|]. subst m'. unfold send_personal_message.
    split; intros Hup; rewrite Hup in *.
    + destruct (disconnect_spec m ws Hm) as (Ha & Hmd & _).
      rewrite Ha, Hmd. split; [set_solver|]. split; [apply lookup_delete_eq|reflexivity].
    + split; reflexivity.
  - cbv zeta. unfold broadcast_loop at 1 2.
    destruct (broadcast_loop_spec message up (elements (active_connections m)) m ∅)
      as (Ha & Hmd & _).
    split; [exact Ha|]. split; [exact Hmd|]. apply broadcast_loop_collects.
  - destruct (broadcast_spec m message up Hm) as (Hc & Hiff & Hkept).
    cbv zeta. split; [exact Hc|]. split; [exact Hiff|]. split.
    + intros ws Hin Hdown.
      assert (Hout : ws ∉ active_connections (broadcast m message up)).
      { rewrite Hiff. intros [_ Hup]. congruence. }
      split; [exact Hout|]. apply not_elem_of_dom. now rewrite Hc.
    + intros ws Hin Hup. split; [now apply Hiff|]. now apply Hkept.
Qed.

(** Three subscribers, of which the second has gone away. *)
Definition three_subscribers : WebSocketManager :=
  connect (connect (connect init 1 None 0%float (fun _ => true))
                   2 None 0%float (fun _ => true))
          3 None 0%float (fun _ => true).

Definition second_is_down (ws : websocket) : bool := negb (ws =? 2)%nat.

Lemma failed_channels_are_dropped_witness :
  (2%nat ∉ active_connections (broadcast three_subscribers "alert" second_is_down))
  /\ connection_metadata (broadcast three_subscribers "alert" second_is_down) !! 2%nat = None
  /\ (1%nat, "alert") ∈ delivered (broadcast three_subscribers "alert" second_is_down)
  /\ (3%nat, "alert") ∈ delivered (broadcast three_subscribers "alert" second_is_down).
Proof.
  assert (Hc : consistent three_subscribers).
  { unfold three_subscribers. repeat apply connect_consistent. reflexivity. }
  destruct (failed_channels_are_dropped three_subscribers "alert" second_is_down Hc)
    as (_ & _ & _ & _ & Hdown & Hup).
  assert (Hin : forall ws, ws ∈ [1; 2; 3]%nat -> ws ∈ active_connections three_subscribers).
  { intros ws Hws. unfold three_subscribers, connect, send_personal_message. cbn.
    set_solver. }
  destruct (Hdown 2%nat) as [Hgone Hmeta]; [apply Hin; set_solver|reflexivity|].
  destruct (Hup 1%nat) as (_ & _ & H1); [apply Hin; set_solver|reflexivity|].
  destruct (Hup 3%nat) as (_ & _ & H3); [apply Hin; set_solver|reflexivity|].
  repeat split; assumption.
Defined.

End Hub.

(** * Further properties of the code *)

(** ** The detector over whole streams *)

Module DetectorStreams.
Import Detector.

Section WithNumpy.
Context `{Numpy}.

(** The detector after [detect] has been called on each value in turn. *)
Definition after (d : AnomalyDetector) (values : list float) : AnomalyDetector :=
  fold_left (fun d v => (detect d v).1) values d.

Lemma after_window (values : list float) (d : AnomalyDetector) :
  (length (window d) <= window_size d)%nat ->
  window_size (after d values) = window_size d
  /\ threshold (after d values) = threshold d
  /\ window (after d values)
     = drop (length (window d) + length values - window_size d) (window d ++ values).
Proof.
  revert d. induction values as [|v values IH]; intros d Hd; cbn [after fold_left].
  - repeat split; try reflexivity.
    replace (length (window d) + length [] - window_size d)%nat with 0%nat
      by (cbn [length]; lia).
    now rewrite app_nil_r.
  - fold (after (detect d v).1 values). rewrite detect_window.
    set (d1 := {| window_size := window_size d; threshold := threshold d;
                  window := deque_append (window_size d) (window d) v |}).
    assert (Hd1 : (length (window d1) <= window_size d1)%nat)
      by (apply deque_append_bounded; exact Hd).
    destruct (IH d1 Hd1) as (Hws & Hth & Hw). rewrite Hws, Hth, Hw.
    repeat split; try reflexivity. subst d1. cbn [window window_size length].
    destruct (Nat.eq_dec (window_size d) 0%nat) as [Hz|Hnz].
    + assert (Hnil : window d = []) by (apply length_zero_iff_nil; lia).
      unfold deque_append. rewrite Hz, Hnil. cbn [Nat.eqb app length].
      rewrite !Nat.sub_0_r. reflexivity.
    + destruct (Nat.lt_ge_cases (length (window d)) (window_size d)) as [Hlt|Hge].
      * rewrite deque_append_room by exact Hlt.
        rewrite length_app, <- app_assoc. cbn [length app]. f_equal. lia.
      * rewrite deque_append_full by lia.
        rewrite length_app, length_drop, <- app_assoc. cbn [length app].
        destruct (window d) as [|x w] eqn:Hwd; [cbn in Hge; lia|].
        cbn [length] in *. change (drop 1 (x :: w)) with w.
        replace (S (length w) - 1 + 1 + length values - window_size d)%nat
          with (length values) by lia.
        replace (S (length w) + S (length values) - window_size d)%nat
          with (S (length values)) by lia.
        reflexivity.
Qed.

(** X1.  Whatever the stream, the window of a detector holds its most
    recent values: after [n] calls on a new detector the window is the
    stream without its first [n - window_size] values, so it never holds
    more than [window_size] values and the new value is always the last. *)
Theorem window_is_recent_suffix (ws : nat) (th : float) (values : list float) :
  window (after (init ws th) values) = drop (length values - ws) values
  /\ (length (window (after (init ws th) values)) <= ws)%nat
  /\ window_size (after (init ws th) values) = ws
  /\ threshold (after (init ws th) values) = th.
Proof.
  destruct (after_window values (init ws th)) as (Hws & Hth & Hw);
    [cbn; lia|].
  cbn [init window window_size threshold length app] in *.
  rewrite Hw, Hws, Hth. repeat split; try reflexivity.
  rewrite length_drop. lia.
Qed.

(** X2.  A detector built with a window of fewer than 30 values never
    reports anything: every call returns [(false, 0.0)], whatever the
    values and the threshold. *)
Theorem small_window_never_detects (ws : nat) (th : float) (values : list float) :
  (ws < 30)%nat ->
  run (init ws th) values = replicate (length values) (false, 0%float).
Proof.
  intros Hws.
  assert (Hgen : forall d, window_size d = ws -> (length (window d) <= ws)%nat ->
                           run d values = replicate (length values) (false, 0%float)).
  { induction values as [|v values IH]; intros d Hsize Hd; cbn [run]; [reflexivity|].
    pose proof (deque_append_bounded (window_size d) (window d) v) as Hb.
    rewrite detect_insufficient by lia.
    rewrite IH; [reflexivity| |].
    - rewrite detect_window. exact Hsize.
    - rewrite detect_window. cbn [window]. rewrite <- Hsize. apply Hb. lia. }
  apply Hgen; [reflexivity|cbn; lia].
Qed.

End WithNumpy.

(** The default threshold on a window of 29: the spike of [spike_stream]
    goes unreported. *)
Lemma small_window_never_detects_witness :
  @run numpy_f64 (init 29 3%float) spike_stream = replicate 51 (false, 0%float).
Proof. apply (@small_window_never_detects numpy_f64 29 3%float spike_stream). lia. Defined.

(** The absolute value of a float is not below zero. *)
Lemma abs_not_negative (x : float) : (PrimFloat.abs x <? 0)%float = false.
Proof.
  rewrite FloatAxioms.ltb_spec, FloatAxioms.abs_spec.
  change (Prim2SF 0) with (S754_zero false).
  destruct (Prim2SF x) as [s|s| |s m e]; reflexivity.
Qed.

Section Verdicts.
Context `{Numpy}.

(** X3.  The z-score [detect] returns is never negative, and an anomaly
    is reported only from a window of at least 30 values whose standard
    deviation is not zero, with a z-score above the threshold. *)
Theorem reported_anomaly_is_grounded (d : AnomalyDetector) (value : float) :
  let w := deque_append (window_size d) (window d) value in
  ((detect d value).2.2 <? 0)%float = false
  /\ ((detect d value).2.1 = true ->
      (30 <= length w)%nat
      /\ (np_std w =? 0)%float = false
      /\ (threshold d <? (detect d value).2.2)%float = true).
Proof.
  intros w. unfold detect. cbn [window window_size threshold]. fold w.
  destruct (Nat.ltb_spec (length w) 30) as [Hlt|Hge]; cbn [fst snd].
  - split; [reflexivity|discriminate].
  - destruct (np_std w =? 0)%float eqn:Hstd; cbn [fst snd].
    + split; [reflexivity|discriminate].
    + split; [apply abs_not_negative|]. intros Ha. repeat split; assumption.
Qed.

End Verdicts.

(** The spike of scenario S4, on the window the fifty earlier readings
    have filled. *)
Lemma reported_anomaly_is_grounded_witness :
  (3 <? (@detect numpy_f64 (mk 100 3%float (replicate 50 10%float)) 1000%float).2.2)%float
  = true.
Proof.
  destruct (@reported_anomaly_is_grounded numpy_f64
              (mk 100 3%float (replicate 50 10%float)) 1000%float) as [_ Hgrounded].
  destruct Hgrounded as (_ & _ & Hz); [vm_compute; reflexivity|exact Hz].
Defined.

End DetectorStreams.

(** ** The collector over a run of recordings *)

Module MetricsFacts.
Import Metrics.

(** The recordings of a run that reported an anomaly. *)
Definition anomalous (calls : list (float * bool * float)) : list (float * bool * float) :=
  filter (fun c => c.1.2 = true) calls.

Lemma record_all_anomalies (m : MetricsCollector) (calls : list (float * bool * float)) :
  anomalies_detected (record_all m calls)
  = anomalies_detected m + Z.of_nat (length (anomalous calls)).
Proof.
  revert m. induction calls as [|[[start anomaly] now] calls IH]; intros m.
  - cbn. lia.
  - change (record_all m ((start, anomaly, now) :: calls))
      with (record_all (record_processing_end m start anomaly now) calls).
    rewrite IH. unfold anomalous. rewrite filter_cons. cbn [fst snd].
    cbn [anomalies_detected record_processing_end].
    destruct anomaly.
    + rewrite decide_True by reflexivity. cbn [length]. lia.
    + rewrite decide_False by discriminate. lia.
Qed.

(** X4.  In a collector that started empty the counters and the sample
    list move together: after any run of [record_processing_end] calls,
    [events_processed] is the number of latency samples held, and
    [anomalies_detected] is the number of calls that passed
    [anomaly_detected=True], hence between 0 and [events_processed]. *)
Theorem collector_counts_agree (start : float) (calls : list (float * bool * float)) :
  let m := record_all (init start) calls in
  events_processed m = Z.of_nat (length (processing_times m))
  /\ anomalies_detected m = Z.of_nat (length (anomalous calls))
  /\ 0 <= anomalies_detected m <= events_processed m
  /\ ingestion_times m = []
  /\ start_time m = start.
Proof.
  intros m. subst m.
  rewrite record_all_count, record_all_anomalies, record_all_times.
  cbn [init events_processed anomalies_detected processing_times app].
  unfold durations. rewrite length_map.
  pose proof (length_filter (fun c : float * bool * float => c.1.2 = true) calls) as Hle.
  fold (anomalous calls) in Hle.
  repeat split; try lia.
  - induction calls as [|[[s a] n] calls IH] using rev_ind; [reflexivity|].
    rewrite record_all_snoc. cbn. apply IH.
    apply (length_filter (fun c : float * bool * float => c.1.2 = true)).
  - induction calls as [|[[s a] n] calls IH] using rev_ind; [reflexivity|].
    rewrite record_all_snoc. cbn. apply IH.
    apply (length_filter (fun c : float * bool * float => c.1.2 = true)).
Qed.

Lemma SFltb_leb (a b : spec_float) : SFltb a b = true -> SFleb a b = true.
Proof. unfold SFltb, SFleb. destruct (SFcompare a b) as [[| |]|]; congruence. Qed.

Lemma zero_div (d : float) : (1 <=? d)%float = true -> (0 / d)%float = 0%float.
Proof.
  intros Hd. apply Prim2SF_inj. rewrite FloatAxioms.div_spec.
  rewrite FloatAxioms.leb_spec in Hd.
  change (Prim2SF 0) with (S754_zero false).
  change (Prim2SF 1) with (S754_finite false 4503599627370496 (-52)) in Hd.
  destruct (Prim2SF d) as [s|[|]| |[|] m e]; try discriminate Hd; reflexivity.
Qed.

(** X5.  The denominator of [events_per_second] is at least one second
    whatever the clock reads (an uptime below one second, a clock that
    went backwards, a reading that is not a number), so the quotient is
    never taken by zero; and a collector that has recorded nothing
    reports exactly 0.0 events per second. *)
Theorem throughput_denominator_floor (start now : float) (m : MetricsCollector) :
  (1 <=? max_one (now - start_time m))%float = true
  /\ events_per_second (init start) now = 0%float.
Proof.
  assert (Hfloor : forall x, (1 <=? max_one x)%float = true).
  { intros x. unfold max_one. destruct (1 <? x)%float eqn:Hx; [|reflexivity].
    rewrite FloatAxioms.leb_spec. rewrite FloatAxioms.ltb_spec in Hx.
    now apply SFltb_leb. }
  split; [apply Hfloor|].
  unfold events_per_second. cbn [init events_processed start_time float_of_Z].
  apply zero_div, Hfloor.
Qed.

End MetricsFacts.

(** ** More on [ingest_batch] *)

Module IngestMore.
Import Ingest IngestFacts.

Lemma pyval_pack_lookup (d : event_dict) (f : Redis.fields) (k : string) :
  pack d = Some f -> f !! k = py_str <$> d !! k.
Proof.
  intros Hp. rewrite (pack_lookup d f k Hp). now destruct (d !! k).
Qed.

Lemma enriched_lookup (e : event_dict) (now k : string) (f : Redis.fields) :
  pack (_enrich_event e now) = Some f ->
  f !! k
  = if decide (k = "processed") then Some (Lit "false")
    else if decide (k = "ingested_at") then Some (Lit now)
    else py_str <$> e !! k.
Proof.
  intros Hp. rewrite (pyval_pack_lookup _ f k Hp). unfold _enrich_event.
  destruct (decide (k = "processed")) as [->|Hk].
  { now rewrite lookup_insert_eq. }
  rewrite lookup_insert_ne by congruence.
  destruct (decide (k = "ingested_at")) as [->|Hi].
  { now rewrite lookup_insert_eq. }
  now rewrite lookup_insert_ne by congruence.
Qed.

(** X7.  Enrichment has the last word on its two fields: every entry
    [ingest_batch] adds to the events stream has [processed] equal to
    [false] and [ingested_at] equal to a reading of the clock, also when
    the event came with values of its own under these keys; every other
    field is the event's, as text. *)
Theorem ingested_entries_are_marked_unprocessed (r : Redis.db) (B : list event_dict)
    (utcnow : nat -> string) (x : Redis.entry) :
  x ∈ Redis.entries (Redis.events (ingest_batch r B utcnow).1) ->
  x ∈ Redis.entries (Redis.events r)
  \/ exists e j,
       e ∈ B
       /\ Redis.entry_fields x !! "processed" = Some (Lit "false")
       /\ Redis.entry_fields x !! "ingested_at" = Some (Lit (utcnow j))
       /\ (forall k, k <> "processed" -> k <> "ingested_at" ->
             Redis.entry_fields x !! k = py_str <$> e !! k).
Proof.
  intros Hx.
  destruct (ingest_batch r B utcnow) as [r' [n|exc]] eqn:Hcall.
  - apply ingest_batch_returned in Hcall as (packed & _ & Hpacked & _ & ->).
    cbn [fst Redis.events] in Hx.
    destruct (execute_entries (Redis.events r) packed) as (gone & _ & Hent).
    rewrite Hent in Hx. apply subseteq_drop in Hx.
    apply elem_of_app in Hx as [Hold|Hnew]; [now left|right].
    apply fresh_elem in Hnew.
    apply mapM_Some_1 in Hpacked.
    apply list_elem_of_lookup in Hnew as [i Hi].
    destruct (Forall2_lookup_r _ _ _ _ _ Hpacked Hi) as (c & Hc & Hpack).
    apply list_elem_of_lookup_2, enriched_elem in Hc as (e & j & He & ->).
    exists e, j. split; [exact He|].
    rewrite !(enriched_lookup e (utcnow j) _ _ Hpack). repeat split.
    intros k Hp Hin. rewrite (enriched_lookup e (utcnow j) k _ Hpack).
    rewrite decide_False by exact Hp. now rewrite decide_False by exact Hin.
  - left. pose proof (ingest_batch_raised r B utcnow exc) as Hsame.
    rewrite Hcall in Hsame. cbn [fst snd] in *. now rewrite Hsame in Hx.
Qed.

(** An event that claims to be processed already. *)
Definition premarked_event : event_dict := <["processed" := PStr (Lit "true")]> sample_event.

Lemma ingested_entries_are_marked_unprocessed_witness :
  Forall (fun x => Redis.entry_fields x !! "processed" = Some (Lit "false"))
    (Redis.entries (Redis.events (ingest_batch Redis.empty_db [premarked_event]
                                               frozen_clock).1)).
Proof.
  apply Forall_forall. intros x Hx.
  destruct (ingested_entries_are_marked_unprocessed Redis.empty_db [premarked_event]
              frozen_clock x Hx) as [Hold|(e & j & _ & Hp & _)]; [|exact Hp].
  now apply elem_of_nil in Hold.
Defined.

Section Composition.
Context {V : Type} `{Value V}.

Lemma enriched_app (i : nat) (B1 B2 : list (gmap string V)) (utcnow : nat -> string) :
  enriched i (B1 ++ B2) utcnow
  = enriched i B1 utcnow ++ enriched 0 B2 (fun j => utcnow (i + length B1 + j)%nat).
Proof.
  unfold enriched. rewrite imap_app. f_equal.
  apply imap_ext. intros j e _. cbn. do 2 f_equal. lia.
Qed.

Lemma execute_app (s : Redis.stream) (c1 c2 : list Redis.fields) :
  execute s (c1 ++ c2)
  = ((execute (execute s c1).1 c2).1, (execute s c1).2 ++ (execute (execute s c1).1 c2).2).
Proof.
  revert s. induction c1 as [|f c1 IH]; intros s; cbn [app execute].
  - cbn. now destruct (execute s c2).
  - destruct (Redis.xadd s f (Some EVENTS_MAXLEN)) as [s1 id]. rewrite IH.
    destruct (execute s1 c1) as [s2 ids]. cbn [fst snd].
    now destruct (execute s2 c2).
Qed.

(** X8.  A batch is ingested as a whole or not at all, and when it is,
    ingesting it is ingesting its first part and then the rest: if
    [ingest_batch] of [B1 ++ B2] returns, then so do the call for [B1]
    and, on the database it leaves, the call for [B2] (with the clock
    readings for its positions); they leave the same database, and the
    count returned is the sum of theirs.  A call that raises has left
    the database as it was. *)
Theorem ingest_batch_app (r r' : Redis.db) (B1 B2 : list (gmap string V))
    (utcnow : nat -> string) (n : nat) :
  ingest_batch r (B1 ++ B2) utcnow = (r', Returned n) ->
  (exists r1 n1 n2,
     ingest_batch r B1 utcnow = (r1, Returned n1)
     /\ ingest_batch r1 B2 (fun j => utcnow (length B1 + j)%nat) = (r', Returned n2)
     /\ n = (n1 + n2)%nat)
  /\ (forall (B : list (gmap string V)) (e : exception),
        (ingest_batch r B utcnow).2 = Raised e -> (ingest_batch r B utcnow).1 = r).
Proof.
  intros Hcall. split; [|intros B e; apply ingest_batch_raised].
  apply ingest_batch_returned in Hcall as (packed & Hvalid & Hpacked & -> & ->).
  apply Forall_app in Hvalid as [Hv1 Hv2].
  rewrite enriched_app, mapM_app in Hpacked. cbn [Nat.add] in Hpacked.
  destruct (mapM pack (enriched 0 B1 utcnow)) as [p1|] eqn:Hp1; [|discriminate].
  destruct (mapM pack (enriched 0 B2 _)) as [p2|] eqn:Hp2; [|discriminate].
  cbn in Hpacked. injection Hpacked as <-.
  exists {| Redis.events := (execute (Redis.events r) p1).1;
            Redis.processed := Redis.processed r; Redis.dlq := Redis.dlq r |},
         (length p1), (length p2).
  split; [|split; [|apply length_app]].
  - unfold ingest_batch. rewrite (queued_complete 0 B1 utcnow Hv1), Hp1.
    pose proof (execute_replies (Redis.events r) p1) as Hrep.
    destruct (execute (Redis.events r) p1) as [s results]. cbn [fst snd] in *.
    now rewrite truthy_all, Hrep.
  - unfold ingest_batch. rewrite (queued_complete 0 B2 _ Hv2), Hp2.
    cbn [Redis.events Redis.processed Redis.dlq].
    rewrite execute_app. cbn [fst].
    pose proof (execute_replies (execute (Redis.events r) p1).1 p2) as Hrep.
    destruct (execute (execute (Redis.events r) p1).1 p2) as [s results].
    cbn [fst snd] in *. now rewrite truthy_all, Hrep.
Qed.

End Composition.

Lemma ingest_batch_app_witness :
  exists r1 n1 n2,
    ingest_batch Redis.empty_db [sample_event] frozen_clock = (r1, Returned n1)
    /\ ingest_batch r1 [malformed_event] (fun j => frozen_clock (1 + j)%nat)
       = ((ingest_batch Redis.empty_db [sample_event; malformed_event] frozen_clock).1,
          Returned n2)
    /\ (n1 + n2 = 2)%nat.
Proof.
  destruct (ingest_batch_app Redis.empty_db
              (ingest_batch Redis.empty_db [sample_event; malformed_event] frozen_clock).1
              [sample_event] [malformed_event] frozen_clock 2)
    as [(r1 & n1 & n2 & H1 & H2 & Hn) _]; [vm_compute; reflexivity|].
  exists r1, n1, n2. split; [exact H1|]. split; [exact H2|]. now symmetry.
Defined.

End IngestMore.

(** ** api/routes/events.py: the ingest routes *)

Module IngestRoutes.
Import Config.

(** What an ingest route answers: the counts of its response, or the
    status of the [HTTPException] it raises. *)
Inductive response : Type :=
  | Success (ingested : nat) (total : option nat)
  | Failure (status_code : Z).

(** [ingest_events], on a request that [BatchIngestRequest] has accepted. *)
Definition ingest_events (cfg : Settings) (r : Redis.db) (events : list Routes.Event)
    (utcnow : nat -> string) : Redis.db * response :=
  if (MAX_BATCH_SIZE cfg <? Z.of_nat (length events))%Z then (r, Failure 400)
  else
    let event_dicts := Routes.dict <$> events in
    if negb (forallb Routes._validate_event event_dicts) then (r, Failure 400)
    else
      match Ingest.ingest_batch r event_dicts utcnow with
      | (r', Ingest.Returned ingested) => (r', Success ingested (Some (length events)))
      | (r', Ingest.Raised _) => (r', Failure 500)
      end.

(** [ingest_single_event]. *)
Definition ingest_single_event (r : Redis.db) (event : Routes.Event) (utcnow : nat -> string)
  : Redis.db * response :=
  let event_dict := Routes.dict event in
  if negb (Routes._validate_event event_dict) then (r, Failure 400)
  else
    match Ingest.ingest_batch r [event_dict] utcnow with
    | (r', Ingest.Returned ingested) => (r', Success ingested None)
    | (r', Ingest.Raised _) => (r', Failure 500)
    end.

Lemma dict_lookup (e : Routes.Event) :
  Routes.dict e !! "timestamp" = Some (Routes.Plain (PStr (Lit (Routes.timestamp e))))
  /\ Routes.dict e !! "type" = Some (Routes.Plain (PStr (Lit (Routes.type e))))
  /\ Routes.dict e !! "value" = Some (Routes.Plain (PFloat (Routes.value e)))
  /\ Routes.dict e !! "metadata" = Some (Routes.PDict (Routes.metadata e)).
Proof.
  repeat split.
Qed.

(** Every event of the request model passes both validators. *)
Lemma dict_valid (e : Routes.Event) :
  Routes._validate_event (Routes.dict e) = true
  /\ Ingest._validate_event (Routes.dict e) = true.
Proof.
  destruct (dict_lookup e) as (Ht & Hy & Hv & _).
  unfold Routes._validate_event, Ingest._validate_event. cbn [forallb].
  rewrite Ht, Hy, Hv. split; reflexivity.
Qed.

(** redis-py refuses the enriched dictionary of every such event. *)
Lemma dict_not_packed (e : Routes.Event) (now : string) :
  Ingest.pack (Ingest._enrich_event (Routes.dict e) now) = None.
Proof.
  destruct (dict_lookup e) as (_ & _ & _ & Hm).
  now apply (IngestFacts.pack_enriched_None _ now "metadata" _ ltac:(discriminate)
               ltac:(discriminate) Hm).
Qed.

Lemma ingest_batch_dicts (r : Redis.db) (events : list Routes.Event) (utcnow : nat -> string) :
  events <> [] ->
  Ingest.ingest_batch r (Routes.dict <$> events) utcnow = (r, Ingest.Raised Ingest.DataError).
Proof.
  intros Hne. unfold Ingest.ingest_batch.
  rewrite IngestFacts.queued_complete
    by (apply Forall_fmap, Forall_forall; intros e _; apply dict_valid).
  destruct events as [|e events]; [congruence|].
  unfold IngestFacts.enriched. cbn [fmap list_fmap imap mapM].
  now rewrite dict_not_packed.
Qed.

(** X6.  No event of the HTTP layer is ingested.  The dictionary of an
    [Event] always has its [metadata] entry, a [dict], which redis-py
    refuses to send: both validators accept the event, [ingest_batch]
    raises [DataError] when the pipeline is executed, nothing is
    appended, and the routes answer with status 500 (400 when the batch
    is larger than [MAX_BATCH_SIZE]). *)
Theorem http_events_are_never_ingested (cfg : Settings) (r : Redis.db)
    (events : list Routes.Event) (event : Routes.Event) (utcnow : nat -> string) :
  events <> [] ->
  Forall (fun e => Routes._validate_event e = true /\ Ingest._validate_event e = true)
         (Routes.dict <$> events)
  /\ Ingest.ingest_batch r (Routes.dict <$> events) utcnow
     = (r, Ingest.Raised Ingest.DataError)
  /\ ingest_events cfg r events utcnow
     = (r, Failure (if (MAX_BATCH_SIZE cfg <? Z.of_nat (length events))%Z then 400 else 500))
  /\ ingest_single_event r event utcnow = (r, Failure 500).
Proof.
  intros Hne. split; [|split; [|split]].
  - apply Forall_fmap, Forall_forall. intros e _. apply dict_valid.
  - now apply ingest_batch_dicts.
  - unfold ingest_events. destruct (_ <? _)%Z; [reflexivity|].
    replace (forallb Routes._validate_event (Routes.dict <$> events)) with true.
    + cbn [negb]. now rewrite ingest_batch_dicts.
    + symmetry. apply forallb_forall. intros d Hd.
      apply in_map_iff in Hd as (e & <- & _). apply dict_valid.
  - unfold ingest_single_event. rewrite (proj1 (dict_valid event)). cbn [negb].
    change [Routes.dict event] with (Routes.dict <$> [event]).
    now rewrite (ingest_batch_dicts r [event] utcnow).
Qed.

(** The example of the request model, alone in a batch. *)
Definition example_event : Routes.Event :=
  Routes.mk_Event "2024-01-30T10:45:00Z" "sensor_reading" 42.5%float
    [("sensor_id", PStr (Lit "temp-001")); ("location", PStr (Lit "server-room"))].

Lemma http_events_are_never_ingested_witness :
  ingest_events defaults Redis.empty_db [example_event] IngestFacts.frozen_clock
  = (Redis.empty_db, Failure 500).
Proof.
  destruct (http_events_are_never_ingested defaults Redis.empty_db [example_event]
              example_event IngestFacts.frozen_clock) as (_ & _ & Hroute & _).
  - discriminate.
  - exact Hroute.
Defined.

End IngestRoutes.

(** ** From ingestion to processing *)

Module WorkerMore.
Import Config Worker.

Lemma decode_encode_lookup (d : event_dict) (k : string) :
  Redis.decode (Redis.encode d) !! k = (fun v => PStr (py_str v)) <$> d !! k.
Proof.
  rewrite decode_lookup. unfold Redis.encode. rewrite lookup_fmap.
  now destruct (d !! k).
Qed.

Lemma reread_enriched_lookup (e : event_dict) (now k : string) :
  k ∈ ["timestamp"; "type"; "value"] ->
  Redis.decode (Redis.encode (Ingest._enrich_event e now)) !! k
  = (fun v => PStr (py_str v)) <$> e !! k.
Proof.
  intros Hk. rewrite decode_encode_lookup. unfold Ingest._enrich_event.
  rewrite !lookup_insert_ne; [reflexivity| |];
    intros <-; repeat (apply elem_of_cons in Hk as [Hk|Hk]; [discriminate Hk|]);
    now apply elem_of_nil in Hk.
Qed.

Lemma reread_enriched_valid (e : event_dict) (now : string) :
  _validate_event (Redis.decode (Redis.encode (Ingest._enrich_event e now)))
  = Ingest._validate_event e.
Proof.
  unfold _validate_event, Ingest._validate_event. cbn [forallb].
  rewrite !reread_enriched_lookup by (repeat constructor).
  destruct (e !! "timestamp"), (e !! "type"), (e !! "value"); reflexivity.
Qed.

Section RoundTrip.
Context `{Numpy} `{Power}.

(** X10.  The value of an event survives the events stream.  For an
    event with the three required fields whose value [float()] accepts
    (a float, or text), once it has been enriched, appended and read
    back the worker parses the very same float, so the first attempt
    does not raise: it is counted as processed and nothing is scheduled
    for retry or dead-lettered. *)
Theorem validated_event_is_processed (cfg : Settings) (w : EventWorker) (worker_id : string)
    (entry_id : nat) (e : event_dict) (now : string) (env : world) (f : Redis.fields)
    (v : pyval) (value : float) :
  Ingest._validate_event e = true ->
  Ingest.pack (Ingest._enrich_event e now) = Some f ->
  e !! "value" = Some v ->
  py_float v = Some value ->
  (forall z, v <> PInt z) ->
  let ev := redelivered (Redis.mk_entry entry_id f) in
  let w' := (process_event cfg w worker_id ev env).1 in
  parsed_value (data ev) = Some value
  /\ (process_event cfg w worker_id ev env).2 = Done
  /\ processed_count w' = processed_count w + 1
  /\ failed_count w' = failed_count w
  /\ tasks w' = tasks w
  /\ Redis.dlq (redis w') = Redis.dlq (redis w).
Proof.
  intros Hcomplete Hpack Hv Hfloat Hnotint ev w'.
  assert (Hf : f = Redis.encode (Ingest._enrich_event e now)).
  { apply map_eq. intros k. rewrite (IngestMore.pyval_pack_lookup _ f k Hpack).
    unfold Redis.encode. now rewrite lookup_fmap. }
  assert (Hparsed : parsed_value (data ev) = Some value).
  { subst ev f. unfold parsed_value, redelivered. cbn [data Redis.entry_fields].
    rewrite reread_enriched_valid, Hcomplete.
    rewrite reread_enriched_lookup by (repeat constructor). rewrite Hv.
    cbn [fmap option_fmap option_map default].
    destruct v as [s|z|x]; [exact Hfloat| |exact Hfloat].
    now destruct (Hnotint z). }
  split; [exact Hparsed|].
  subst w'. unfold process_event.
  destruct (process_single_done w worker_id ev env value Hparsed)
    as (Hdone & _ & _ & Hp & Hf' & _ & Ht & _ & Hd & _).
  destruct (_process_single_event w worker_id ev env) as [w1 o].
  cbn [fst snd] in *. subst o. cbn [fst snd]. repeat split; assumption.
Qed.

End RoundTrip.

(** The event of scenario S1 on a new worker. *)
Lemma validated_event_is_processed_witness :
  processed_count
    (process_event defaults fresh_worker "worker-0"
       (redelivered (Redis.mk_entry 1 (Redis.encode
          (Ingest._enrich_event IngestFacts.sample_event "2024-01-30T10:45:01.000000"))))
       calm).1 = 1.
Proof.
  destruct (validated_event_is_processed defaults fresh_worker "worker-0" 1
              IngestFacts.sample_event "2024-01-30T10:45:01.000000" calm
              (Redis.encode
                 (Ingest._enrich_event IngestFacts.sample_event "2024-01-30T10:45:01.000000"))
              (PFloat 42.5%float) 42.5%float)
    as (_ & _ & Hp & _).
  - reflexivity.
  - vm_compute. reflexivity.
  - reflexivity.
  - reflexivity.
  - intros z. discriminate.
  - rewrite Hp. reflexivity.
Defined.

End WorkerMore.

(** ** The paths of one attempt *)

Module WorkerPaths.
Import Config Worker.

(** The five fields [_process_single_event] adds to an event. *)
Definition processing_fields : list string :=
  ["processed_at"; "worker_id"; "anomaly_detected"; "z_score"; "processing_time"].

Section Paths.
Context `{Numpy} `{Power}.

(** X11.  When an attempt succeeds and its append goes through, the
    newest entry of the processed stream is the event with five fields
    set by the worker: the verdict of the detector as the text [True] or
    [False] (Python's rendering of a boolean), the z-score, the worker's
    id and the two clock readings; every other field is the event's own. *)
Theorem processed_entry_content (w : EventWorker) (worker_id : string) (ev : event)
    (env : world) (value : float) :
  parsed_value (data ev) = Some value ->
  store_xadd env = Done ->
  let verdict := (Detector.detect (anomaly_detector w) value).2 in
  let w' := (_process_single_event w worker_id ev env).1 in
  exists x,
    last (Redis.entries (Redis.processed (redis w'))) = Some x
    /\ Redis.entry_id x = S (Redis.last_id (Redis.processed (redis w)))
    /\ Redis.entry_fields x !! "anomaly_detected"
       = Some (Lit (if verdict.1 then "True" else "False"))
    /\ Redis.entry_fields x !! "z_score" = Some (Repr verdict.2)
    /\ Redis.entry_fields x !! "worker_id" = Some (Lit worker_id)
    /\ Redis.entry_fields x !! "processed_at" = Some (Lit (utcnow env))
    /\ Redis.entry_fields x !! "processing_time" = Some (Repr (perf_enrich env))
    /\ (forall k, k ∉ processing_fields ->
          Redis.entry_fields x !! k = py_str <$> data ev !! k).
Proof.
  unfold parsed_value, _process_single_event, Metrics.record_processing_start.
  destruct (_validate_event (data ev)); cbn [negb]; [|discriminate].
  intros -> Hstore.
  destruct (Detector.detect (anomaly_detector w) value) as [det [is_anomaly z]].
  unfold _store_processed_event. rewrite Hstore.
  cbn [fst snd redis set_redis set_metrics set_processed_count set_anomaly_detector
       set_processed Redis.processed].
  eexists. split; [apply Redis.xadd_newest; unfold PROCESSED_MAXLEN; lia|].
  cbn [Redis.entry_id Redis.entry_fields]. rewrite !encode_insert.
  split; [reflexivity|].
  repeat split.
  - rewrite ?lookup_insert_ne by discriminate. now rewrite lookup_insert_eq.
  - rewrite ?lookup_insert_ne by discriminate. now rewrite lookup_insert_eq.
  - rewrite ?lookup_insert_ne by discriminate. now rewrite lookup_insert_eq.
  - rewrite ?lookup_insert_ne by discriminate. now rewrite lookup_insert_eq.
  - now rewrite lookup_insert_eq.
  - intros k Hk. unfold processing_fields in Hk.
    rewrite !lookup_insert_ne.
    + unfold Redis.encode. now rewrite lookup_fmap.
    + intros <-. apply Hk. repeat constructor.
    + intros <-. apply Hk. repeat constructor.
    + intros <-. apply Hk. repeat constructor.
    + intros <-. apply Hk. repeat constructor.
    + intros <-. apply Hk. repeat constructor.
Qed.

Lemma handle_failure_detector (cfg : Settings) (w : EventWorker) (ev : event)
    (error : string) (env : world) :
  anomaly_detector (_handle_event_failure cfg w ev error env).1 = anomaly_detector w.
Proof.
  unfold _handle_event_failure.
  destruct (py_int _) as [n|]; [|reflexivity].
  destruct (_ <=? _)%Z; [reflexivity|].
  unfold _send_to_dlq. now destruct (dlq_xadd env).
Qed.

Lemma process_event_detector (cfg : Settings) (w : EventWorker) (worker_id : string)
    (ev : event) (env : world) :
  anomaly_detector (process_event cfg w worker_id ev env).1
  = match parsed_value (data ev) with
    | Some value => (Detector.detect (anomaly_detector w) value).1
    | None => anomaly_detector w
    end.
Proof.
  unfold process_event.
  destruct (parsed_value (data ev)) as [value|] eqn:Hv.
  - destruct (process_single_done w worker_id ev env value Hv) as (Hdone & Hdet & _).
    destruct (_process_single_event w worker_id ev env) as [w1 o].
    cbn [fst snd] in *. now subst o.
  - destruct (process_single_raises w worker_id ev env Hv) as [e ->].
    now rewrite handle_failure_detector.
Qed.

(** The values a batch delivers to the detector: those of the events
    that are valid and whose value parses. *)
Definition parsed_values (batch : list (event * world)) : list float :=
  omap (fun item => parsed_value (data item.1)) batch.

Lemma parsed_values_cons (ev : event) (env : world) (batch : list (event * world)) :
  parsed_values ((ev, env) :: batch)
  = match parsed_value (data ev) with
    | Some value => value :: parsed_values batch
    | None => parsed_values batch
    end.
Proof. reflexivity. Qed.

(** X12.  The detector sees exactly the values that parse: after a batch
    the worker's detector is the detector before it, fed in order with
    the values of the events that passed validation and [float()]; a
    failed attempt leaves the window as it was, and a successful one
    feeds it even when the append of the result fails. *)
Theorem detector_sees_parsed_values (cfg : Settings) (worker_id : string)
    (batch : list (event * world)) (w : EventWorker) :
  (_process_events_batch cfg w worker_id batch).2 = Done ->
  anomaly_detector (_process_events_batch cfg w worker_id batch).1
  = DetectorStreams.after (anomaly_detector w) (parsed_values batch).
Proof.
  revert w. induction batch as [|[ev env] batch IH]; intros w; cbn [_process_events_batch].
  - reflexivity.
  - pose proof (process_event_detector cfg w worker_id ev env) as Hdet.
    destruct (process_event cfg w worker_id ev env) as [w1 [|e]]; cbn [fst snd] in *;
      [|discriminate].
    intros Hdone. rewrite (IH w1 Hdone), Hdet, parsed_values_cons.
    destruct (parsed_value (data ev)); reflexivity.
Qed.

(** X13.  An event whose [retry_count] field is not a number poisons its
    batch when its processing fails: [int()] raises inside the failure
    handler, so the event is neither scheduled for retry nor
    dead-lettered (it is counted as failed and nothing is written), and
    the exception leaves the loop of [_process_events_batch]: the events
    after it in the batch are not attempted. *)
Theorem malformed_retry_count_aborts_batch (cfg : Settings) (w : EventWorker)
    (worker_id : string) (ev : event) (env : world) (rest : list (event * world)) :
  parsed_value (data ev) = None ->
  previous_retry_count (data ev) = None ->
  let r := _process_events_batch cfg w worker_id ((ev, env) :: rest) in
  r.2 <> Done
  /\ redis r.1 = redis w
  /\ tasks r.1 = tasks w
  /\ dlq_count r.1 = dlq_count w
  /\ failed_count r.1 = failed_count w + 1
  /\ processed_count r.1 = processed_count w
  /\ metrics r.1
     = Metrics.record_processing_end (metrics w) (perf_start env) false (perf_end env).
Proof.
  intros Hv Hprev r. subst r. cbn [_process_events_batch]. unfold process_event.
  destruct (process_single_raises w worker_id ev env Hv) as [e ->].
  unfold _handle_event_failure. unfold previous_retry_count in Hprev. rewrite Hprev.
  cbn. repeat split. discriminate.
Qed.

End Paths.

(** An entry whose retry count is not a number and whose value does not
    parse. *)
Definition poisoned_event : event :=
  mk_event 7 (Redis.decode (<["retry_count" := Lit "many"]> (ingested_fields "abc")))
           "events:stream".

Lemma processed_entry_content_witness :
  map (fun x => Redis.entry_fields x !! "anomaly_detected")
      (Redis.entries (Redis.processed
         (redis (_process_single_event fresh_worker "worker-0" good_event calm).1)))
  = [Some (Lit "False")].
Proof.
  destruct (processed_entry_content fresh_worker "worker-0" good_event calm 42.5%float)
    as (x & Hlast & _ & Ha & _); [reflexivity|reflexivity|].
  assert (Hone : length (Redis.entries (Redis.processed
                   (redis (_process_single_event fresh_worker "worker-0" good_event calm).1)))
                 = 1%nat) by (vm_compute; reflexivity).
  destruct (Redis.entries _) as [|y [|y' l]]; try discriminate Hone.
  cbn in Hlast. injection Hlast as ->. cbn [map]. rewrite Ha. reflexivity.
Defined.

Lemma detector_sees_parsed_values_witness :
  Detector.window
    (anomaly_detector (_process_events_batch defaults fresh_worker "worker-0"
                         [(bad_event, calm); (good_event, store_down)]).1)
  = [42.5%float].
Proof.
  rewrite (detector_sees_parsed_values defaults "worker-0"
             [(bad_event, calm); (good_event, store_down)] fresh_worker).
  - vm_compute. reflexivity.
  - vm_compute. reflexivity.
Defined.

Lemma malformed_retry_count_aborts_batch_witness :
  processed_count (_process_events_batch defaults fresh_worker "worker-0"
                     [(poisoned_event, calm); (good_event, calm)]).1 = 0.
Proof.
  destruct (malformed_retry_count_aborts_batch defaults fresh_worker "worker-0"
              poisoned_event calm [(good_event, calm)])
    as (_ & _ & _ & _ & _ & Hp & _); [reflexivity|reflexivity|].
  rewrite Hp. reflexivity.
Defined.

End WorkerPaths.

(** ** Retries that go wrong, and the admin retry *)

Module WorkerRetry.
Import Config Worker.

(** The fields [_send_to_dlq] writes for an event. *)
Definition dlq_fields (ev : event) (error now : string) : Redis.fields :=
  Redis.encode
    (<["final_retry_count" := default (PInt 0) (data ev !! "retry_count")]>
      (<["dlq_timestamp" := PStr (Lit now)]>
        (<["dlq_reason" := PStr (Lit error)]>
          (<["original_event_id" := PStr (Lit (Redis.id_text (id ev)))]> (data ev))))).

Lemma send_to_dlq_appends (w : EventWorker) (ev : event) (error : string) (env : world) :
  dlq_xadd env = Done ->
  last (Redis.entries (Redis.dlq (redis (_send_to_dlq w ev error env))))
  = Some (Redis.mk_entry (S (Redis.last_id (Redis.dlq (redis w))))
                         (dlq_fields ev error (utcnow env)))
  /\ dlq_count (_send_to_dlq w ev error env) = dlq_count w + 1
  /\ Redis.events (redis (_send_to_dlq w ev error env)) = Redis.events (redis w)
  /\ tasks (_send_to_dlq w ev error env) = tasks w.
Proof.
  intros Hok. unfold _send_to_dlq. rewrite Hok. cbn. repeat split.
  apply Redis.xadd_newest. unfold DLQ_MAXLEN. lia.
Qed.

Lemma dlq_fields_lookup (ev : event) (error now k : string) :
  dlq_fields ev error now !! k
  = if decide (k = "final_retry_count")
    then Some (py_str (default (PInt 0) (data ev !! "retry_count")))
    else if decide (k = "dlq_timestamp") then Some (Lit now)
    else if decide (k = "dlq_reason") then Some (Lit error)
    else if decide (k = "original_event_id") then Some (Lit (Redis.id_text (id ev)))
    else py_str <$> data ev !! k.
Proof.
  unfold dlq_fields, Redis.encode. rewrite lookup_fmap.
  repeat (case_decide; [subst k; rewrite ?lookup_insert_ne by discriminate;
                        now rewrite lookup_insert_eq|]).
  now rewrite !lookup_insert_ne by congruence.
Qed.

(** A world in which the re-append to the events stream raises, one in
    which the append to the dead-letter stream raises as well, and one in
    which only the delete of the admin retry raises. *)
Definition events_down : world :=
  {| perf_start := 100%float; perf_enrich := 100.25%float; perf_end := 100.5%float;
     utcnow := "2024-01-30T10:45:04.000000";
     store_xadd := Done; retry_xadd := Raises "Connection reset"; dlq_xadd := Done;
     admin_xrange := Done; admin_xadd := Done; admin_xdel := Done |}.

Definition redis_down : world :=
  {| perf_start := 100%float; perf_enrich := 100.25%float; perf_end := 100.5%float;
     utcnow := "2024-01-30T10:45:04.000000";
     store_xadd := Done; retry_xadd := Raises "Connection reset";
     dlq_xadd := Raises "Connection reset";
     admin_xrange := Done; admin_xadd := Done; admin_xdel := Done |}.

Definition delete_down : world :=
  {| perf_start := 100%float; perf_enrich := 100.25%float; perf_end := 100.5%float;
     utcnow := "2024-01-30T10:45:04.000000";
     store_xadd := Done; retry_xadd := Done; dlq_xadd := Done;
     admin_xrange := Done; admin_xadd := Done; admin_xdel := Raises "Connection reset" |}.

(** A worker with one pending retry task: the event with value [abc]
    has failed once. *)
Definition one_pending : EventWorker :=
  (_handle_event_failure defaults fresh_worker bad_event
     (float_error (PStr (Lit "abc"))) calm).1.

(** X14.  When the delayed re-append of an event raises, the retry task
    dead-letters the event instead: the events stream is unchanged, and
    the dead-letter stream gains an entry whose reason is the text of the
    exception and whose [final_retry_count] is the count the task
    carried, which is within [MAX_RETRIES]. *)
Theorem failed_reappend_is_dead_lettered (cfg : Settings) (w : EventWorker) (i : nat)
    (t : retry_task) (e : string) (env : world) :
  tasks_within_limit cfg w ->
  tasks w !! i = Some t ->
  retry_xadd env = Raises e ->
  dlq_xadd env = Done ->
  let w' := resume w i env in
  Redis.events (redis w') = Redis.events (redis w)
  /\ tasks w' = delete i (tasks w)
  /\ dlq_count w' = dlq_count w + 1
  /\ exists x k,
       last (Redis.entries (Redis.dlq (redis w'))) = Some x
       /\ Redis.entry_fields x !! "dlq_reason" = Some (Lit e)
       /\ Redis.entry_fields x !! "final_retry_count" = Some (Lit (str_int k))
       /\ k <= DLQ_MAX_RETRIES cfg.
Proof.
  intros Hw Hi Hretry Hdlq w'. subst w'. unfold resume. rewrite Hi.
  unfold _retry_event_later. rewrite Hretry.
  destruct (send_to_dlq_appends (set_tasks w (delete i (tasks w))) (task_event t) e env Hdlq)
    as (Hlast & Hcount & Hevents & Htasks).
  rewrite Hevents, Htasks, Hcount. repeat split.
  pose proof (proj1 (Forall_lookup _ _) Hw i t Hi) as Ht. cbn beta in Ht.
  unfold within_limit in Ht.
  destruct (data (task_event t) !! "retry_count") as [[s|k|x]|] eqn:Hk; try discriminate.
  eexists _, k. split; [exact Hlast|]. cbn [Redis.entry_fields].
  rewrite !dlq_fields_lookup, Hk. repeat split. now apply Z.leb_le.
Qed.

Lemma failed_reappend_is_dead_lettered_witness :
  Redis.events (redis (resume one_pending 0 events_down)) = Redis.events (redis one_pending)
  /\ tasks (resume one_pending 0 events_down) = []
  /\ dlq_count (resume one_pending 0 events_down) = 1
  /\ exists x k,
       last (Redis.entries (Redis.dlq (redis (resume one_pending 0 events_down)))) = Some x
       /\ Redis.entry_fields x !! "dlq_reason" = Some (Lit "Connection reset")
       /\ Redis.entry_fields x !! "final_retry_count" = Some (Lit (str_int k))
       /\ k <= 3.
Proof.
  eapply (failed_reappend_is_dead_lettered defaults one_pending 0).
  - repeat constructor.
  - reflexivity.
  - reflexivity.
  - reflexivity.
Defined.

(** X15.  When the delayed re-append raises and the append to the
    dead-letter stream raises too, the event is lost: the task is gone
    and no stream, counter or other task has changed. *)
Theorem event_is_lost_when_both_appends_fail (w : EventWorker) (i : nat) (t : retry_task)
    (e1 e2 : string) (env : world) :
  tasks w !! i = Some t ->
  retry_xadd env = Raises e1 ->
  dlq_xadd env = Raises e2 ->
  resume w i env = set_tasks w (delete i (tasks w)).
Proof.
  intros Hi Hretry Hdlq. unfold resume. rewrite Hi.
  unfold _retry_event_later. rewrite Hretry. unfold _send_to_dlq. now rewrite Hdlq.
Qed.

Lemma event_is_lost_when_both_appends_fail_witness :
  resume one_pending 0 redis_down = set_tasks one_pending [].
Proof.
  eapply (event_is_lost_when_both_appends_fail one_pending 0); reflexivity.
Defined.

Lemma xrange_at_xdel (s : Redis.stream) (event_id : nat) :
  Redis.xrange_at (Redis.xdel s event_id) event_id = [].
Proof.
  unfold Redis.xrange_at, Redis.xdel. cbn [Redis.entries].
  induction (Redis.entries s) as [|x l IH]; [reflexivity|].
  rewrite filter_cons. destruct (decide (Redis.entry_id x <> event_id)) as [Hne|Heq].
  - rewrite filter_cons. now rewrite decide_False by exact Hne.
  - exact IH.
Qed.

(** X16.  An admin retry of an id that is not in the dead-letter stream
    returns false and changes nothing; this is what a second retry of an
    entry does after a first one succeeded. *)
Theorem retry_of_absent_entry_is_refused (w : EventWorker) (event_id : nat)
    (env env' : world) :
  (Redis.xrange_at (Redis.dlq (redis w)) event_id = [] ->
   retry_dlq_event w event_id env = (w, false))
  /\ ((retry_dlq_event w event_id env).2 = true ->
      retry_dlq_event (retry_dlq_event w event_id env).1 event_id env'
      = ((retry_dlq_event w event_id env).1, false)).
Proof.
  assert (Habsent : forall w0 env0,
             Redis.xrange_at (Redis.dlq (redis w0)) event_id = [] ->
             retry_dlq_event w0 event_id env0 = (w0, false)).
  { intros w0 env0 Hnone. unfold retry_dlq_event. rewrite Hnone.
    now destruct (admin_xrange env0). }
  split; [apply Habsent|].
  intros Hok. apply Habsent.
  destruct (retry_dlq_event_success w event_id env Hok) as (found & rest & _ & ->).
  cbn [Redis.dlq]. apply xrange_at_xdel.
Qed.

Lemma retry_of_absent_entry_is_refused_witness :
  retry_dlq_event fresh_worker 7 calm = (fresh_worker, false)
  /\ retry_dlq_event (retry_dlq_event after_dead_letter 1 calm).1 1 calm
     = ((retry_dlq_event after_dead_letter 1 calm).1, false).
Proof.
  destruct (retry_of_absent_entry_is_refused fresh_worker 7 calm calm) as [Habsent _].
  destruct (retry_of_absent_entry_is_refused after_dead_letter 1 calm calm) as [_ Hagain].
  split; [apply Habsent; reflexivity | apply Hagain; vm_compute; reflexivity].
Defined.

Lemma cleaned_nonempty (f : Redis.fields) (k : string) (v : pystr) :
  f !! k = Some v -> is_retry_metadata k = false ->
  filter (fun kv => is_retry_metadata kv.1 = false) (Redis.decode f) <> ∅.
Proof.
  intros Hk Hmeta Hempty.
  assert (Hin : filter (fun kv => is_retry_metadata kv.1 = false) (Redis.decode f) !! k
                = Some (PStr v)).
  { apply map_lookup_filter_Some. split; [|exact Hmeta].
    rewrite decode_lookup, Hk. reflexivity. }
  rewrite Hempty in Hin. now rewrite lookup_empty in Hin.
Qed.

(** X17.  The admin retry is not atomic.  When the delete from the
    dead-letter stream raises after the append to the events stream, the
    call returns false although the event has been re-appended, and the
    dead-letter entry stays; a later retry that succeeds appends the
    event a second time. *)
Theorem interrupted_retry_duplicates_event (w : EventWorker) (event_id : nat)
    (found : Redis.entry) (rest : list Redis.entry) (k : string) (v : pystr) (e : string)
    (env env' : world) :
  Redis.xrange_at (Redis.dlq (redis w)) event_id = found :: rest ->
  Redis.entry_fields found !! k = Some v ->
  is_retry_metadata k = false ->
  admin_xrange env = Done -> admin_xadd env = Done -> admin_xdel env = Raises e ->
  admin_xrange env' = Done -> admin_xadd env' = Done -> admin_xdel env' = Done ->
  let first := retry_dlq_event w event_id env in
  let second := retry_dlq_event first.1 event_id env' in
  let n := Redis.last_id (Redis.events (redis w)) in
  first.2 = false
  /\ Redis.dlq (redis first.1) = Redis.dlq (redis w)
  /\ Redis.entries (Redis.events (redis first.1))
     = Redis.entries (Redis.events (redis w))
       ++ [Redis.mk_entry (S n) (cleaned (Redis.entry_fields found))]
  /\ second.2 = true
  /\ Redis.entries (Redis.events (redis second.1))
     = Redis.entries (Redis.events (redis w))
       ++ [Redis.mk_entry (S n) (cleaned (Redis.entry_fields found));
           Redis.mk_entry (S (S n)) (cleaned (Redis.entry_fields found))].
Proof.
  intros Hfound Hk Hmeta Hr Ha Hd Hr' Ha' Hd' first second n.
  pose proof (cleaned_nonempty _ _ _ Hk Hmeta) as Hne.
  assert (Hfirst : first
                   = (set_redis w (set_events (redis w)
                        (Redis.xadd (Redis.events (redis w))
                                    (cleaned (Redis.entry_fields found)) None).1), false)).
  { subst first. unfold retry_dlq_event. rewrite Hr, Hfound.
    rewrite bool_decide_eq_false_2 by exact Hne. rewrite Ha, Hd. reflexivity. }
  assert (Hsecond : second.2 = true
                    /\ Redis.events (redis second.1)
                       = (Redis.xadd (Redis.events (redis first.1))
                                     (cleaned (Redis.entry_fields found)) None).1).
  { subst second. rewrite Hfirst. cbn [fst]. unfold retry_dlq_event.
    cbn [redis set_redis set_events Redis.dlq]. rewrite Hr', Hfound.
    rewrite bool_decide_eq_false_2 by exact Hne. rewrite Ha', Hd'. split; reflexivity. }
  destruct Hsecond as [Hs2 Hs1]. rewrite Hs1, Hfirst. cbn. subst n.
  repeat split; try assumption. now rewrite <- app_assoc.
Qed.

Lemma interrupted_retry_duplicates_event_witness :
  (retry_dlq_event after_dead_letter 1 delete_down).2 = false
  /\ (retry_dlq_event (retry_dlq_event after_dead_letter 1 delete_down).1 1 calm).2 = true
  /\ length (Redis.entries (Redis.events (redis
        (retry_dlq_event (retry_dlq_event after_dead_letter 1 delete_down).1 1 calm).1)))
     = 5%nat.
Proof.
  destruct (Redis.xrange_at (Redis.dlq (redis after_dead_letter)) 1) as [|found rest] eqn:Hfound;
    [vm_compute in Hfound; discriminate|].
  assert (Hk : Redis.entry_fields found !! "type" = Some (Lit "t")).
  { vm_compute in Hfound. injection Hfound as <- _. vm_compute. reflexivity. }
  destruct (interrupted_retry_duplicates_event after_dead_letter 1 found rest "type"
              (Lit "t") "Connection reset" delete_down calm Hfound Hk)
    as (Hfirst & _ & _ & Hsecond & Hentries); try reflexivity.
  split; [exact Hfirst | split; [exact Hsecond|]].
  rewrite Hentries, length_app. vm_compute. reflexivity.
Defined.


Section Readmission.
Context `{Numpy} `{Power}.


End Readmission.


(** X19.  What comes back from the dead-letter stream is not the event
    that went in: of the fields [_send_to_dlq] added, the admin retry
    strips [dlq_reason] and [dlq_timestamp] but keeps [final_retry_count]
    and [original_event_id], whose keys start with none of the stripped
    prefixes; every field of the event that is not retry metadata comes
    back as it was. *)
Theorem readmitted_fields (w : EventWorker) (event_id : nat) (env : world)
    (found : Redis.entry) (rest : list Redis.entry) (ev : event) (error now : string) :
  Redis.xrange_at (Redis.dlq (redis w)) event_id = found :: rest ->
  Redis.entry_fields found = dlq_fields ev error now ->
  (retry_dlq_event w event_id env).2 = true ->
  exists x,
    last (Redis.entries (Redis.events (redis (retry_dlq_event w event_id env).1))) = Some x
    /\ Redis.entry_fields x !! "final_retry_count"
       = Some (py_str (default (PInt 0) (data ev !! "retry_count")))
    /\ Redis.entry_fields x !! "original_event_id" = Some (Lit (Redis.id_text (id ev)))
    /\ (forall k, is_retry_metadata k = true -> Redis.entry_fields x !! k = None)
    /\ (forall k, is_retry_metadata k = false ->
          k <> "final_retry_count" -> k <> "original_event_id" ->
          Redis.entry_fields x !! k = py_str <$> data ev !! k).
Proof.
  intros Hfound Hfields Hok.
  destruct (retry_dlq_event_success w event_id env Hok) as (found' & rest' & Hfound' & ->).
  rewrite Hfound in Hfound'. injection Hfound' as <- <-.
  cbn [Redis.events]. unfold Redis.xadd. cbn [fst Redis.entries Redis.trim].
  eexists. split; [apply last_snoc|]. cbn [Redis.entry_fields].
  rewrite Hfields. repeat split.
  - rewrite cleaned_lookup, dlq_fields_lookup. reflexivity.
  - rewrite cleaned_lookup, dlq_fields_lookup. reflexivity.
  - intros k Hk. rewrite cleaned_lookup. now rewrite Hk.
  - intros k Hk Hf Ho. rewrite cleaned_lookup, Hk, dlq_fields_lookup.
    rewrite decide_False by exact Hf.
    destruct (decide (k = "dlq_timestamp")) as [->|_]; [discriminate Hk|].
    destruct (decide (k = "dlq_reason")) as [->|_]; [discriminate Hk|].
    now rewrite decide_False by exact Ho.
Qed.

Lemma readmitted_fields_witness :
  let ev := failed_event bad_event 4 "could not convert" "2024-01-30T10:45:02.000000" in
  let w := _send_to_dlq fresh_worker ev "could not convert" calm in
  exists x,
    last (Redis.entries (Redis.events (redis (retry_dlq_event w 1 calm).1))) = Some x
    /\ Redis.entry_fields x !! "final_retry_count" = Some (Lit "4")
    /\ Redis.entry_fields x !! "original_event_id" = Some (Lit "1-0")
    /\ Redis.entry_fields x !! "dlq_reason" = None
    /\ Redis.entry_fields x !! "value" = Some (Lit "abc").
Proof.
  intros ev w.
  destruct (readmitted_fields w 1 calm
              (Redis.mk_entry 1 (dlq_fields ev "could not convert" (utcnow calm))) [] ev
              "could not convert" (utcnow calm))
    as (x & Hlast & Hcount & Horigin & Hmeta & Hkept); try reflexivity.
  exists x. repeat split; [exact Hlast | exact Hcount | exact Horigin | |].
  - apply Hmeta. reflexivity.
  - rewrite Hkept by (reflexivity || discriminate). reflexivity.
Defined.

End WorkerRetry.

(** ** What holds in every state of the pipeline *)

Module WorkerLedger.
Import Config Worker.

(** The steps in which a worker handles an event. *)
Definition is_attempt (a : action) : bool :=
  match a with
  | Process _ _ _ => true
  | _ => false
  end.

Definition occurrences (p : action -> bool) (actions : list action) : Z :=
  Z.of_nat (length (List.filter p actions)).

Lemma occurrences_cons (p : action -> bool) (a : action) (actions : list action) :
  occurrences p (a :: actions) = (if p a then 1 else 0) + occurrences p actions.
Proof. unfold occurrences. cbn [List.filter]. destruct (p a); cbn [length]; lia. Qed.

Definition pending (w : EventWorker) : Z := Z.of_nat (length (tasks w)).

Lemma send_to_dlq_ledger (w : EventWorker) (ev : event) (error : string) (env : world) :
  let w' := _send_to_dlq w ev error env in
  processed_count w' = processed_count w /\ failed_count w' = failed_count w
  /\ metrics w' = metrics w /\ tasks w' = tasks w
  /\ 0 <= dlq_count w' - dlq_count w <= 1.
Proof. unfold _send_to_dlq. destruct (dlq_xadd env); cbn; repeat split; lia. Qed.

Lemma handle_failure_ledger `{Power} (cfg : Settings) (w : EventWorker) (ev : event)
    (error : string) (env : world) :
  let w' := (_handle_event_failure cfg w ev error env).1 in
  processed_count w' = processed_count w /\ failed_count w' = failed_count w + 1
  /\ metrics w' = metrics w
  /\ 0 <= dlq_count w' - dlq_count w
  /\ dlq_count w' + pending w' <= dlq_count w + pending w + 1.
Proof.
  unfold _handle_event_failure, pending.
  destruct (py_int _) as [n|]; [|cbn; repeat split; lia].
  destruct (_ <=? _)%Z.
  - cbn. rewrite length_app. cbn. repeat split; lia.
  - cbn [fst].
    destruct (send_to_dlq_ledger (set_failed_count w (failed_count w + 1))
                (mk_event (id ev)
                   (<["failed_at" := PStr (Lit (utcnow env))]>
                     (<["last_error" := PStr (Lit error)]>
                       (<["retry_count" := PInt (n + 1)]> (data ev)))) (stream ev))
                error env) as (Hp & Hf & Hm & Ht & Hd).
    set (w1 := _send_to_dlq _ _ _ _) in *. clearbody w1.
    rewrite Hp, Hf, Hm, Ht. cbn in *. repeat split; lia.
Qed.

Section Ledger.
Context `{Numpy} `{Power}.

Lemma process_event_ledger (cfg : Settings) (w : EventWorker) (worker_id : string)
    (ev : event) (env : world) :
  let w' := (process_event cfg w worker_id ev env).1 in
  processed_count w' + failed_count w' = processed_count w + failed_count w + 1
  /\ 0 <= processed_count w' - processed_count w
  /\ 0 <= dlq_count w' - dlq_count w
  /\ (dlq_count w' + pending w') - (dlq_count w + pending w)
     <= failed_count w' - failed_count w
  /\ Metrics.events_processed (metrics w') = Metrics.events_processed (metrics w) + 1.
Proof.
  unfold process_event.
  destruct (parsed_value (data ev)) as [value|] eqn:Hv.
  - destruct (process_single_done w worker_id ev env value Hv)
      as (Hdone & _ & Hm & Hp & Hf & Hd & Ht & _).
    destruct (_process_single_event w worker_id ev env) as [w1 o].
    cbn [fst snd] in *. subst o. cbn [fst]. unfold pending.
    rewrite Hm, Hp, Hf, Hd, Ht. cbn. repeat split; lia.
  - destruct (process_single_raises w worker_id ev env Hv) as [e ->].
    destruct (handle_failure_ledger cfg
                (set_metrics w (Metrics.record_processing_end (metrics w) (perf_start env)
                                  false (perf_end env)))
                ev ("Event processing failed: " ++ e) env) as (Hp & Hf & Hm & Hd & Hq).
    cbn [fst]. rewrite Hp, Hf, Hm. unfold pending in *. cbn in *. repeat split; lia.
Qed.

Lemma resume_ledger (w : EventWorker) (i : nat) (env : world) :
  let w' := resume w i env in
  processed_count w' = processed_count w /\ failed_count w' = failed_count w
  /\ metrics w' = metrics w
  /\ 0 <= dlq_count w' - dlq_count w
  /\ dlq_count w' + pending w' <= dlq_count w + pending w.
Proof.
  unfold resume, pending. destruct (tasks w !! i) as [t|] eqn:Hi; [|repeat split; lia].
  assert (Hlen : (length (delete i (tasks w)) < length (tasks w))%nat).
  { rewrite length_delete by (rewrite Hi; eauto).
    apply lookup_lt_Some in Hi. lia. }
  unfold _retry_event_later. destruct (retry_xadd env) as [|e].
  - cbn. repeat split; lia.
  - destruct (send_to_dlq_ledger (set_tasks w (delete i (tasks w))) (task_event t) e env)
      as (Hp & Hf & Hm & Ht & Hd).
    set (w1 := _send_to_dlq _ _ _ _) in *. clearbody w1.
    rewrite Hp, Hf, Hm, Ht. cbn in *. repeat split; lia.
Qed.

Lemma retry_dlq_event_ledger (w : EventWorker) (event_id : nat) (env : world) :
  let w' := (retry_dlq_event w event_id env).1 in
  processed_count w' = processed_count w /\ failed_count w' = failed_count w
  /\ metrics w' = metrics w /\ dlq_count w' = dlq_count w /\ tasks w' = tasks w.
Proof.
  unfold retry_dlq_event.
  destruct (admin_xrange env); [|now cbn].
  destruct (Redis.xrange_at _ _) as [|found rest]; [now cbn|].
  case_bool_decide; [now cbn|].
  destruct (admin_xadd env); [|now cbn].
  destruct (admin_xdel env); now cbn.
Qed.

Lemma step_ledger (cfg : Settings) (w : EventWorker) (a : action) :
  let w' := step cfg w a in
  let n := if is_attempt a then 1 else 0 in
  processed_count w' + failed_count w' = processed_count w + failed_count w + n
  /\ 0 <= processed_count w' - processed_count w
  /\ 0 <= dlq_count w' - dlq_count w
  /\ (dlq_count w' + pending w') - (dlq_count w + pending w)
     <= failed_count w' - failed_count w
  /\ Metrics.events_processed (metrics w') = Metrics.events_processed (metrics w) + n.
Proof.
  destruct a as [events clock|worker_id ev env|i env|event_id env]; cbn [step is_attempt].
  - unfold pending. cbn. repeat split; lia.
  - apply process_event_ledger.
  - destruct (resume_ledger w i env) as (Hp & Hf & Hm & Hd & Hq).
    cbn zeta in *. rewrite Hp, Hf, Hm. repeat split; lia.
  - destruct (retry_dlq_event_ledger w event_id env) as (Hp & Hf & Hm & Hd & Ht).
    cbn zeta in *. unfold pending. rewrite Hp, Hf, Hm, Hd, Ht. repeat split; lia.
Qed.

Lemma run_ledger (cfg : Settings) (actions : list action) (w : EventWorker) :
  let w' := run cfg w actions in
  let n := occurrences is_attempt actions in
  processed_count w' + failed_count w' = processed_count w + failed_count w + n
  /\ 0 <= processed_count w' - processed_count w
  /\ 0 <= dlq_count w' - dlq_count w
  /\ (dlq_count w' + pending w') - (dlq_count w + pending w)
     <= failed_count w' - failed_count w
  /\ Metrics.events_processed (metrics w') = Metrics.events_processed (metrics w) + n.
Proof.
  revert w. induction actions as [|a actions IH]; intros w.
  - change (occurrences is_attempt []) with 0. cbn. repeat split; lia.
  - unfold run. cbn [fold_left]. fold (run cfg (step cfg w a) actions).
    rewrite occurrences_cons.
    destruct (step_ledger cfg w a) as (Hs1 & Hs2 & Hs3 & Hs4 & Hs5).
    destruct (IH (step cfg w a)) as (Hr1 & Hr2 & Hr3 & Hr4 & Hr5).
    cbn zeta in *. repeat split; lia.
Qed.

(** X21.  The books of a worker balance in every state it reaches from
    its creation, whatever Redis does: every attempt is counted once, as
    processed or as failed; every dead-lettered event and every pending
    retry task stands for a counted failure; and the metrics collector
    has recorded exactly the attempts. *)
Theorem worker_books_balance (cfg : Settings) (r : Redis.db) (m : Metrics.MetricsCollector)
    (actions : list action) :
  let w := run cfg (init r m) actions in
  processed_count w + failed_count w = occurrences is_attempt actions
  /\ 0 <= processed_count w
  /\ 0 <= dlq_count w
  /\ dlq_count w + pending w <= failed_count w
  /\ Metrics.events_processed (metrics w)
     = Metrics.events_processed m + occurrences is_attempt actions.
Proof.
  destruct (run_ledger cfg actions (init r m)) as (H1 & H2 & H3 & H4 & H5).
  cbn zeta in *. unfold pending in *. cbn [init processed_count failed_count dlq_count
    tasks metrics length] in *. repeat split; lia.
Qed.

End Ledger.

End WorkerLedger.

(** ** The connection manager over its whole life *)

Module HubMore.
Import Hub.

(** What can happen to a manager: the four operations, each with the
    answer of the channels while it runs. *)
Inductive operation : Type :=
  | Connect (ws : websocket) (client : option string) (now : float)
  | Disconnect (ws : websocket)
  | Send (message : string) (ws : websocket)
  | Broadcast (message : string).

Definition step (m : WebSocketManager) (o : operation * (websocket -> bool))
  : WebSocketManager :=
  match o.1 with
  | Connect ws client now => connect m ws client now o.2
  | Disconnect ws => disconnect m ws
  | Send message ws => send_personal_message m message ws o.2
  | Broadcast message => broadcast m message o.2
  end.

Definition run (m : WebSocketManager) (history : list (operation * (websocket -> bool)))
  : WebSocketManager :=
  foldl step m history.

(** [get_connection_stats] when the event loop's clock reads [now]:
    [active_connections], [total_messages_sent] and, for each entry of
    the metadata table, the session with its duration. *)
Definition total_messages_sent (m : WebSocketManager) : Z :=
  map_fold (fun _ md total => message_count md + total) 0 (connection_metadata m).

Record connection_stats : Type := mk_stats {
  stats_active_connections : nat;
  stats_total_messages_sent : Z;
  stats_connections : list (string * float * Z * float)
}.

Definition get_connection_stats (m : WebSocketManager) (now : float) : connection_stats :=
  {| stats_active_connections := size (active_connections m);
     stats_total_messages_sent := total_messages_sent m;
     stats_connections :=
       map (fun md => (client_id md, connected_at md, message_count md,
                       (now - connected_at md)%float))
           (map snd (map_to_list (connection_metadata m))) |}.

(** The two tables agree and the gauge reads the number of subscribers. *)
Definition sound (m : WebSocketManager) : Prop :=
  consistent m /\ gauge m = size (active_connections m).

Lemma disconnect_sound (m : WebSocketManager) (ws : websocket) :
  sound m -> sound (disconnect m ws).
Proof.
  intros [Hc Hg]. split; [now apply disconnect_spec|].
  unfold disconnect. destruct (decide (ws ∈ active_connections m)); [reflexivity|exact Hg].
Qed.

Lemma disconnect_all_sound (l : list websocket) (m : WebSocketManager) :
  sound m -> sound (foldl disconnect m l).
Proof.
  revert m. induction l as [|x l IH]; intros m Hm; cbn [foldl]; [exact Hm|].
  apply IH. now apply disconnect_sound.
Qed.

Lemma send_personal_message_sound (m : WebSocketManager) (message : string)
    (ws : websocket) (up : websocket -> bool) :
  sound m -> sound (send_personal_message m message ws up).
Proof.
  intros Hm. split; [apply send_personal_message_consistent, Hm|].
  unfold send_personal_message. destruct (up ws); [apply Hm|].
  now apply disconnect_sound.
Qed.

Lemma connect_sound (m : WebSocketManager) (ws : websocket) (client : option string)
    (now : float) (up : websocket -> bool) :
  consistent m -> sound (connect m ws client now up).
Proof.
  intros Hm. unfold connect. apply send_personal_message_sound.
  split; [|reflexivity].
  unfold consistent in *. cbn. rewrite dom_insert_L, Hm. set_solver.
Qed.

Lemma broadcast_sound (m : WebSocketManager) (message : string) (up : websocket -> bool) :
  sound m -> sound (broadcast m message up).
Proof.
  intros [Hc Hg]. unfold broadcast.
  destruct (decide (active_connections m = ∅)); [now split|].
  unfold broadcast_loop.
  destruct (broadcast_loop_spec message up (elements (active_connections m)) m ∅)
    as (Ha & Hmd & Hg' & _).
  destruct (foldl (broadcast_send message up) (m, ∅) (elements (active_connections m)))
    as [m1 disconnected].
  cbn [fst snd] in *. apply disconnect_all_sound.
  split; [unfold consistent in *; now rewrite Hmd, Ha|]. now rewrite Hg', Ha.
Qed.

Lemma step_sound (m : WebSocketManager) (o : operation * (websocket -> bool)) :
  sound m -> sound (step m o).
Proof.
  intros Hm. unfold step. destruct o.1 as [ws client now|ws|message ws|message].
  - apply connect_sound, Hm.
  - now apply disconnect_sound.
  - now apply send_personal_message_sound.
  - now apply broadcast_sound.
Qed.

(** X23.  In every state a manager reaches from its creation, whichever
    sends fail: the metadata table holds exactly the subscribers, the
    active-connections gauge reads their number, and the statistics list
    one session for each of them. *)
Theorem manager_tables_agree (history : list (operation * (websocket -> bool)))
    (now : float) :
  let m := run init history in
  dom (connection_metadata m) = active_connections m
  /\ gauge m = size (active_connections m)
  /\ length (stats_connections (get_connection_stats m now))
     = stats_active_connections (get_connection_stats m now).
Proof.
  assert (Hsound : forall m, sound m -> sound (run m history)).
  { unfold run. induction history as [|o history IH]; intros m Hm; cbn [foldl]; [exact Hm|].
    apply IH. now apply step_sound. }
  destruct (Hsound init) as [Hc Hg].
  { split; [|reflexivity]. unfold consistent. cbn. apply dom_empty_L. }
  cbn zeta. split; [exact Hc|]. split; [exact Hg|].
  cbn [get_connection_stats stats_connections stats_active_connections].
  rewrite !length_map, length_map_to_list. rewrite <- Hc. symmetry. apply size_dom.
Qed.

Lemma disconnect_delivered (m : WebSocketManager) (ws : websocket) :
  delivered (disconnect m ws) = delivered m.
Proof. unfold disconnect. now destruct (decide (ws ∈ active_connections m)). Qed.

Lemma disconnect_all_delivered (l : list websocket) (m : WebSocketManager) :
  delivered (foldl disconnect m l) = delivered m.
Proof.
  revert m. induction l as [|x l IH]; intros m; cbn [foldl]; [reflexivity|].
  now rewrite IH, disconnect_delivered.
Qed.

Lemma broadcast_delivered (m : WebSocketManager) (message : string)
    (up : websocket -> bool) :
  delivered (broadcast m message up)
  = delivered m ++ map (fun ws => (ws, message))
                       (filter (fun ws => up ws = true) (elements (active_connections m))).
Proof.
  unfold broadcast. destruct (decide (active_connections m = ∅)) as [Hempty|Hne].
  { rewrite Hempty, elements_empty. cbn. now rewrite app_nil_r. }
  unfold broadcast_loop.
  destruct (broadcast_loop_spec message up (elements (active_connections m)) m ∅)
    as (_ & _ & _ & Hd & _).
  destruct (foldl (broadcast_send message up) (m, ∅) (elements (active_connections m)))
    as [m1 disconnected].
  cbn [fst snd] in *. now rewrite disconnect_all_delivered, Hd.
Qed.

Lemma filter_all {A : Type} (P : A -> Prop) `{forall x, Decision (P x)} (l : list A) :
  (forall x, x ∈ l -> P x) -> filter P l = l.
Proof.
  induction l as [|x l IH]; intros Hall; [reflexivity|].
  rewrite filter_cons, decide_True by (apply Hall; left).
  f_equal. apply IH. intros y Hy. apply Hall. now right.
Qed.

(** X24.  A broadcast sends the message once to every subscriber whose
    channel accepts it and to nobody else: the frames it adds are, for a
    list without repetition of exactly those subscribers, one frame
    each. *)
Theorem broadcast_delivers_once (m : WebSocketManager) (message : string)
    (up : websocket -> bool) :
  exists receivers,
    delivered (broadcast m message up)
    = delivered m ++ map (fun ws => (ws, message)) receivers
    /\ NoDup receivers
    /\ (forall ws, ws ∈ receivers <-> ws ∈ active_connections m /\ up ws = true).
Proof.
  unfold broadcast. destruct (decide (active_connections m = ∅)) as [Hempty|Hne].
  { exists []. split; [now rewrite app_nil_r|]. split; [constructor|].
    intros ws. rewrite Hempty. set_solver. }
  exists (filter (fun ws => up ws = true) (elements (active_connections m))).
  unfold broadcast_loop.
  destruct (broadcast_loop_spec message up (elements (active_connections m)) m ∅)
    as (_ & _ & _ & Hd & _).
  destruct (foldl (broadcast_send message up) (m, ∅) (elements (active_connections m)))
    as [m1 disconnected].
  cbn [fst snd] in *. rewrite disconnect_all_delivered, Hd.
  split; [reflexivity|]. split.
  - apply NoDup_filter, NoDup_elements.
  - intros ws. rewrite list_elem_of_filter, elem_of_elements. tauto.
Qed.

(** X25.  A connection whose welcome message cannot be sent leaves no
    trace: the subscriber set, the metadata table and the frames are
    those from before the call, and the gauge reads the old number of
    subscribers. *)
Theorem failed_handshake_leaves_no_trace (m : WebSocketManager) (ws : websocket)
    (client : option string) (now : float) (up : websocket -> bool) :
  consistent m ->
  ws ∉ active_connections m ->
  up ws = false ->
  let m' := connect m ws client now up in
  active_connections m' = active_connections m
  /\ connection_metadata m' = connection_metadata m
  /\ delivered m' = delivered m
  /\ gauge m' = size (active_connections m).
Proof.
  intros Hc Hnew Hup m'. subst m'. unfold connect, send_personal_message. rewrite Hup.
  unfold disconnect. cbn [active_connections connection_metadata gauge delivered].
  rewrite decide_True by set_solver.
  cbn [active_connections connection_metadata gauge delivered].
  assert (Hset : (active_connections m ∪ {[ws]}) ∖ {[ws]} = active_connections m)
    by set_solver.
  rewrite Hset. repeat split.
  apply delete_insert_id. apply not_elem_of_dom. now rewrite Hc.
Qed.

(** The second of three subscribers has left and tries to come back
    while its channel is down. *)
Lemma failed_handshake_leaves_no_trace_witness :
  let m := disconnect three_subscribers 2%nat in
  active_connections (connect m 2%nat None 0%float second_is_down) = active_connections m
  /\ connection_metadata (connect m 2%nat None 0%float second_is_down)
     = connection_metadata m.
Proof.
  intros m.
  assert (Hc : consistent three_subscribers).
  { unfold three_subscribers. repeat apply connect_consistent. reflexivity. }
  assert (Hm : consistent m) by now apply disconnect_spec.
  assert (Hout : 2%nat ∉ active_connections m).
  { unfold m. destruct (disconnect_spec three_subscribers 2%nat Hc) as (-> & _).
    set_solver. }
  destruct (failed_handshake_leaves_no_trace m 2%nat None 0%float second_is_down
              Hm Hout eq_refl) as (Hactive & Hmeta & _).
  split; [exact Hactive | exact Hmeta].
Defined.

Definition sum_counts (table : gmap websocket metadata) : Z :=
  map_fold (fun _ md total => message_count md + total) 0 table.

Lemma sum_counts_delete (table : gmap websocket metadata) (ws : websocket) (md : metadata) :
  table !! ws = Some md ->
  sum_counts table = message_count md + sum_counts (delete ws table).
Proof.
  intros Hws. unfold sum_counts.
  apply (map_fold_delete_L (fun _ md total => message_count md + total)); [|exact Hws].
  intros. lia.
Qed.

Lemma sum_counts_insert (table : gmap websocket metadata) (ws : websocket) (md : metadata) :
  table !! ws = None ->
  sum_counts (<[ws := md]> table) = message_count md + sum_counts table.
Proof.
  intros Hws. unfold sum_counts.
  apply (map_fold_insert_L (fun _ md total => message_count md + total)); [|exact Hws].
  intros. lia.
Qed.

Lemma sum_counts_alter (table : gmap websocket metadata) (ws : websocket) (md : metadata)
    (f : metadata -> metadata) :
  table !! ws = Some md ->
  sum_counts (alter f ws table) = sum_counts table - message_count md + message_count (f md).
Proof.
  intros Hws. rewrite alter_alt, Hws. rewrite <- insert_delete_eq.
  rewrite sum_counts_insert by apply lookup_delete_eq.
  rewrite (sum_counts_delete table ws md Hws). lia.
Qed.

Lemma broadcast_all_up (m : WebSocketManager) (message : string) (up : websocket -> bool) :
  (forall ws, ws ∈ active_connections m -> up ws = true) ->
  connection_metadata (broadcast m message up) = connection_metadata m
  /\ active_connections (broadcast m message up) = active_connections m.
Proof.
  intros Hup. unfold broadcast.
  destruct (decide (active_connections m = ∅)); [now split|].
  pose proof (broadcast_loop_collects m message up) as Hcollect.
  unfold broadcast_loop in *.
  destruct (broadcast_loop_spec message up (elements (active_connections m)) m ∅)
    as (Ha & Hmd & _).
  destruct (foldl (broadcast_send message up) (m, ∅) (elements (active_connections m)))
    as [m1 disconnected].
  cbn [fst snd] in *.
  assert (Hnone : disconnected = ∅).
  { apply elem_of_equiv_empty_L. intros ws Hws. apply Hcollect in Hws as [Hin Hdown].
    rewrite (Hup ws Hin) in Hdown. discriminate. }
  rewrite Hnone, elements_empty. cbn [foldl]. now split.
Qed.

(** X26.  [total_messages_sent] of the statistics counts personal
    messages only, and only those of open sessions: a personal message
    that is sent adds one; a broadcast that reaches every subscriber adds
    nothing, although it delivers a frame to each; and when a session
    ends, by [disconnect] or by a send that fails, its messages leave the
    total. *)
Theorem total_messages_sent_counts_open_sessions (m : WebSocketManager) (message : string)
    (ws : websocket) (up : websocket -> bool) (md : metadata) (now : float) :
  consistent m ->
  connection_metadata m !! ws = Some md ->
  let total m := stats_total_messages_sent (get_connection_stats m now) in
  (up ws = true -> total (send_personal_message m message ws up) = total m + 1)
  /\ (up ws = false ->
      total (send_personal_message m message ws up) = total m - message_count md)
  /\ total (disconnect m ws) = total m - message_count md
  /\ ((forall x, x ∈ active_connections m -> up x = true) ->
      total (broadcast m message up) = total m
      /\ length (delivered (broadcast m message up))
         = (length (delivered m) + size (active_connections m))%nat).
Proof.
  intros Hc Hws total. subst total.
  cbn [get_connection_stats stats_total_messages_sent]. unfold total_messages_sent.
  fold (sum_counts (connection_metadata m)).
  assert (Hin : ws ∈ active_connections m).
  { rewrite <- Hc. apply elem_of_dom. eauto. }
  assert (Hgone : map_fold (fun _ md total => message_count md + total) 0
                    (connection_metadata (disconnect m ws))
                  = sum_counts (connection_metadata m) - message_count md).
  { destruct (disconnect_spec m ws Hc) as (_ & -> & _).
    fold (sum_counts (delete ws (connection_metadata m))).
    rewrite (sum_counts_delete _ ws md Hws). lia. }
  split; [|split; [|split]].
  - intros Hup. unfold send_personal_message. rewrite Hup. cbn [connection_metadata].
    fold (sum_counts (alter (fun md0 => mk_metadata (client_id md0) (connected_at md0)
                                          (message_count md0 + 1)) ws (connection_metadata m))).
    rewrite (sum_counts_alter _ ws md) by exact Hws. cbn [message_count]. lia.
  - intros Hup. unfold send_personal_message. rewrite Hup. exact Hgone.
  - exact Hgone.
  - intros Hup. destruct (broadcast_all_up m message up Hup) as [-> _].
    split; [reflexivity|].
    rewrite broadcast_delivered, length_app, length_map.
    rewrite filter_all; [reflexivity|].
    intros x Hx. apply Hup. now apply elem_of_elements.
Qed.

(** The three welcome messages and one personal message. *)
Lemma total_messages_sent_counts_open_sessions_witness :
  stats_total_messages_sent
    (get_connection_stats
       (send_personal_message three_subscribers "ping" 1%nat (fun _ => true)) 5%float) = 4
  /\ stats_total_messages_sent
       (get_connection_stats (broadcast three_subscribers "alert" (fun _ => true)) 5%float) = 3.
Proof.
  assert (Hc : consistent three_subscribers).
  { unfold three_subscribers. repeat apply connect_consistent. reflexivity. }
  destruct (total_messages_sent_counts_open_sessions three_subscribers "ping" 1%nat
              (fun _ => true) (mk_metadata "client_1" 0%float 1) 5%float Hc eq_refl)
    as (Hsend & _ & _ & _).
  destruct (total_messages_sent_counts_open_sessions three_subscribers "alert" 1%nat
              (fun _ => true) (mk_metadata "client_1" 0%float 1) 5%float Hc eq_refl)
    as (_ & _ & _ & Hall).
  split.
  - rewrite (Hsend eq_refl). vm_compute. reflexivity.
  - destruct Hall as [Htotal _]; [reflexivity|]. rewrite Htotal. vm_compute. reflexivity.
Defined.

Lemma connect_up (m : WebSocketManager) (ws : websocket) (client : option string)
    (now : float) (up : websocket -> bool) :
  up ws = true ->
  let name := client_name client (size (active_connections m ∪ {[ws]})) in
  active_connections (connect m ws client now up) = active_connections m ∪ {[ws]}
  /\ connection_metadata (connect m ws client now up)
     = <[ws := mk_metadata name now 1]> (connection_metadata m)
  /\ delivered (connect m ws client now up) = delivered m ++ [(ws, welcome name)].
Proof.
  intros Hup name. unfold connect, send_personal_message. rewrite Hup.
  cbn [active_connections connection_metadata delivered].
  rewrite alter_insert_eq. repeat split.
Qed.

Lemma size_add (X : gset websocket) (ws : websocket) :
  ws ∉ X -> size (X ∪ {[ws]}) = S (size X).
Proof. intros Hws. rewrite size_union by set_solver. rewrite size_singleton. lia. Qed.

(** X27.  A session that gives no client id is named after the number
    of subscribers at the time, and a new session starts with the
    welcome message counted.  The names are therefore not unique: when
    two sessions open, the first closes and a third opens, the second
    and the third carry the same name. *)
Theorem synthesized_client_ids_collide (m : WebSocketManager) (a b c : websocket)
    (now : float) (up : websocket -> bool) :
  consistent m ->
  a ∉ active_connections m -> b ∉ active_connections m -> c ∉ active_connections m ->
  a <> b -> c <> b ->
  up a = true -> up b = true -> up c = true ->
  let m1 := connect (connect m a None now up) b None now up in
  let m2 := connect (disconnect m1 a) c None now up in
  let name := "client_" +:+ str_int (Z.of_nat (size (active_connections m) + 2)) in
  connection_metadata m2 !! b = Some (mk_metadata name now 1)
  /\ connection_metadata m2 !! c = Some (mk_metadata name now 1).
Proof.
  intros Hc Ha Hb Hnew Hab Hcb Hupa Hupb Hupc m1 m2 name.
  destruct (connect_up m a None now up Hupa) as (Ha1 & Hm1 & _).
  destruct (connect_up (connect m a None now up) b None now up Hupb) as (Ha2 & Hm2 & _).
  fold m1 in Ha2, Hm2. cbn zeta in *.
  assert (Hc1 : consistent m1) by (unfold m1; now repeat apply connect_consistent).
  destruct (disconnect_spec m1 a Hc1) as (Ha3 & Hm3 & _).
  destruct (connect_up (disconnect m1 a) c None now up Hupc) as (Ha4 & Hm4 & _).
  fold m2 in Ha4, Hm4. cbn zeta in *.
  assert (Hsize2 : size (active_connections (connect m a None now up) ∪ {[b]})
                   = (size (active_connections m) + 2)%nat).
  { rewrite Ha1. rewrite !size_add by set_solver. lia. }
  assert (Hsize4 : size (active_connections (disconnect m1 a) ∪ {[c]})
                   = (size (active_connections m) + 2)%nat).
  { rewrite Ha3, Ha2, Ha1.
    assert (Hset : (active_connections m ∪ {[a]} ∪ {[b]}) ∖ {[a]}
                   = active_connections m ∪ {[b]}) by set_solver.
    rewrite Hset. rewrite !size_add by set_solver. lia. }
  rewrite Hsize2 in Hm2. rewrite Hsize4 in Hm4. rewrite Hm4. split.
  - rewrite lookup_insert_ne by congruence. rewrite Hm3, lookup_delete_ne by exact Hab.
    rewrite Hm2. now rewrite lookup_insert_eq.
  - now rewrite lookup_insert_eq.
Qed.

Lemma synthesized_client_ids_collide_witness :
  let m1 := connect (connect init 1%nat None 0%float (fun _ => true))
                    2%nat None 0%float (fun _ => true) in
  let m2 := connect (disconnect m1 1%nat) 3%nat None 0%float (fun _ => true) in
  connection_metadata m2 !! 2%nat = Some (mk_metadata "client_2" 0%float 1)
  /\ connection_metadata m2 !! 3%nat = Some (mk_metadata "client_2" 0%float 1).
Proof.
  apply (synthesized_client_ids_collide init 1%nat 2%nat 3%nat 0%float (fun _ => true));
    try reflexivity; try (vm_compute; discriminate); try set_solver; try lia.
Defined.

End HubMore.

(** ** The admin view of the dead-letter stream *)

Module WorkerAdmin.
Import Config Worker WorkerRetry.

(** [get_dlq_events(limit)], with the outcome of its [XREVRANGE]: the
    newest [limit] entries, newest first.  redis-py refuses a count below
    one before it sends the command; that exception is caught like any
    other. *)
Definition get_dlq_events (w : EventWorker) (limit : Z) (xrevrange : outcome)
  : list (nat * Redis.fields) :=
  if (limit <? 1)%Z then []
  else
    match xrevrange with
    | Raises _ => []
    | Done =>
        map (fun e => (Redis.entry_id e, Redis.entry_fields e))
            (take (Z.to_nat limit) (reverse (Redis.entries (Redis.dlq (redis w)))))
    end.

(** The route [GET /dlq/events]: the listing and its [total]. *)
Definition get_dlq_events_route (w : EventWorker) (limit : Z) (xrevrange : outcome)
  : list (nat * Redis.fields) * nat :=
  let events := get_dlq_events w limit xrevrange in
  (events, length events).

(** X20.  The listing of the dead-letter stream: [total] is the number of
    entries listed, which is the smaller of [limit] and the length of the
    stream, not the length of the stream; a limit below one lists
    nothing; the event dead-lettered last comes first; and an entry that
    an admin retry has moved back is no longer listed. *)
Theorem dead_letter_listing (w : EventWorker) (limit : Z) (ev : event) (error : string)
    (event_id : nat) (env : world) :
  (1 <= limit ->
   (get_dlq_events_route w limit Done).2
   = Nat.min (Z.to_nat limit) (length (Redis.entries (Redis.dlq (redis w)))))
  /\ (limit < 1 -> forall o, get_dlq_events_route w limit o = ([], 0%nat))
  /\ (1 <= limit -> dlq_xadd env = Done ->
      head (get_dlq_events (_send_to_dlq w ev error env) limit Done)
      = Some (S (Redis.last_id (Redis.dlq (redis w))), dlq_fields ev error (utcnow env)))
  /\ ((retry_dlq_event w event_id env).2 = true ->
      forall o f, (event_id, f) ∉ get_dlq_events (retry_dlq_event w event_id env).1 limit o).
Proof.
  unfold get_dlq_events_route. cbn [fst snd]. unfold get_dlq_events.
  split; [|split; [|split]].
  - intros Hlimit. rewrite (proj2 (Z.ltb_ge limit 1)) by lia.
    now rewrite length_map, length_take, length_reverse.
  - intros Hlimit o. now rewrite (proj2 (Z.ltb_lt limit 1)) by lia.
  - intros Hlimit Hok. rewrite (proj2 (Z.ltb_ge limit 1)) by lia.
    destruct (send_to_dlq_appends w ev error env Hok) as (Hlast & _).
    rewrite <- head_reverse in Hlast.
    destruct (reverse _) as [|newest older]; [discriminate|].
    injection Hlast as ->.
    destruct (Z.to_nat limit) as [|n] eqn:Hn; [lia|]. reflexivity.
  - intros Hok o f Hin.
    destruct (retry_dlq_event_success w event_id env Hok) as (found & rest & _ & Hdb).
    rewrite Hdb in Hin. cbn [Redis.dlq] in Hin.
    destruct (limit <? 1)%Z; [now apply elem_of_nil in Hin|].
    destruct o as [|e]; [|now apply elem_of_nil in Hin].
    apply list_elem_of_fmap in Hin as (x & Hx & Hin).
    apply subseteq_take in Hin. rewrite elem_of_reverse in Hin.
    unfold Redis.xdel in Hin. cbn [Redis.entries] in Hin.
    apply list_elem_of_filter in Hin as [Hne _].
    injection Hx as Hid _. congruence.
Qed.

(** The dead-letter stream of [after_dead_letter] holds one entry. *)
Lemma dead_letter_listing_witness :
  (get_dlq_events_route after_dead_letter 100 Done).2 = 1%nat
  /\ get_dlq_events_route after_dead_letter 0 Done = ([], 0%nat)
  /\ (forall f, (1%nat, f) ∉ get_dlq_events (retry_dlq_event after_dead_letter 1 calm).1
                              100 Done).
Proof.
  destruct (dead_letter_listing after_dead_letter 100 bad_event "" 1 calm)
    as (Htotal & _ & _ & Hgone).
  destruct (dead_letter_listing after_dead_letter 0 bad_event "" 1 calm)
    as (_ & Hnone & _).
  split; [rewrite Htotal by lia; vm_compute; reflexivity|].
  split; [apply Hnone; lia|].
  exact (Hgone eq_refl Done).
Defined.

(** *** The route [POST /dlq/{event_id}/retry] *)

(** What a handler does: it returns a body or raises an exception. *)
Inductive exception : Type :=
  | HTTPException (status_code : Z) (detail : string)
  | OtherException (message : string).

Inductive result (A : Type) : Type :=
  | Return (a : A)
  | Raise (e : exception).
Arguments Return {A} a.
Arguments Raise {A} e.

(** [try: body / except Exception as e: handler(e)]. *)
Definition try_except {A : Type} (body : result A) (handler : exception -> result A)
  : result A :=
  match body with
  | Return a => Return a
  | Raise e => handler e
  end.

Section Route.

(** [str(e)] of an exception; what it gives for an [HTTPException]
    depends on the version of the framework. *)
Variable str : exception -> string.

(** [retry_dlq_event(event_id)] of the events router: the worker after
    the request and the answer. *)
Definition retry_dlq_event_route (w : EventWorker) (event_id : nat) (env : world)
  : EventWorker * result string :=
  let '(w', success) := retry_dlq_event w event_id env in
  (w',
   try_except
     (if success then
        Return ("Event " +:+ Redis.id_text event_id +:+ " retried successfully")
      else
        Raise (HTTPException 404 ("Event " +:+ Redis.id_text event_id +:+ " not found in DLQ")))
     (fun e => Raise (HTTPException 500 ("Failed to retry event: " +:+ str e)))).

(** The status code of an answer; an exception that is not an
    [HTTPException] becomes a 500 in the application's handler. *)
Definition status_code_of {A : Type} (r : result A) : Z :=
  match r with
  | Return _ => 200
  | Raise (HTTPException status_code _) => status_code
  | Raise (OtherException _) => 500
  end.

(** X28.  The retry route never answers 404.  The [HTTPException] it
    raises for an entry that is not in the dead-letter stream is raised
    inside its own [try] block, whose [except Exception] turns it into a
    500; so the answer is 200 when the worker reports success and 500 in
    every other case, and an unknown id cannot be told from a failure of
    Redis. *)
Theorem retry_route_never_answers_not_found (w : EventWorker) (event_id : nat)
    (env : world) :
  let answer := (retry_dlq_event_route w event_id env).2 in
  status_code_of answer <> 404
  /\ (status_code_of answer = 200 <-> (retry_dlq_event w event_id env).2 = true)
  /\ (Redis.xrange_at (Redis.dlq (redis w)) event_id = [] -> status_code_of answer = 500)
  /\ (retry_dlq_event_route w event_id env).1 = (retry_dlq_event w event_id env).1.
Proof.
  unfold retry_dlq_event_route.
  assert (Habsent : Redis.xrange_at (Redis.dlq (redis w)) event_id = [] ->
                    (retry_dlq_event w event_id env).2 = false).
  { intros Hnone. unfold retry_dlq_event. rewrite Hnone. now destruct (admin_xrange env). }
  destruct (retry_dlq_event w event_id env) as [w' [|]]; cbn.
  - repeat split; try discriminate. intros Hnone. specialize (Habsent Hnone). discriminate.
  - repeat split; try discriminate.
Qed.

End Route.

End WorkerAdmin.
